(** * SyncAsyncStream: a ring buffer over a shared byte region

    A shallow embedding of [packages/ffmpeg/src/sync.ts].  The
    [SharedArrayBuffer] is a list of bytes; the [Int32Array] view [#index]
    starts at byte 0 and the [Uint8Array] view [#data] at byte [indexBytes].
    The three control words are decoded from the bytes they occupy
    (little-endian, as on every platform the package runs on), so the frame
    properties below are statements about the one shared region. *)

From Stdlib Require Import ZArith List Lia Bool.
From coqutil Require Import Byte Word.LittleEndianList.
Import ListNotations.
Local Open Scope Z_scope.

(** ** Bytes, typed arrays and the shared region *)

Definition buffer := list byte.

Definition Zlength' {A} (l : list A) : Z := Z.of_nat (length l).

(** ToInt32: the value an [Int32Array] element holds after a store. *)
Definition to_int32 (z : Z) : Z := (z + 2 ^ 31) mod 2 ^ 32 - 2 ^ 31.

(** Overlay [xs] on [l] from position [off]; the length of [l] is kept. *)
Fixpoint set_at {A} (l : list A) (off : nat) (xs : list A) : list A :=
  match l with
  | [] => []
  | h :: t =>
      match off with
      | S o => h :: set_at t o xs
      | O => match xs with
             | [] => l
             | x :: xs' => x :: set_at t O xs'
             end
      end
  end.

(** [TypedArray.prototype.subarray(begin, end)]: negative positions count
    from the end, both are clamped, an inverted range is empty. *)
Definition clamp_index (len k : Z) : Z :=
  if k <? 0 then Z.max (len + k) 0 else Z.min k len.

Definition subarray {A} (l : list A) (begin_ end_ : Z) : list A :=
  let len := Zlength' l in
  let b := clamp_index len begin_ in
  let e := clamp_index len end_ in
  firstn (Z.to_nat (Z.max (e - b) 0)) (skipn (Z.to_nat b) l).

(** [subarray(begin)]: the end defaults to the length. *)
Definition subarray_from {A} (l : list A) (begin_ : Z) : list A :=
  subarray l begin_ (Zlength' l).

(** Element [i] of the [Int32Array] view at byte offset 0. *)
Definition Int32_get (b : buffer) (i : nat) : Z :=
  to_int32 (le_combine (firstn 4 (skipn (4 * i) b))).

Definition Int32_set (b : buffer) (i : nat) (v : Z) : buffer :=
  set_at b (4 * i) (le_split 4 v).

(** ** Outcomes of a call *)

Inductive exn := RangeError.

Inductive outcome (A : Type) : Type :=
| Returns (a : A) (b : buffer)
| Throws (e : exn) (b : buffer)
| Unfinished.
Arguments Returns {A} a b.
Arguments Throws {A} e b.
Arguments Unfinished {A}.

Definition M (A : Type) : Type := buffer -> outcome A.

Definition ret {A} (a : A) : M A := fun b => Returns a b.

Definition bind {A B} (c : M A) (k : A -> M B) : M B :=
  fun b =>
    match c b with
    | Returns a b' => k a b'
    | Throws e b' => Throws e b'
    | Unfinished => Unfinished
    end.

Declare Scope stream_scope.
Delimit Scope stream_scope with stream.
Notation "x <- c ;; k" := (bind c (fun x => k))
  (at level 61, c at next level, right associativity) : stream_scope.
Notation "' pat <- c ;; k" := (bind c (fun x => match x with pat => k end))
  (at level 61, pat pattern, c at next level, right associativity) : stream_scope.
Notation "c ;;; k" := (bind c (fun _ => k))
  (at level 61, right associativity) : stream_scope.
Local Open Scope stream_scope.

(** ** Atomics on the index view *)

Definition Atomics_load (i : nat) : M Z :=
  fun b => Returns (Int32_get b i) b.

Definition Atomics_store (i : nat) (v : Z) : M Z :=
  fun b => Returns v (Int32_set b i v).

Definition Atomics_or (i : nat) (v : Z) : M Z :=
  fun b => let old := Int32_get b i in
           Returns old (Int32_set b i (Z.lor old v)).

(** [Atomics.notify] wakes parked agents; it does not touch the region. *)
Definition Atomics_notify (i : nat) : M Z := ret 0.

(** What the counterpart does to the region while this side is parked. *)
Definition interference := buffer -> buffer.

Definition idle : interference := fun b => b.

(** [Atomics.wait(index, i, expected, 10)]: returns at once when the word
    differs from [expected], otherwise parks until notified or timed out. *)
Definition Atomics_wait (env : interference) (i : nat) (expected : Z) : M unit :=
  fun b => if Int32_get b i =? expected then Returns tt (env b) else Returns tt b.

(** [await Atomics.waitAsync(index, i, expected, 10).value]: the same test,
    the task is suspended instead of the thread. *)
Definition Atomics_waitAsync (env : interference) (i : nat) (expected : Z) : M unit :=
  fun b => if Int32_get b i =? expected then Returns tt (env b) else Returns tt b.

(** ** The stream *)

Module SyncAsyncStream.

Definition indexBytes : Z := 3 * 4.

(** *** Construction *)

(** [new SharedArrayBuffer(n)]: a negative length is a RangeError. *)
Definition new_SharedArrayBuffer (n : Z) : option buffer :=
  if n <? 0 then None else Some (repeat Byte.x00 (Z.to_nat n)).

Record view := { byteOffset : Z; viewLength : Z; bytesPerElement : Z }.

(** [new Int32Array(buffer, byteOffset, length)]. *)
Definition new_Int32Array (b : buffer) (off len : Z) : option view :=
  if negb (off mod 4 =? 0) then None
  else if off + len * 4 >? Zlength' b then None
  else Some {| byteOffset := off; viewLength := len; bytesPerElement := 4 |}.

(** [new Uint8Array(buffer, byteOffset)]: the view runs to the end. *)
Definition new_Uint8Array (b : buffer) (off : Z) : option view :=
  if off >? Zlength' b then None
  else Some {| byteOffset := off; viewLength := Zlength' b - off;
               bytesPerElement := 1 |}.

Record stream := { s_buffer : buffer; s_index : view; s_data : view }.

Definition attach (b : buffer) : option stream :=
  match new_Int32Array b 0 indexBytes with
  | None => None
  | Some ix =>
      match new_Uint8Array b indexBytes with
      | None => None
      | Some d => Some {| s_buffer := b; s_index := ix; s_data := d |}
      end
  end.

(** [constructor(sizeInBytes)]; [None] stands for the RangeError thrown. *)
Definition constructor (sizeInBytes : Z) : option stream :=
  match new_SharedArrayBuffer (sizeInBytes + indexBytes) with
  | None => None
  | Some b => attach b
  end.

(** *** Views of an attached region *)

Definition data (b : buffer) : list byte := skipn (Z.to_nat indexBytes) b.

Definition data_length (b : buffer) : Z := Zlength' (data b).

(** [this.#data.set(src, off)]. *)
Definition data_set (src : list byte) (off : Z) : M unit :=
  fun b =>
    if (off <? 0) || (off + Zlength' src >? data_length b)
    then Throws RangeError b
    else Returns tt (set_at b (Z.to_nat indexBytes + Z.to_nat off) src).

(** [target.set(src, off)] on the caller's array. *)
Definition target_set (target src : list byte) (off : Z) : option (list byte) :=
  if (off <? 0) || (off + Zlength' src >? Zlength' target)
  then None
  else Some (set_at target (Z.to_nat off) src).

(** *** Accessors *)

Definition notifyReaders : M Z := Atomics_notify 1.
Definition notifyWriters : M Z := Atomics_notify 0.

Definition closed : M bool :=
  v <- Atomics_load 2 ;; ret (negb (v =? 0)).

Definition setClosed : M Z := Atomics_or 2 1.

Definition endOfStream : M bool :=
  v <- Atomics_load 2 ;; ret (v >? 1).

Definition setEndOfStream : M Z := Atomics_or 2 2.

Definition readPosition : M Z := Atomics_load 0.
Definition writePosition : M Z := Atomics_load 1.
Definition set_readPosition (pos : Z) : M Z := Atomics_store 0 pos.
Definition set_writePosition (pos : Z) : M Z := Atomics_store 1 pos.

Definition close : M Z := setClosed ;;; notifyReaders.

Fixpoint reset_from (n : nat) (i : nat) : M unit :=
  match n with
  | O => ret tt
  | S n' => Atomics_store i 0 ;;; reset_from n' (S i)
  end.

(** [for (let i = 0; i < 3; i++) Atomics.store(this.#index, i, 0)]. *)
Definition reset : M unit := reset_from 3 0.

(** *** One copy attempt in each direction *)

Definition writeBytes (bytes : list byte) : M (Z * Z) :=
  currentWritePosition <- writePosition ;;
  currentReadPosition <- readPosition ;;
  fun b =>
  let len := data_length b in
  if Z.rem (currentWritePosition + 1) len =? currentReadPosition
  then Returns (0, currentReadPosition) b
  else
    let contiguousSpace :=
      if currentReadPosition >? currentWritePosition
      then currentReadPosition - currentWritePosition
      else len - currentWritePosition in
    let bytesToWrite := Z.min (Zlength' bytes) contiguousSpace in
    let nextWritePosition := Z.rem (currentWritePosition + bytesToWrite) len in
    let '(nextWritePosition, bytesToWrite) :=
      if nextWritePosition =? currentReadPosition
      then
        let nextWritePosition := nextWritePosition - 1 in
        let bytesToWrite := bytesToWrite - 1 in
        (if nextWritePosition <? 0 then nextWritePosition + len
         else nextWritePosition, bytesToWrite)
      else (nextWritePosition, bytesToWrite) in
    (data_set (subarray bytes 0 bytesToWrite) currentWritePosition ;;;
     set_writePosition nextWritePosition ;;;
     notifyReaders ;;;
     ret (bytesToWrite, currentReadPosition)) b.

Definition readBytes (target : list byte) (offset : Z) : M (Z * list byte) :=
  currentWritePosition <- writePosition ;;
  currentReadPosition <- readPosition ;;
  fun b =>
  let len := data_length b in
  let contiguousData :=
    if currentReadPosition <? currentWritePosition
    then currentWritePosition - currentReadPosition
    else len - currentReadPosition in
  let bytesToRead := Z.min (Zlength' target - offset) contiguousData in
  match target_set target
          (subarray (data b) currentReadPosition
             (currentReadPosition + bytesToRead)) offset with
  | None => Throws RangeError b
  | Some target' =>
      (set_readPosition (Z.rem (currentReadPosition + bytesToRead) len) ;;;
       notifyWriters ;;;
       ret (bytesToRead, target')) b
  end.

(** *** The four entry points

    A loop that may park forever is cut off by [fuel]; every wait hands the
    region to [env] once. *)

Fixpoint write_loop (env : interference) (fuel : nat) (source : list byte)
    (totalBytesWritten : Z) : M Z :=
  if totalBytesWritten <? Zlength' source then
    match fuel with
    | O => fun _ => Unfinished
    | S fuel' =>
        '(bytesWritten, checkedReadPosition) <-
           writeBytes (subarray_from source totalBytesWritten) ;;
        if bytesWritten >? 0
        then write_loop env fuel' source (totalBytesWritten + bytesWritten)
        else Atomics_waitAsync env 0 checkedReadPosition ;;;
             write_loop env fuel' source totalBytesWritten
    end
  else ret totalBytesWritten.

Definition write (env : interference) (fuel : nat) (source : list byte) : M Z :=
  write_loop env fuel source 0.

Fixpoint writeSync_loop (env : interference) (fuel : nat) (source : list byte)
    (totalBytesWritten : Z) : M Z :=
  if totalBytesWritten <? Zlength' source then
    match fuel with
    | O => fun _ => Unfinished
    | S fuel' =>
        '(bytesWritten, checkedReadPosition) <-
           writeBytes (subarray_from source totalBytesWritten) ;;
        if bytesWritten >? 0
        then writeSync_loop env fuel' source (totalBytesWritten + bytesWritten)
        else Atomics_wait env 0 checkedReadPosition ;;;
             writeSync_loop env fuel' source totalBytesWritten
    end
  else ret totalBytesWritten.

Definition writeSync (env : interference) (fuel : nat) (source : list byte) : M Z :=
  writeSync_loop env fuel source 0.

(** The inner [while (readPosition == (checkedWritePosition = writePosition))]
    loop; [true] means the enclosing call returns [bytesRead] at once. *)
Fixpoint read_wait (env : interference) (fuel : nat) : M bool :=
  rp <- readPosition ;;
  checkedWritePosition <- writePosition ;;
  if rp =? checkedWritePosition then
    c <- closed ;;
    if c then setEndOfStream ;;; ret true
    else
      match fuel with
      | O => fun _ => Unfinished
      | S fuel' =>
          Atomics_waitAsync env 1 checkedWritePosition ;;; read_wait env fuel'
      end
  else ret false.

Fixpoint read_loop (env : interference) (fuel : nat) (target : list byte)
    (offset limit bytesRead : Z) : M (Z * list byte) :=
  if bytesRead <? limit then
    match fuel with
    | O => fun _ => Unfinished
    | S fuel' =>
        stop <- read_wait env fuel' ;;
        if stop then ret (bytesRead, target)
        else
          '(n, target') <- readBytes target (offset + bytesRead) ;;
          read_loop env fuel' target' offset limit (bytesRead + n)
    end
  else ret (bytesRead, target).

(** The result pairs the returned count with the final [target]. *)
Definition read (env : interference) (fuel : nat) (target : list byte)
    (offset limit : Z) : M (Z * list byte) :=
  eos <- endOfStream ;;
  if eos then ret (-1, target)
  else read_loop env fuel target offset limit 0.

Fixpoint readSync_wait (env : interference) (fuel : nat) : M bool :=
  rp <- readPosition ;;
  checkedWritePosition <- writePosition ;;
  if rp =? checkedWritePosition then
    c <- closed ;;
    if c then setEndOfStream ;;; ret true
    else
      match fuel with
      | O => fun _ => Unfinished
      | S fuel' =>
          Atomics_wait env 1 checkedWritePosition ;;; readSync_wait env fuel'
      end
  else ret false.

Fixpoint readSync_loop (env : interference) (fuel : nat) (target : list byte)
    (offset limit bytesRead : Z) : M (Z * list byte) :=
  if bytesRead <? limit then
    match fuel with
    | O => fun _ => Unfinished
    | S fuel' =>
        stop <- readSync_wait env fuel' ;;
        if stop then ret (bytesRead, target)
        else
          '(n, target') <- readBytes target (offset + bytesRead) ;;
          readSync_loop env fuel' target' offset limit (bytesRead + n)
    end
  else ret (bytesRead, target).

Definition readSync (env : interference) (fuel : nat) (target : list byte)
    (offset limit : Z) : M (Z * list byte) :=
  eos <- endOfStream ;;
  if eos then ret (-1, target)
  else readSync_loop env fuel target offset limit 0.

(** *** Pure readings of the region *)

Definition rp (b : buffer) : Z := Int32_get b 0.
Definition wp (b : buffer) : Z := Int32_get b 1.
Definition state (b : buffer) : Z := Int32_get b 2.
Definition capacity (b : buffer) : Z := data_length b.

(** Number of unread bytes. *)
Definition used (b : buffer) : Z := (wp b - rp b) mod capacity b.

(** The [u] bytes of the circular array [d] that start at position [r]. *)
Definition ring (d : list byte) (r u : Z) : list byte :=
  map (fun k => nth (Z.to_nat ((r + Z.of_nat k) mod Zlength' d)) d Byte.x00)
      (seq 0 (Z.to_nat u)).

(** The unread bytes, oldest first. *)
Definition contents (b : buffer) : list byte :=
  ring (data b) (rp b) (used b).

(** What every attached stream satisfies between calls. *)
Definition stream_ok (b : buffer) : Prop :=
  (48 <= length b)%nat /\ capacity b <= 2 ^ 31 /\
  0 <= rp b < capacity b /\ 0 <= wp b < capacity b /\
  0 <= state b <= 3.

(** *** Sequences of calls on one stream *)

(** Which of the two entry points a call goes through. *)
Inductive variant := Blocking | Suspending.

Definition write_call (v : variant) : interference -> nat -> list byte -> M Z :=
  match v with Blocking => writeSync | Suspending => write end.

Definition read_call (v : variant) :
    interference -> nat -> list byte -> Z -> Z -> M (Z * list byte) :=
  match v with Blocking => readSync | Suspending => read end.

Record read_request := {
  rq_variant : variant;
  rq_target : list byte;
  rq_offset : Z;
  rq_limit : Z
}.

Fixpoint write_all (env : interference) (fuel : nat)
    (calls : list (variant * list byte)) : M (list Z) :=
  match calls with
  | [] => ret []
  | (v, source) :: rest =>
      n <- write_call v env fuel source ;;
      ns <- write_all env fuel rest ;;
      ret (n :: ns)
  end.

Fixpoint read_all (env : interference) (fuel : nat)
    (calls : list read_request) : M (list (Z * list byte)) :=
  match calls with
  | [] => ret []
  | rq :: rest =>
      r <- read_call (rq_variant rq) env fuel (rq_target rq) (rq_offset rq)
             (rq_limit rq) ;;
      rs <- read_all env fuel rest ;;
      ret (r :: rs)
  end.

(** The bytes a read call that returned [(count, target')] put into its
    target: [target'[offset .. offset + count)]. *)
Definition delivered (rq : read_request) (res : Z * list byte) : list byte :=
  firstn (Z.to_nat (fst res)) (skipn (Z.to_nat (rq_offset rq)) (snd res)).

Definition delivered_all (calls : list read_request)
    (results : list (Z * list byte)) : list byte :=
  concat (map (fun p => delivered (fst p) (snd p)) (combine calls results)).

Definition sum (l : list Z) : Z := fold_right Z.add 0 l.

(** A request whose target has room for exactly [limit] bytes from [offset]
    on, as the worker's device shim issues them. *)
Definition exact_fit (rq : read_request) : Prop :=
  0 <= rq_offset rq /\ 0 <= rq_limit rq /\
  rq_offset rq + rq_limit rq = Zlength' (rq_target rq).

End SyncAsyncStream.

Import SyncAsyncStream.

(** ** Concrete streams used in the examples *)

(** The region of a stream just built by [new SyncAsyncStream(n)]. *)
Definition fresh (n : Z) : buffer :=
  match constructor n with
  | Some s => s_buffer s
  | None => []
  end.

Definition bytes_of (l : list Z) : list byte := map byte.of_Z l.

(** The region after running [c]. *)
Definition after {A} (c : M A) (b : buffer) : buffer :=
  match c b with
  | Returns _ b' => b'
  | Throws _ b' => b'
  | Unfinished => b
  end.

(** A 36-byte stream on which [l] has been written and nothing read. *)
Definition stream_with (l : list Z) : buffer :=
  after (writeSync idle (S (length l)) (bytes_of l)) (fresh 36).

(** The same after [close()]. *)
Definition closed_stream_with (l : list Z) : buffer :=
  after close (stream_with l).

(** An empty open stream whose two cursors stand at position [n]:
    [n] bytes were written and read back. *)
Definition drained_stream (n : nat) : buffer :=
  after (readSync idle (S n) (repeat Byte.x00 n) 0 (Z.of_nat n))
    (after (writeSync idle (S n) (repeat Byte.x01 n)) (fresh 36)).

(** A stream on which [l] was written, that was closed and then read to
    end-of-stream. *)
Definition ended_stream (l : list Z) : buffer :=
  after (readSync idle (S (S (length l))) (repeat Byte.x00 (S (length l))) 0
           (Z.of_nat (S (length l))))
    (closed_stream_with l).

(** A closed stream on which end-of-stream, if latched, was latched on an
    empty buffer: what [close()] and reads make of a well-formed stream. *)
Definition winding_down (b : buffer) : Prop :=
  stream_ok b /\ state b <> 0 /\ (state b > 1 -> used b = 0).

(** ** Code around the stream *)

(** A [Map<number, SyncAsyncStream>]: keys are unique and kept in insertion
    order; a stream object is represented by its shared region. *)
Definition stream_map := list (Z * buffer).

Definition map_get (m : stream_map) (k : Z) : option buffer :=
  option_map snd (find (fun p => fst p =? k) m).

Fixpoint map_set (m : stream_map) (k : Z) (v : buffer) : stream_map :=
  match m with
  | [] => [(k, v)]
  | (k', v') :: rest =>
      if k' =? k then (k, v) :: rest else (k', v') :: map_set rest k v
  end.

(** The device shims of [worker.ts]. *)
Module Worker.

(** [buffer[i] = v] on the heap: an index outside the array is ignored. *)
Definition heap_store (buffer : list byte) (i : Z) (v : byte) : list byte :=
  if (0 <=? i) && (i <? Zlength' buffer)
  then set_at buffer (Z.to_nat i) [v]
  else buffer.

(** [for (let i = 0; i < bytesRead; i++) buffer[offset + i] = target[i]],
    with [steps] iterations left and [i] the loop variable. *)
Fixpoint copy_to_heap (steps : nat) (i : Z) (buffer target : list byte)
    (offset : Z) : list byte :=
  match steps with
  | O => buffer
  | S steps' =>
      copy_to_heap steps' (i + 1)
        (heap_store buffer (offset + i) (nth (Z.to_nat i) target Byte.x00))
        target offset
  end.

(** The [read] callback registered by [createInputStream]; the result pairs
    the returned count with the heap. *)
Definition input_read (env : interference) (fuel : nat) (buffer : list byte)
    (offset length : Z) : M (Z * list byte) :=
  if length <? 0 then fun b => Throws RangeError b
  else
    '(bytesRead, target) <-
       readSync env fuel (repeat Byte.x00 (Z.to_nat length)) 0 length ;;
    let buffer := copy_to_heap (Z.to_nat bytesRead) 0 buffer target offset in
    if bytesRead <? 0 then ret (0, buffer) else ret (bytesRead, buffer).

(** The [write] callback registered by [createOutputStream]:
    [writeSync(Uint8Array.of(...buffer.slice(offset, offset + length)))]. *)
Definition output_write (env : interference) (fuel : nat) (buffer : list byte)
    (offset length : Z) : M Z :=
  writeSync env fuel (subarray buffer offset (offset + length)).

(** [for (const stream of outputStreams.values()) stream.close()]. *)
Definition closeOutputStreams (outputStreams : stream_map) : stream_map :=
  map (fun p => (fst p, after close (snd p))) outputStreams.

End Worker.

(** The stream and listener methods of the [FFmpeg] class of [classes.ts]. *)
Module FFmpeg.

(** Callbacks are compared by identity; a number stands for one. *)
Definition callback := nat.

Inductive event := log | progress.

Record ffmpeg := {
  logEventCallbacks : list callback;
  progressEventCallbacks : list callback;
  inputStreams : stream_map;
  outputStreams : stream_map
}.

Definition with_log (l : list callback) (s : ffmpeg) : ffmpeg :=
  {| logEventCallbacks := l;
     progressEventCallbacks := progressEventCallbacks s;
     inputStreams := inputStreams s; outputStreams := outputStreams s |}.

Definition with_progress (l : list callback) (s : ffmpeg) : ffmpeg :=
  {| logEventCallbacks := logEventCallbacks s;
     progressEventCallbacks := l;
     inputStreams := inputStreams s; outputStreams := outputStreams s |}.

Definition with_inputs (m : stream_map) (s : ffmpeg) : ffmpeg :=
  {| logEventCallbacks := logEventCallbacks s;
     progressEventCallbacks := progressEventCallbacks s;
     inputStreams := m; outputStreams := outputStreams s |}.

Definition with_outputs (m : stream_map) (s : ffmpeg) : ffmpeg :=
  {| logEventCallbacks := logEventCallbacks s;
     progressEventCallbacks := progressEventCallbacks s;
     inputStreams := inputStreams s; outputStreams := m |}.

Definition on (ev : event) (cb : callback) (s : ffmpeg) : ffmpeg :=
  match ev with
  | log => with_log (logEventCallbacks s ++ [cb]) s
  | progress => with_progress (progressEventCallbacks s ++ [cb]) s
  end.

Definition off (ev : event) (cb : callback) (s : ffmpeg) : ffmpeg :=
  match ev with
  | log =>
      with_log (filter (fun f => negb (f =? cb)%nat) (logEventCallbacks s)) s
  | progress =>
      with_progress
        (filter (fun f => negb (f =? cb)%nat) (progressEventCallbacks s)) s
  end.

(** The list an event name selects. *)
Definition callbacks_of (ev : event) (s : ffmpeg) : list callback :=
  match ev with
  | log => logEventCallbacks s
  | progress => progressEventCallbacks s
  end.

Inductive error := ERROR_STREAM_FAILURE | StreamError (e : exn).

Inductive result (A : Type) : Type :=
| Done (a : A) (s : ffmpeg)
| Raised (e : error) (s : ffmpeg)
| Pending.
Arguments Done {A} a s.
Arguments Raised {A} e s.
Arguments Pending {A}.

(** [addInputStream(inputBufferSize)]; [fd] is the descriptor the worker
    answers to the CREATE_INPUT_STREAM message. *)
Definition addInputStream (inputBufferSize : Z) (fd : Z) (s : ffmpeg) : result Z :=
  match constructor inputBufferSize with
  | None => Raised (StreamError RangeError) s
  | Some inputStream =>
      Done fd (with_inputs (map_set (inputStreams s) fd (s_buffer inputStream)) s)
  end.

(** [addStreamPair(outputBufferSize)], likewise. *)
Definition addStreamPair (outputBufferSize : Z) (fd : Z) (s : ffmpeg) : result Z :=
  match constructor outputBufferSize with
  | None => Raised (StreamError RangeError) s
  | Some outputStream =>
      Done fd (with_outputs (map_set (outputStreams s) fd (s_buffer outputStream)) s)
  end.

Definition resetStreams (s : ffmpeg) : ffmpeg :=
  {| logEventCallbacks := logEventCallbacks s;
     progressEventCallbacks := progressEventCallbacks s;
     inputStreams :=
       map (fun p => (fst p, after reset (snd p))) (inputStreams s);
     outputStreams :=
       map (fun p => (fst p, after reset (snd p))) (outputStreams s) |}.

(** [writeToInputStream(stream, source)]; [None] is the [null] source. *)
Definition writeToInputStream (env : interference) (fuel : nat) (stream : Z)
    (source : option (list byte)) (s : ffmpeg) : result Z :=
  match map_get (inputStreams s) stream with
  | None => Raised ERROR_STREAM_FAILURE s
  | Some inputStream =>
      match source with
      | Some source =>
          match write env fuel source inputStream with
          | Returns n b' =>
              Done n (with_inputs (map_set (inputStreams s) stream b') s)
          | Throws e b' =>
              Raised (StreamError e)
                (with_inputs (map_set (inputStreams s) stream b') s)
          | Unfinished => Pending
          end
      | None =>
          Done 0
            (with_inputs
               (map_set (inputStreams s) stream (after close inputStream)) s)
      end
  end.

(** [readFromOutputStream(stream, target, offset, limit)]; the result pairs
    the count with the final [target]. *)
Definition readFromOutputStream (env : interference) (fuel : nat) (stream : Z)
    (target : list byte) (offset limit : Z) (s : ffmpeg) :
    result (Z * list byte) :=
  match map_get (outputStreams s) stream with
  | None => Raised ERROR_STREAM_FAILURE s
  | Some outputStream =>
      match read env fuel target offset limit outputStream with
      | Returns r b' =>
          Done r (with_outputs (map_set (outputStreams s) stream b') s)
      | Throws e b' =>
          Raised (StreamError e)
            (with_outputs (map_set (outputStreams s) stream b') s)
      | Unfinished => Pending
      end
  end.

End FFmpeg.

(** The earlier, byte-at-a-time version of the class. *)
Module ByteWise.

(** [this.#data[i] = v]: an index outside the view is ignored. *)
Definition data_store (i : Z) (v : byte) : M unit :=
  fun b =>
    if (0 <=? i) && (i <? data_length b)
    then Returns tt (set_at b (Z.to_nat indexBytes + Z.to_nat i) [v])
    else Returns tt b.

(** [this.#data[i]]: outside the view the element is [undefined], which a
    typed-array store turns into 0. *)
Definition data_get (i : Z) (b : buffer) : byte :=
  if (0 <=? i) && (i <? data_length b)
  then nth (Z.to_nat i) (data b) Byte.x00
  else Byte.x00.

Definition writeByte (v : byte) : M (bool * Z) :=
  wp0 <- writePosition ;;
  fun b =>
  let nextWritePosition := Z.rem (wp0 + 1) (data_length b) in
  (currentReadPosition <- readPosition ;;
   if nextWritePosition =? currentReadPosition
   then ret (false, currentReadPosition)
   else
     wp1 <- writePosition ;;
     data_store wp1 v ;;;
     set_writePosition nextWritePosition ;;;
     notifyReaders ;;;
     ret (true, currentReadPosition)) b.

Fixpoint writeSync_loop (env : interference) (fuel : nat) (source : list byte)
    (bytesWritten : Z) : M Z :=
  if bytesWritten <? Zlength' source then
    match fuel with
    | O => fun _ => Unfinished
    | S fuel' =>
        '(didWrite, checkedReadPosition) <-
           writeByte (nth (Z.to_nat bytesWritten) source Byte.x00) ;;
        if didWrite : bool
        then writeSync_loop env fuel' source (bytesWritten + 1)
        else Atomics_wait env 0 checkedReadPosition ;;;
             writeSync_loop env fuel' source bytesWritten
    end
  else ret bytesWritten.

Definition writeSync (env : interference) (fuel : nat) (source : list byte) : M Z :=
  c <- closed ;;
  (if c : bool then reset else ret tt) ;;;
  writeSync_loop env fuel source 0.

(** The inner loop of the byte-wise read: here the wait comes first and the
    closed flag is looked at after it. *)
Fixpoint readSync_wait (env : interference) (fuel : nat) : M bool :=
  rp <- readPosition ;;
  checkedWritePosition <- writePosition ;;
  if rp =? checkedWritePosition then
    match fuel with
    | O => fun _ => Unfinished
    | S fuel' =>
        Atomics_wait env 1 checkedWritePosition ;;;
        c <- closed ;;
        if c : bool then setEndOfStream ;;; ret true
        else readSync_wait env fuel'
    end
  else ret false.

(** [target[i] = v] on the caller's array. *)
Definition target_store (target : list byte) (i : Z) (v : byte) : list byte :=
  if (0 <=? i) && (i <? Zlength' target)
  then set_at target (Z.to_nat i) [v]
  else target.

Fixpoint readSync_loop (env : interference) (fuel : nat) (target : list byte)
    (offset limit bytesRead : Z) : M (Z * list byte) :=
  if bytesRead <? limit then
    match fuel with
    | O => fun _ => Unfinished
    | S fuel' =>
        stop <- readSync_wait env fuel' ;;
        if stop : bool then ret (bytesRead, target)
        else
          readPosition0 <- readPosition ;;
          fun b =>
          let target :=
            target_store target (offset + bytesRead)
              (data_get readPosition0 b) in
          (set_readPosition (Z.rem (readPosition0 + 1) (data_length b)) ;;;
           notifyWriters ;;;
           readSync_loop env fuel' target offset limit (bytesRead + 1)) b
    end
  else ret (bytesRead, target).

Definition readSync (env : interference) (fuel : nat) (target : list byte)
    (offset limit : Z) : M (Z * list byte) :=
  eos <- endOfStream ;;
  if eos : bool then ret (-1, target)
  else readSync_loop env fuel target offset limit 0.

End ByteWise.

(** * Properties *)

(** ** Overlays *)

Lemma set_at_length {A} (l : list A) : forall off xs,
  length (set_at l off xs) = length l.
Proof.
  induction l as [|h t IH]; intros [|o] xs; simpl; auto.
  destruct xs; simpl; auto.
Qed.

Lemma set_at_nil {A} (l : list A) : forall off, set_at l off [] = l.
Proof.
  induction l as [|h t IH]; intros [|o]; simpl; auto. now rewrite IH.
Qed.

Lemma skipn_set_at_add {A} (n : nat) : forall (l : list A) off xs,
  skipn n (set_at l (n + off) xs) = set_at (skipn n l) off xs.
Proof.
  induction n as [|n IH]; intros [|h t] off xs; simpl; auto.
Qed.

(** Reading position [k] of an overlay. *)
Lemma nth_set_at {A} (d : A) (l : list A) : forall off xs k,
  nth k (set_at l off xs) d =
  if ((off <=? k) && (k <? off + length xs) && (k <? length l))%nat
  then nth (k - off) xs d else nth k l d.
Proof.
  induction l as [|h t IH]; intros off xs k.
  - simpl set_at. simpl length.
    replace (k <? 0)%nat with false by (symmetry; apply Nat.ltb_ge; lia).
    rewrite andb_false_r. reflexivity.
  - destruct off as [|o].
    + destruct xs as [|x xs'].
      * simpl set_at. simpl length. rewrite Nat.add_0_r.
        destruct (Nat.ltb_spec k 0); [lia|]. reflexivity.
      * simpl set_at. destruct k as [|k]; [reflexivity|].
        simpl nth. rewrite IH. simpl length.
        replace (k - 0)%nat with k by lia.
        destruct (Nat.ltb_spec k (0 + length xs'));
          destruct (Nat.ltb_spec (S k) (0 + S (length xs')));
          destruct (Nat.ltb_spec k (length t));
          destruct (Nat.ltb_spec (S k) (S (length t)));
          simpl; try lia; reflexivity.
    + simpl set_at. destruct k as [|k]; [reflexivity|].
      simpl nth. rewrite IH. simpl length.
      change (S k - S o)%nat with (k - o)%nat.
      destruct (Nat.leb_spec o k); destruct (Nat.leb_spec (S o) (S k));
        destruct (Nat.ltb_spec k (o + length xs));
        destruct (Nat.ltb_spec (S k) (S o + length xs));
        destruct (Nat.ltb_spec k (length t));
        destruct (Nat.ltb_spec (S k) (S (length t)));
        simpl; try lia; reflexivity.
Qed.

(** ** The control words and the data region do not overlap *)

Ltac split_header b H :=
  do 12 (destruct b as [|? b]; [simpl in H; lia|]).

Lemma to_int32_mod (v : Z) : to_int32 (v mod 2 ^ 32) = to_int32 v.
Proof.
  unfold to_int32. rewrite Zplus_mod_idemp_l. reflexivity.
Qed.

Lemma to_int32_small (v : Z) : - 2 ^ 31 <= v < 2 ^ 31 -> to_int32 v = v.
Proof.
  intros H. unfold to_int32. rewrite Z.mod_small; lia.
Qed.

Lemma word_of_overlay (b : buffer) (i j : nat) (xs : list byte) :
  (12 <= length b)%nat -> (i < 3)%nat -> (j < 3)%nat -> length xs = 4%nat ->
  firstn 4 (skipn (4 * i) (set_at b (4 * j) xs)) =
  if (i =? j)%nat then xs else firstn 4 (skipn (4 * i) b).
Proof.
  intros Hb Hi Hj Hx.
  split_header b Hb.
  do 4 (destruct xs as [|? xs]; [discriminate|]).
  destruct xs; [|discriminate].
  destruct i as [|[|[|i]]]; [| | |lia];
    (destruct j as [|[|[|j]]]; [| | |lia]); reflexivity.
Qed.

Lemma data_of_overlay (b : buffer) (j : nat) (xs : list byte) :
  (12 <= length b)%nat -> (j < 3)%nat -> length xs = 4%nat ->
  data (set_at b (4 * j) xs) = data b.
Proof.
  intros Hb Hj Hx.
  split_header b Hb.
  do 4 (destruct xs as [|? xs]; [discriminate|]).
  destruct xs; [|discriminate].
  destruct j as [|[|[|j]]]; [| | |lia]; cbn; rewrite ?set_at_nil; reflexivity.
Qed.

Lemma Int32_get_set (b : buffer) (i j : nat) (v : Z) :
  (12 <= length b)%nat -> (i < 3)%nat -> (j < 3)%nat ->
  Int32_get (Int32_set b j v) i =
  if (i =? j)%nat then to_int32 v else Int32_get b i.
Proof.
  intros Hb Hi Hj. unfold Int32_get, Int32_set.
  rewrite word_of_overlay by (auto using length_le_split).
  destruct (i =? j)%nat; [|reflexivity].
  rewrite le_combine_split. apply to_int32_mod.
Qed.

Lemma data_Int32_set (b : buffer) (j : nat) (v : Z) :
  (12 <= length b)%nat -> (j < 3)%nat -> data (Int32_set b j v) = data b.
Proof.
  intros Hb Hj. unfold Int32_set.
  apply data_of_overlay; auto using length_le_split.
Qed.

Lemma Int32_set_length (b : buffer) (j : nat) (v : Z) :
  length (Int32_set b j v) = length b.
Proof. apply set_at_length. Qed.

Lemma Int32_get_data_overlay (b : buffer) (i off : nat) (xs : list byte) :
  (12 <= length b)%nat -> (i < 3)%nat ->
  Int32_get (set_at b (12 + off) xs) i = Int32_get b i.
Proof.
  intros Hb Hi. unfold Int32_get. f_equal. f_equal.
  split_header b Hb.
  destruct i as [|[|[|i]]]; [| | |lia]; reflexivity.
Qed.

Lemma data_data_overlay (b : buffer) (off : nat) (xs : list byte) :
  data (set_at b (12 + off) xs) = set_at (data b) off xs.
Proof.
  unfold data. change (Z.to_nat indexBytes) with 12%nat.
  apply skipn_set_at_add.
Qed.

Lemma capacity_length (b : buffer) :
  (12 <= length b)%nat -> capacity b = Z.of_nat (length b) - 12.
Proof.
  intros H. unfold capacity, data_length, Zlength', data.
  change (Z.to_nat indexBytes) with 12%nat. rewrite length_skipn. lia.
Qed.

(** ** Arithmetic modulo the capacity *)

Lemma mod_wrap (c x : Z) :
  0 < c -> 0 <= x < 2 * c -> x mod c = if x <? c then x else x - c.
Proof.
  intros Hc Hx. destruct (Z.ltb_spec x c).
  - apply Z.mod_small; lia.
  - symmetry. apply Z.mod_unique with 1; lia.
Qed.

Lemma mod_back (c x : Z) :
  0 < c -> - c <= x < c -> x mod c = if x <? 0 then x + c else x.
Proof.
  intros Hc Hx. destruct (Z.ltb_spec x 0).
  - symmetry. apply Z.mod_unique with (-1); lia.
  - apply Z.mod_small; lia.
Qed.

Lemma rem_is_mod (x c : Z) : 0 <= x -> 0 < c -> Z.rem x c = x mod c.
Proof. intros. apply Z.rem_mod_nonneg; lia. Qed.

(** ** The circular array *)

Lemma map_seq_is {A} (d : A) (f : nat -> A) (xs : list A) : forall a,
  (forall j, (j < length xs)%nat -> f (a + j)%nat = nth j xs d) ->
  map f (seq a (length xs)) = xs.
Proof.
  induction xs as [|x xs IH]; intros a H; simpl; [reflexivity|].
  f_equal.
  - specialize (H 0%nat). simpl in H. rewrite Nat.add_0_r in H. apply H. lia.
  - apply IH. intros j Hj. specialize (H (S j)). simpl in H.
    rewrite <- H by lia. f_equal. lia.
Qed.

Lemma seq_from (n : nat) : forall a,
  seq a n = map (fun k => (a + k)%nat) (seq 0 n).
Proof.
  induction n as [|n IH]; intros a; simpl; [reflexivity|].
  rewrite Nat.add_0_r. f_equal.
  rewrite <- (seq_shift n 0), map_map, (IH (S a)).
  apply map_ext. intros k. lia.
Qed.

Lemma ring_length (d : list byte) (r u : Z) :
  length (ring d r u) = Z.to_nat u.
Proof. unfold ring. now rewrite length_map, length_seq. Qed.

Lemma ring_empty (d : list byte) (r : Z) : ring d r 0 = [].
Proof. reflexivity. Qed.

(** Appending at the write cursor: the overlay lands on free slots. *)
Lemma ring_overlay (d xs : list byte) (r u w : Z) :
  let c := Zlength' d in
  0 <= r < c -> 0 <= u -> w = (r + u) mod c ->
  w + Zlength' xs <= c -> u + Zlength' xs <= c ->
  ring (set_at d (Z.to_nat w) xs) r (u + Zlength' xs) = ring d r u ++ xs.
Proof.
  intros c Hr Hu Hw Hfit Hroom. unfold ring, Zlength' in *.
  rewrite set_at_length. fold c.
  replace (Z.to_nat (u + Z.of_nat (length xs)))
    with (Z.to_nat u + length xs)%nat by lia.
  rewrite seq_app, map_app. f_equal.
  - apply map_ext_in. intros k Hk. apply in_seq in Hk.
    rewrite nth_set_at.
    assert (Hp: (r + Z.of_nat k) mod c = if r + Z.of_nat k <? c
                  then r + Z.of_nat k else r + Z.of_nat k - c)
      by (apply mod_wrap; lia).
    assert (Hw': w = if r + u <? c then r + u else r + u - c)
      by (rewrite Hw; apply mod_wrap; lia).
    destruct (Z.ltb_spec (r + Z.of_nat k) c), (Z.ltb_spec (r + u) c);
      rewrite Hp;
      match goal with
      | |- (if ?t then _ else _) = _ =>
          replace t with false; [reflexivity|]
      end; symmetry;
      rewrite !andb_false_iff, Nat.leb_gt, !Nat.ltb_ge; lia.
  - apply map_seq_is with (d := Byte.x00). intros j Hj.
    rewrite nth_set_at.
    assert (Hp: (r + Z.of_nat (0 + Z.to_nat u + j)) mod c = w + Z.of_nat j).
    { replace (r + Z.of_nat (0 + Z.to_nat u + j)) with (r + u + Z.of_nat j) by lia.
      rewrite <- Zplus_mod_idemp_l, <- Hw.
      apply Z.mod_small.
      assert (0 <= w) by (rewrite Hw; apply Z.mod_pos_bound; lia). lia. }
    rewrite Hp.
    assert (0 <= w) by (rewrite Hw; apply Z.mod_pos_bound; lia).
    replace (Z.to_nat (w + Z.of_nat j) - Z.to_nat w)%nat with j by lia.
    match goal with
    | |- (if ?t then _ else _) = _ => replace t with true; [reflexivity|]
    end.
    symmetry. rewrite !andb_true_iff, Nat.leb_le, !Nat.ltb_lt. fold c. lia.
Qed.

(** Consuming [n] bytes at the read cursor. *)
Lemma ring_skip (d : list byte) (r u n : Z) :
  let c := Zlength' d in
  0 <= r < c -> 0 <= n <= u ->
  ring d ((r + n) mod c) (u - n) = skipn (Z.to_nat n) (ring d r u).
Proof.
  intros c Hr Hn. unfold ring. fold c.
  rewrite skipn_map, skipn_seq.
  replace (Z.to_nat u - Z.to_nat n)%nat with (Z.to_nat (u - n)) by lia.
  rewrite (seq_from _ (0 + Z.to_nat n)), map_map.
  apply map_ext. intros k.
  rewrite Zplus_mod_idemp_l. do 3 f_equal. lia.
Qed.

Lemma map_seq_eq {A} (d : A) (f : nat -> A) (xs : list A) (n : nat) :
  length xs = n -> (forall j, (j < n)%nat -> f j = nth j xs d) ->
  map f (seq 0 n) = xs.
Proof.
  intros <- H. apply map_seq_is with (d := d). intros j Hj. now apply H.
Qed.

Lemma ring_firstn (d : list byte) (r u n : Z) :
  0 <= n <= u -> firstn (Z.to_nat n) (ring d r u) = ring d r n.
Proof.
  intros Hn. unfold ring. rewrite firstn_map. f_equal.
  replace (Z.to_nat u) with (Z.to_nat n + (Z.to_nat u - Z.to_nat n))%nat by lia.
  rewrite seq_app, firstn_app, length_seq, Nat.sub_diag. simpl firstn at 2.
  rewrite app_nil_r. apply firstn_all2. rewrite length_seq. lia.
Qed.

(** A run that does not cross the physical end is a slice of the array. *)
Lemma ring_contiguous (d : list byte) (r n : Z) :
  0 <= r -> 0 <= n -> r + n <= Zlength' d ->
  ring d r n = firstn (Z.to_nat n) (skipn (Z.to_nat r) d).
Proof.
  intros Hr Hn Hfit. unfold ring, Zlength' in *.
  apply map_seq_eq with (d := Byte.x00).
  - rewrite length_firstn, length_skipn. lia.
  - intros j Hj. rewrite nth_firstn.
    destruct (Nat.ltb_spec j (Z.to_nat n)); [|lia].
    rewrite nth_skipn. f_equal. rewrite Z.mod_small; lia.
Qed.

(** ** Typed-array slices *)

Lemma subarray_prefix {A} (l : list A) (n : Z) :
  0 <= n <= Zlength' l -> subarray l 0 n = firstn (Z.to_nat n) l.
Proof.
  intros H. unfold subarray, clamp_index.
  change (0 <? 0) with false. cbv iota.
  destruct (Z.ltb_spec n 0); [lia|].
  rewrite (Z.min_l 0), (Z.min_l n) by lia.
  simpl skipn. f_equal. lia.
Qed.

Lemma subarray_nil {A} (x y : Z) : subarray (@nil A) x y = [].
Proof. unfold subarray. rewrite skipn_nil. apply firstn_nil. Qed.

Lemma subarray_range {A} (l : list A) (x n : Z) :
  0 <= x -> 0 <= n -> x + n <= Zlength' l ->
  subarray l x (x + n) = firstn (Z.to_nat n) (skipn (Z.to_nat x) l).
Proof.
  intros Hx Hn H. unfold subarray, clamp_index.
  destruct (Z.ltb_spec x 0); [lia|].
  destruct (Z.ltb_spec (x + n) 0); [lia|].
  rewrite !Z.min_l by lia. do 2 f_equal. lia.
Qed.

Lemma subarray_from_skipn {A} (l : list A) (x : Z) :
  0 <= x <= Zlength' l -> subarray_from l x = skipn (Z.to_nat x) l.
Proof.
  intros H. unfold subarray_from.
  replace (Zlength' l) with (x + (Zlength' l - x)) at 1 by lia.
  rewrite subarray_range by lia.
  apply firstn_all2. unfold Zlength' in *. rewrite length_skipn. lia.
Qed.

(** ** One copy attempt *)

Lemma stream_words_after_store (b : buffer) (j : nat) (v : Z) :
  (12 <= length b)%nat -> (j < 3)%nat ->
  rp (Int32_set b j v) = (if (0 =? j)%nat then to_int32 v else rp b) /\
  wp (Int32_set b j v) = (if (1 =? j)%nat then to_int32 v else wp b) /\
  state (Int32_set b j v) = (if (2 =? j)%nat then to_int32 v else state b) /\
  data (Int32_set b j v) = data b /\
  capacity (Int32_set b j v) = capacity b /\
  length (Int32_set b j v) = length b.
Proof.
  intros Hb Hj. unfold rp, wp, state, capacity, data_length.
  rewrite !Int32_get_set, data_Int32_set, Int32_set_length by lia.
  repeat split.
Qed.

Lemma stream_words_after_data_set (b : buffer) (off : nat) (xs : list byte) :
  (12 <= length b)%nat ->
  let b' := set_at b (12 + off) xs in
  rp b' = rp b /\ wp b' = wp b /\ state b' = state b /\
  data b' = set_at (data b) off xs /\
  capacity b' = capacity b /\ length b' = length b.
Proof.
  intros Hb b'. subst b'. unfold rp, wp, state, capacity, data_length.
  rewrite !Int32_get_data_overlay, data_data_overlay by lia.
  unfold Zlength'. rewrite !set_at_length. repeat split.
Qed.

Ltac split_ifs :=
  repeat match goal with
  | |- context [?x <? ?y] => destruct (Z.ltb_spec x y)
  | |- context [?x >? ?y] => destruct (Z.gtb_spec x y)
  | H : context [?x <? ?y] |- _ => destruct (Z.ltb_spec x y)
  | H : context [?x >? ?y] |- _ => destruct (Z.gtb_spec x y)
  end.

Lemma writeBytes_spec (b : buffer) (bytes : list byte) :
  stream_ok b -> (wp b + 1) mod capacity b <> rp b ->
  exists n b',
    writeBytes bytes b = Returns (n, rp b) b' /\
    rp b' = rp b /\ state b' = state b /\ length b' = length b /\
    n <= Zlength' bytes /\ wp b + Z.max n 0 <= capacity b /\
    0 <= wp b' < capacity b /\ wp b' <> rp b /\
    data b' = set_at (data b) (Z.to_nat (wp b)) (firstn (Z.to_nat n) bytes) /\
    (bytes <> [] ->
     1 <= n /\ wp b' = (wp b + n) mod capacity b /\
     used b + n <= capacity b - 1).
Proof.
  intros (Hlen & Hcap & Hr & Hw) Hfull.
  unfold writeBytes, bind, writePosition, readPosition, Atomics_load.
  change (Int32_get b 1) with (wp b). change (Int32_get b 0) with (rp b).
  change (data_length b) with (capacity b).
  set (c := capacity b) in *. set (r := rp b) in *. set (w := wp b) in *.
  rewrite rem_is_mod by lia.
  destruct (Z.eqb_spec ((w + 1) mod c) r) as [E|_]; [contradiction|].
  set (space := if r >? w then r - w else c - w).
  set (n0 := Z.min (Zlength' bytes) space).
  assert (Hsp: 1 <= space <= c - w).
  { subst space. destruct (Z.gtb_spec r w); lia. }
  assert (Hn0: 0 <= n0 <= space).
  { subst n0. unfold Zlength'. lia. }
  rewrite rem_is_mod by lia.
  assert (Hc36: 36 <= c).
  { subst c. rewrite capacity_length by lia. lia. }
  assert (Hwn: (w + n0) mod c = if w + n0 <? c then w + n0 else w + n0 - c)
    by (apply mod_wrap; lia).
  assert (Hw1: (w + 1) mod c = if w + 1 <? c then w + 1 else w + 1 - c)
    by (apply mod_wrap; lia).
  assert (Hu: used b = if w - r <? 0 then w - r + c else w - r)
    by (apply mod_back; lia).
  assert (Hplan: exists nwp n,
    (if (w + n0) mod c =? r
      then
       (if (w + n0) mod c - 1 <? 0
        then (w + n0) mod c - 1 + c
        else (w + n0) mod c - 1, n0 - 1)
      else ((w + n0) mod c, n0)) = (nwp, n) /\
    -1 <= n <= Zlength' bytes /\ w + Z.max n 0 <= c /\
    0 <= nwp < c /\ nwp <> r /\
    (bytes <> [] -> 1 <= n /\ nwp = (w + n) mod c /\ used b + n <= c - 1)).
  { assert (Hne: bytes <> [] -> 1 <= n0).
    { intros Hb. subst n0. unfold Zlength'. destruct bytes; [congruence|].
      simpl length. lia. }
    assert (Hn0': n0 <= Zlength' bytes) by (subst n0; lia).
    assert (Hs: space = if r >? w then r - w else c - w) by reflexivity.
    destruct (Z.eqb_spec ((w + n0) mod c) r) as [E|E];
      (do 2 eexists; split; [reflexivity|]);
      rewrite Hwn in E |- *; rewrite Hw1 in Hfull; rewrite Hu;
      clearbody space n0; clear Hwn Hw1 Hu;
      split_ifs; repeat split; intros;
      try (specialize (Hne ltac:(assumption)));
      try lia;
      rewrite mod_wrap by lia; split_ifs; lia. }
  destruct Hplan as (nwp & n & -> & Hn & Hfit & Hnwp & Hneq & Hne).
  assert (Hsub: subarray bytes 0 n = firstn (Z.to_nat n) bytes).
  { destruct bytes as [|x bytes'].
    - rewrite subarray_nil, firstn_nil. reflexivity.
    - apply subarray_prefix. destruct Hne as [? _]; [discriminate|]. lia. }
  rewrite Hsub.
  assert (Hxs: Zlength' (firstn (Z.to_nat n) bytes) = Z.max n 0).
  { unfold Zlength' in *. rewrite length_firstn. lia. }
  unfold data_set. change (data_length b) with c. rewrite Hxs.
  destruct (Z.ltb_spec w 0); [lia|].
  destruct (Z.gtb_spec (w + Z.max n 0) c); [lia|].
  cbv [orb]. change (Z.to_nat indexBytes) with 12%nat.
  set (xs := firstn (Z.to_nat n) bytes) in *.
  destruct (stream_words_after_data_set b (Z.to_nat w) xs ltac:(lia))
    as (R1 & W1 & S1 & D1 & C1 & L1).
  set (b1 := set_at b (12 + Z.to_nat w) xs) in *.
  unfold set_writePosition, Atomics_store, notifyReaders, Atomics_notify, ret.
  destruct (stream_words_after_store b1 1 nwp ltac:(lia) ltac:(lia))
    as (R2 & W2 & S2 & D2 & C2 & L2).
  cbn [Nat.eqb] in R2, W2, S2.
  rewrite to_int32_small in W2 by lia.
  exists n, (Int32_set b1 1 nwp).
  rewrite R2, W2, S2, D2, L2, R1, S1, D1, L1.
  repeat split; try lia; try apply Hne; assumption.
Qed.

Lemma writeBytes_full (b : buffer) (bytes : list byte) :
  stream_ok b -> (wp b + 1) mod capacity b = rp b ->
  writeBytes bytes b = Returns (0, rp b) b.
Proof.
  intros (Hlen & Hcap & Hr & Hw) Hfull.
  unfold writeBytes, bind, writePosition, readPosition, Atomics_load.
  change (Int32_get b 1) with (wp b). change (Int32_get b 0) with (rp b).
  change (data_length b) with (capacity b).
  rewrite rem_is_mod by lia.
  destruct (Z.eqb_spec ((wp b + 1) mod capacity b) (rp b)); [reflexivity|contradiction].
Qed.

(** [write] and [writeSync] never pass an empty input; on one, with the
    buffer empty, the attempt would step the write cursor back by one. *)
Example writeBytes_empty_input :
  exists b',
    writeBytes [] (fresh 36) = Returns (-1, 0) b' /\ rp b' = 0 /\ wp b' = 35.
Proof.
  eexists. split; [vm_compute; reflexivity|].
  split; vm_compute; reflexivity.
Qed.

Lemma used_range (b : buffer) : stream_ok b -> 0 <= used b < capacity b.
Proof.
  intros (Hlen & Hcap & Hr & Hw). unfold used. apply Z.mod_pos_bound. lia.
Qed.

Lemma wp_from_used (b : buffer) :
  stream_ok b -> wp b = (rp b + used b) mod capacity b.
Proof.
  intros (Hlen & Hcap & Hr & Hw). unfold used.
  rewrite Zplus_mod_idemp_r. replace (rp b + (wp b - rp b)) with (wp b) by lia.
  rewrite Z.mod_small; lia.
Qed.

(** A copy attempt on a stream that is not full: the bytes taken are appended
    to the unread contents and nothing else changes. *)
Lemma writeBytes_appends (b : buffer) (bytes : list byte) :
  stream_ok b -> bytes <> [] -> (wp b + 1) mod capacity b <> rp b ->
  exists n b',
    writeBytes bytes b = Returns (n, rp b) b' /\
    1 <= n <= Zlength' bytes /\
    stream_ok b' /\ rp b' = rp b /\ state b' = state b /\
    length b' = length b /\
    used b' = used b + n /\
    contents b' = contents b ++ firstn (Z.to_nat n) bytes.
Proof.
  intros Hok Hne Hfull.
  destruct (writeBytes_spec b bytes Hok Hfull)
    as (n & b' & E & R & S & L & Hn & Hfit & Hw' & Hneq & D & Hrest).
  destruct (Hrest Hne) as (Hn1 & Hwp & Hu).
  pose proof (used_range b Hok) as Hub.
  pose proof (wp_from_used b Hok) as Hwu.
  destruct Hok as (Hlen & Hcap & Hr & Hw).
  assert (C: capacity b' = capacity b) by (rewrite !capacity_length; lia).
  assert (U: used b' = used b + n).
  { unfold used at 1. rewrite R, C, Hwp, Zminus_mod_idemp_l.
    replace (wp b + n - rp b) with (wp b - rp b + n) by lia.
    rewrite <- Zplus_mod_idemp_l. fold (used b). apply Z.mod_small; lia. }
  exists n, b'. repeat split; try lia; try assumption.
  unfold contents. rewrite U, D, R.
  assert (Hxs: Zlength' (firstn (Z.to_nat n) bytes) = n).
  { unfold Zlength' in *. rewrite length_firstn. lia. }
  set (xs := firstn (Z.to_nat n) bytes) in *.
  rewrite <- Hxs.
  apply ring_overlay; fold (data_length b); fold (capacity b);
    rewrite ?Hxs; try lia; assumption.
Qed.

(** A copy attempt out of a stream that is not empty: a prefix of the unread
    contents lands in the target and is dropped from the stream. *)
Lemma readBytes_takes (b : buffer) (target : list byte) (offset : Z) :
  stream_ok b -> rp b <> wp b -> 0 <= offset <= Zlength' target ->
  exists n b',
    readBytes target offset b =
      Returns (n, set_at target (Z.to_nat offset)
                    (firstn (Z.to_nat n) (contents b))) b' /\
    0 <= n <= used b /\ n <= Zlength' target - offset /\
    (offset < Zlength' target -> 1 <= n) /\
    stream_ok b' /\ wp b' = wp b /\ state b' = state b /\
    length b' = length b /\
    used b' = used b - n /\
    contents b' = skipn (Z.to_nat n) (contents b).
Proof.
  intros Hok Hne Hoff.
  pose proof (used_range b Hok) as Hub.
  destruct Hok as (Hlen & Hcap & Hr & Hw).
  unfold readBytes, bind, writePosition, readPosition, Atomics_load.
  change (Int32_get b 1) with (wp b). change (Int32_get b 0) with (rp b).
  change (data_length b) with (capacity b).
  set (c := capacity b) in *. set (r := rp b) in *. set (w := wp b) in *.
  set (contig := if r <? w then w - r else c - r).
  set (n := Z.min (Zlength' target - offset) contig).
  assert (Hu: used b = if w - r <? 0 then w - r + c else w - r)
    by (apply mod_back; lia).
  assert (Hcontig: 1 <= contig <= used b /\ r + contig <= c).
  { subst contig. rewrite Hu. split_ifs; lia. }
  assert (Hn: 0 <= n <= contig) by (subst n; lia).
  assert (Hcd: Zlength' (data b) = c) by reflexivity.
  rewrite subarray_range by lia.
  rewrite <- ring_contiguous by lia.
  rewrite <- (ring_firstn (data b) r (used b) n) by lia.
  change (ring (data b) r (used b)) with (contents b).
  set (xs := firstn (Z.to_nat n) (contents b)).
  assert (Hxs: Zlength' xs = n).
  { subst xs. unfold Zlength', contents. rewrite length_firstn, ring_length. lia. }
  unfold target_set. rewrite Hxs.
  destruct (Z.ltb_spec offset 0); [lia|].
  destruct (Z.gtb_spec (offset + n) (Zlength' target)); [lia|].
  cbv [orb].
  unfold set_readPosition, Atomics_store, notifyWriters, Atomics_notify, ret.
  rewrite rem_is_mod by lia.
  assert (Hrn: 0 <= (r + n) mod c < c) by (apply Z.mod_pos_bound; lia).
  destruct (stream_words_after_store b 0 ((r + n) mod c) ltac:(lia) ltac:(lia))
    as (R2 & W2 & S2 & D2 & C2 & L2).
  cbn [Nat.eqb] in R2, W2, S2.
  rewrite to_int32_small in R2 by lia.
  set (b' := Int32_set b 0 ((r + n) mod c)) in *.
  assert (U: used b' = used b - n).
  { unfold used at 1. rewrite R2, W2, C2. fold w c.
    rewrite Zminus_mod_idemp_r.
    replace (w - (r + n)) with (w - r - n) by lia.
    rewrite <- Zminus_mod_idemp_l. fold (used b). apply Z.mod_small; lia. }
  exists n, b'. repeat split; try lia; try assumption.
  unfold contents. rewrite U, D2, R2. apply ring_skip; rewrite ?Hcd; lia.
Qed.

(** ** Empty and full *)

Lemma capacity_min (b : buffer) : stream_ok b -> 36 <= capacity b.
Proof.
  intros (Hlen & _). rewrite capacity_length; lia.
Qed.

Lemma empty_iff (b : buffer) : stream_ok b -> (used b = 0 <-> rp b = wp b).
Proof.
  intros Hok. pose proof (capacity_min b Hok).
  destruct Hok as (Hlen & Hcap & Hr & Hw & Hs). unfold used.
  rewrite mod_back by lia. split_ifs; lia.
Qed.

Lemma full_iff (b : buffer) :
  stream_ok b -> ((wp b + 1) mod capacity b = rp b <-> used b = capacity b - 1).
Proof.
  intros Hok. pose proof (capacity_min b Hok).
  destruct Hok as (Hlen & Hcap & Hr & Hw & Hs). unfold used.
  rewrite (mod_back (capacity b) (wp b - rp b)) by lia.
  rewrite (mod_wrap (capacity b) (wp b + 1)) by lia.
  split_ifs; lia.
Qed.

(** ** The two realisations of the wait step agree *)

Lemma wait_variants (env : interference) (i : nat) (expected : Z) (b : buffer) :
  Atomics_waitAsync env i expected b = Atomics_wait env i expected b.
Proof. reflexivity. Qed.

Lemma write_loop_eq (env : interference) (fuel : nat) :
  forall source total b,
    write_loop env fuel source total b = writeSync_loop env fuel source total b.
Proof.
  induction fuel as [|fuel IH]; intros source total b; simpl.
  - reflexivity.
  - destruct (total <? Zlength' source); [|reflexivity].
    unfold bind.
    destruct (writeBytes _ b) as [[n crp] b1| |]; [|reflexivity|reflexivity].
    destruct (n >? 0); [apply IH|].
    rewrite wait_variants.
    destruct (Atomics_wait env 0 crp b1); [apply IH|reflexivity|reflexivity].
Qed.

Lemma read_wait_eq (env : interference) (fuel : nat) :
  forall b, read_wait env fuel b = readSync_wait env fuel b.
Proof.
  induction fuel as [|fuel IH]; intros b; simpl.
  - reflexivity.
  - unfold bind.
    destruct (readPosition b) as [r b1| |]; [|reflexivity|reflexivity].
    destruct (writePosition b1) as [w b2| |]; [|reflexivity|reflexivity].
    destruct (r =? w); [|reflexivity].
    destruct (closed b2) as [c b3| |]; [|reflexivity|reflexivity].
    destruct c; [reflexivity|].
    rewrite wait_variants.
    destruct (Atomics_wait env 1 w b3); [apply IH|reflexivity|reflexivity].
Qed.

Lemma read_loop_eq (env : interference) (fuel : nat) :
  forall target offset limit bytesRead b,
    read_loop env fuel target offset limit bytesRead b =
    readSync_loop env fuel target offset limit bytesRead b.
Proof.
  induction fuel as [|fuel IH]; intros target offset limit bytesRead b; simpl.
  - reflexivity.
  - destruct (bytesRead <? limit); [|reflexivity].
    unfold bind. rewrite read_wait_eq.
    destruct (readSync_wait env fuel b) as [stop b1| |];
      [|reflexivity|reflexivity].
    destruct stop; [reflexivity|].
    destruct (readBytes target (offset + bytesRead) b1) as [[n t'] b2| |];
      [apply IH|reflexivity|reflexivity].
Qed.

Lemma write_eq (env : interference) (fuel : nat) (source : list byte) (b : buffer) :
  write env fuel source b = writeSync env fuel source b.
Proof. apply write_loop_eq. Qed.

Lemma read_eq (env : interference) (fuel : nat) (target : list byte)
    (offset limit : Z) (b : buffer) :
  read env fuel target offset limit b = readSync env fuel target offset limit b.
Proof.
  unfold read, readSync, bind.
  destruct (endOfStream b) as [[|] b1| |];
    [reflexivity|apply read_loop_eq|reflexivity|reflexivity].
Qed.

(** ** Writing into free space *)

Ltac conjs := repeat match goal with |- _ /\ _ => split end.

Lemma writeSync_loop_fits (env : interference) (fuel : nat) :
  forall (source : list byte) (total : Z) (b : buffer),
    stream_ok b -> 0 <= total <= Zlength' source ->
    used b + (Zlength' source - total) <= capacity b - 1 ->
    Zlength' source - total <= Z.of_nat fuel ->
    exists b',
      writeSync_loop env fuel source total b = Returns (Zlength' source) b' /\
      stream_ok b' /\ rp b' = rp b /\ state b' = state b /\
      length b' = length b /\
      used b' = used b + (Zlength' source - total) /\
      contents b' = contents b ++ skipn (Z.to_nat total) source.
Proof.
  induction fuel as [|fuel IH]; intros source total b Hok Ht Hroom Hfuel.
  - assert (total = Zlength' source) by lia. subst total.
    simpl. rewrite Z.ltb_irrefl. exists b. unfold ret.
    unfold Zlength'. rewrite Nat2Z.id, skipn_all, app_nil_r.
    conjs; auto; lia.
  - simpl. destruct (Z.ltb_spec total (Zlength' source)) as [Hlt|Hge].
    + assert (Hbytes: subarray_from source total = skipn (Z.to_nat total) source)
        by (apply subarray_from_skipn; lia).
      assert (Hne: skipn (Z.to_nat total) source <> []).
      { intros E. apply skipn_all_iff in E. unfold Zlength' in *. lia. }
      assert (Hnf: (wp b + 1) mod capacity b <> rp b).
      { rewrite full_iff by assumption. lia. }
      unfold bind. rewrite Hbytes.
      destruct (writeBytes_appends b _ Hok Hne Hnf)
        as (n & b1 & E & Hn & Hok1 & R1 & S1 & L1 & U1 & C1).
      rewrite E.
      assert (Hlen: Zlength' (skipn (Z.to_nat total) source) = Zlength' source - total).
      { unfold Zlength' in *. rewrite length_skipn. lia. }
      destruct (Z.gtb_spec n 0); [|lia].
      assert (Cap: capacity b1 = capacity b).
      { destruct Hok, Hok1. rewrite !capacity_length; lia. }
      destruct (IH source (total + n) b1 Hok1) as (b' & E' & Hok' & R' & S' & L' & U' & C');
        try lia.
      exists b'. rewrite E'. conjs; try congruence; try lia.
      rewrite C', C1, <- app_assoc. f_equal.
      replace (Z.to_nat (total + n)) with (Z.to_nat n + Z.to_nat total)%nat by lia.
      rewrite <- skipn_skipn. apply firstn_skipn.
    + assert (total = Zlength' source) by lia. subst total.
      exists b. unfold ret.
      unfold Zlength'. rewrite Nat2Z.id, skipn_all, app_nil_r.
      conjs; auto; lia.
Qed.

(** ** Reading *)

Lemma set_at_app {A} (t : list A) : forall o xs ys,
  set_at (set_at t o xs) (o + length xs) ys = set_at t o (xs ++ ys).
Proof.
  induction t as [|h t IH]; intros o xs ys; [reflexivity|].
  destruct o as [|o].
  - destruct xs as [|x xs]; [reflexivity|].
    simpl. f_equal. apply (IH 0%nat).
  - simpl. f_equal. apply IH.
Qed.

Lemma firstn_plus {A} (a c : nat) : forall l : list A,
  firstn (a + c) l = firstn a l ++ firstn c (skipn a l).
Proof.
  induction a as [|a IH]; intros l; [reflexivity|].
  destruct l as [|x l]; simpl.
  - now rewrite firstn_nil.
  - f_equal. apply IH.
Qed.

Lemma slice_of_overlay {A} (t : list A) : forall o xs,
  (o + length xs <= length t)%nat ->
  firstn (length xs) (skipn o (set_at t o xs)) = xs.
Proof.
  induction t as [|h t IH]; intros o xs H.
  - destruct xs; [destruct o; reflexivity|simpl in H; lia].
  - destruct o as [|o].
    + destruct xs as [|x xs]; [reflexivity|].
      simpl. f_equal. apply (IH 0%nat). simpl in *. lia.
    + simpl. apply IH. simpl in H. lia.
Qed.

Lemma contents_length (b : buffer) :
  stream_ok b -> Zlength' (contents b) = used b.
Proof.
  intros Hok. pose proof (used_range b Hok).
  unfold Zlength', contents. rewrite ring_length. lia.
Qed.

(** Latching end-of-stream touches the state word only. *)
Lemma latch_effect (b : buffer) :
  stream_ok b ->
  let b' := Int32_set b 2 (Z.lor (state b) 2) in
  stream_ok b' /\ rp b' = rp b /\ wp b' = wp b /\
  state b' = Z.lor (state b) 2 /\ 2 <= state b' <= 3 /\
  length b' = length b /\ used b' = used b /\ contents b' = contents b.
Proof.
  intros Hok b'. pose proof Hok as (Hlen & Hcap & Hr & Hw & Hs).
  destruct (stream_words_after_store b 2 (Z.lor (state b) 2) ltac:(lia) ltac:(lia))
    as (R & W & S & D & C & L).
  cbn [Nat.eqb] in R, W, S. fold b' in R, W, S, D, C, L.
  assert (Hlor: 2 <= Z.lor (state b) 2 <= 3).
  { assert (Hcases: state b = 0 \/ state b = 1 \/ state b = 2 \/ state b = 3) by lia.
    destruct Hcases as [-> |[-> |[-> | ->]]]; simpl; lia. }
  rewrite to_int32_small in S by lia.
  unfold stream_ok, used, contents, used. rewrite R, W, S, D, C, L.
  conjs; auto; lia.
Qed.

Lemma readPosition_run (b : buffer) : readPosition b = Returns (rp b) b.
Proof. reflexivity. Qed.

Lemma writePosition_run (b : buffer) : writePosition b = Returns (wp b) b.
Proof. reflexivity. Qed.

Lemma closed_run (b : buffer) : closed b = Returns (negb (state b =? 0)) b.
Proof. reflexivity. Qed.

Lemma endOfStream_run (b : buffer) : endOfStream b = Returns (state b >? 1) b.
Proof. reflexivity. Qed.

Lemma setEndOfStream_run (b : buffer) :
  setEndOfStream b = Returns (state b) (Int32_set b 2 (Z.lor (state b) 2)).
Proof. reflexivity. Qed.

Ltac run_wait_head :=
  unfold bind; rewrite readPosition_run, writePosition_run;
  try rewrite closed_run; try rewrite setEndOfStream_run.

(** The inner loop when nothing has to be awaited. *)
Lemma readSync_wait_ready (env : interference) (fuel : nat) (b : buffer) :
  rp b <> wp b -> readSync_wait env fuel b = Returns false b.
Proof.
  intros H.
  destruct fuel; cbn [readSync_wait]; run_wait_head;
    destruct (Z.eqb_spec (rp b) (wp b)); try contradiction; reflexivity.
Qed.

Lemma readSync_wait_closed (env : interference) (fuel : nat) (b : buffer) :
  rp b = wp b -> state b <> 0 ->
  readSync_wait env fuel b = Returns true (Int32_set b 2 (Z.lor (state b) 2)).
Proof.
  intros H Hs.
  destruct fuel; cbn [readSync_wait]; run_wait_head;
    destruct (Z.eqb_spec (rp b) (wp b)); try contradiction;
    rewrite closed_run;
    destruct (Z.eqb_spec (state b) 0); try contradiction; reflexivity.
Qed.

(** On an idle open stream an empty buffer is awaited for ever. *)
Lemma readSync_wait_starves (fuel : nat) (b : buffer) :
  rp b = wp b -> state b = 0 -> readSync_wait idle fuel b = Unfinished.
Proof.
  intros H Hs.
  induction fuel as [|fuel IH]; cbn [readSync_wait]; run_wait_head;
    destruct (Z.eqb_spec (rp b) (wp b)); try contradiction;
    rewrite closed_run;
    destruct (Z.eqb_spec (state b) 0); try contradiction; cbn [negb];
    [reflexivity|].
  unfold Atomics_wait, idle. destruct (Int32_get b 1 =? wp b); apply IH.
Qed.

(** Whatever an idle-channel read loop returns, it has moved a prefix of the
    unread contents into the target, in order. *)
Lemma readSync_loop_sound (fuel : nat) :
  forall target offset limit bytesRead b n t' b',
    stream_ok b -> 0 <= offset -> 0 <= bytesRead ->
    offset + bytesRead <= Zlength' target ->
    readSync_loop idle fuel target offset limit bytesRead b = Returns (n, t') b' ->
    exists k,
      n = bytesRead + k /\ 0 <= k <= used b /\ offset + n <= Zlength' target /\
      t' = set_at target (Z.to_nat (offset + bytesRead))
             (firstn (Z.to_nat k) (contents b)) /\
      stream_ok b' /\ contents b' = skipn (Z.to_nat k) (contents b) /\
      used b' = used b - k /\ wp b' = wp b /\ length b' = length b /\
      (state b' = state b \/
       (state b <> 0 /\ used b' = 0 /\ state b' = Z.lor (state b) 2)).
Proof.
  assert (Stop: forall target offset bytesRead b,
    stream_ok b -> offset + bytesRead <= Zlength' target ->
    exists k,
      bytesRead = bytesRead + k /\ 0 <= k <= used b /\
      offset + bytesRead <= Zlength' target /\
      target = set_at target (Z.to_nat (offset + bytesRead))
             (firstn (Z.to_nat k) (contents b)) /\
      stream_ok b /\ contents b = skipn (Z.to_nat k) (contents b) /\
      used b = used b - k /\ wp b = wp b /\ length b = length b /\
      (state b = state b \/
       (state b <> 0 /\ used b = 0 /\ state b = Z.lor (state b) 2))).
  { intros target offset bytesRead b Hok Hfit.
    pose proof (used_range b Hok). exists 0. simpl. rewrite set_at_nil.
    conjs; auto; lia. }
  induction fuel as [|fuel IH];
    intros target offset limit bytesRead b n t' b' Hok Hoff Hbr Hfit E;
    cbn [readSync_loop] in E;
    destruct (Z.ltb_spec bytesRead limit) as [Hlt|Hge];
    try discriminate;
    try (unfold ret in E; injection E as <- <- <-; now apply Stop).
  unfold bind in E.
  destruct (Z.eq_dec (rp b) (wp b)) as [Hemp|Hdata].
  - destruct (Z.eq_dec (state b) 0) as [Hopen|Hclosed].
    + rewrite readSync_wait_starves in E by assumption. discriminate.
    + rewrite readSync_wait_closed in E by assumption.
      unfold ret in E. injection E as <- <- <-.
      destruct (latch_effect b Hok) as (Hok' & R & W & S & _ & L & U & C).
      pose proof (proj2 (empty_iff b Hok) Hemp) as Hu0.
      exists 0. simpl firstn. rewrite set_at_nil, C, U, W, L, S.
      conjs; auto; lia.
  - rewrite readSync_wait_ready in E by assumption.
    destruct (readBytes_takes b target (offset + bytesRead) Hok Hdata ltac:(lia))
      as (n1 & b1 & E1 & Hn1 & Hroom & _ & Hok1 & W1 & S1 & L1 & U1 & C1).
    rewrite E1 in E.
    pose proof (contents_length b Hok) as HCl.
    set (t1 := set_at target (Z.to_nat (offset + bytesRead))
                 (firstn (Z.to_nat n1) (contents b))) in *.
    assert (Ht1: Zlength' t1 = Zlength' target).
    { subst t1. unfold Zlength'. now rewrite set_at_length. }
    destruct (IH t1 offset limit (bytesRead + n1) b1 n t' b' Hok1)
      as (k & -> & Hk & Hfit' & Ht' & Hok' & C' & U' & W' & L' & S'); try lia;
      try assumption.
    exists (n1 + k). conjs; try lia; try assumption; try congruence.
    + rewrite Ht'. subst t1.
      assert (Hl: length (firstn (Z.to_nat n1) (contents b)) = Z.to_nat n1).
      { unfold Zlength' in *. rewrite length_firstn. lia. }
      replace (Z.to_nat (offset + (bytesRead + n1)))
        with (Z.to_nat (offset + bytesRead)
              + length (firstn (Z.to_nat n1) (contents b)))%nat by lia.
      rewrite set_at_app, C1.
      replace (Z.to_nat (n1 + k)) with (Z.to_nat n1 + Z.to_nat k)%nat by lia.
      now rewrite firstn_plus.
    + rewrite C', C1, skipn_skipn. f_equal. lia.
Qed.

(** A read loop that returns on an idle channel never parked, so it returns
    the same under any interference. *)
Lemma readSync_loop_never_parked (env : interference) (fuel : nat) :
  forall target offset limit bytesRead b r b',
    readSync_loop idle fuel target offset limit bytesRead b = Returns r b' ->
    readSync_loop env fuel target offset limit bytesRead b = Returns r b'.
Proof.
  induction fuel as [|fuel IH]; intros target offset limit bytesRead b r b' E;
    cbn [readSync_loop] in *;
    destruct (bytesRead <? limit); try discriminate; try assumption.
  unfold bind in *.
  destruct (Z.eq_dec (rp b) (wp b)) as [Hemp|Hdata].
  - destruct (Z.eq_dec (state b) 0) as [Hopen|Hclosed].
    + rewrite readSync_wait_starves in E by assumption. discriminate.
    + rewrite readSync_wait_closed in * by assumption. assumption.
  - rewrite readSync_wait_ready in * by assumption.
    destruct (readBytes target (offset + bytesRead) b) as [[n t1] b1| |];
      try discriminate.
    now apply IH.
Qed.

(** With a target that has room for exactly [limit] more bytes and at least
    that many unread, the loop returns [limit]. *)
Lemma readSync_loop_fills (fuel : nat) :
  forall target offset limit bytesRead b,
    stream_ok b -> 0 <= offset -> 0 <= bytesRead <= limit ->
    offset + limit = Zlength' target ->
    limit - bytesRead <= used b ->
    limit - bytesRead <= Z.of_nat fuel ->
    exists t' b',
      readSync_loop idle fuel target offset limit bytesRead b =
        Returns (limit, t') b'.
Proof.
  induction fuel as [|fuel IH];
    intros target offset limit bytesRead b Hok Hoff Hbr Hfit Hav Hfuel;
    cbn [readSync_loop];
    destruct (Z.ltb_spec bytesRead limit) as [Hlt|Hge];
    try lia;
    try (assert (bytesRead = limit) by lia; subst; unfold ret; eauto).
  assert (Hdata: rp b <> wp b).
  { rewrite <- empty_iff by assumption. lia. }
  unfold bind. rewrite readSync_wait_ready by assumption.
  destruct (readBytes_takes b target (offset + bytesRead) Hok Hdata ltac:(lia))
    as (n1 & b1 & E1 & Hn1 & Hroom & Hpos & Hok1 & W1 & S1 & L1 & U1 & C1).
  rewrite E1.
  apply IH; try assumption; try lia.
  unfold Zlength' in *. rewrite set_at_length. lia.
Qed.

(** On a closed stream a read with room for all unread bytes and a limit
    beyond them takes them all and latches end-of-stream. *)
Lemma readSync_loop_drains (fuel : nat) :
  forall target offset limit bytesRead b,
    stream_ok b -> state b <> 0 -> 0 <= offset -> 0 <= bytesRead ->
    offset + bytesRead + used b <= Zlength' target ->
    bytesRead + used b < limit ->
    used b < Z.of_nat fuel ->
    exists t' b',
      readSync_loop idle fuel target offset limit bytesRead b =
        Returns (bytesRead + used b, t') b' /\
      state b' = Z.lor (state b) 2.
Proof.
  induction fuel as [|fuel IH];
    intros target offset limit bytesRead b Hok Hcl Hoff Hbr Hfit Hlim Hfuel;
    pose proof (used_range b Hok) as Hu; [lia|].
  cbn [readSync_loop].
  destruct (Z.ltb_spec bytesRead limit) as [Hlt|Hge]; [|lia].
  unfold bind.
  destruct (Z.eq_dec (rp b) (wp b)) as [Hemp|Hdata].
  - rewrite readSync_wait_closed by assumption.
    destruct (latch_effect b Hok) as (Hok' & R & W & S & _ & L & U & C).
    apply empty_iff in Hemp; [|assumption].
    rewrite Hemp, Z.add_0_r. unfold ret. eauto.
  - rewrite readSync_wait_ready by assumption.
    assert (Hu1: used b <> 0) by (rewrite empty_iff; assumption).
    destruct (readBytes_takes b target (offset + bytesRead) Hok Hdata ltac:(lia))
      as (n1 & b1 & E1 & Hn1 & Hroom & Hpos & Hok1 & W1 & S1 & L1 & U1 & C1).
    rewrite E1.
    destruct (IH (set_at target (Z.to_nat (offset + bytesRead))
                    (firstn (Z.to_nat n1) (contents b)))
                 offset limit (bytesRead + n1) b1)
      as (t' & b' & E' & S'); try assumption; try lia.
    + unfold Zlength' in *. rewrite set_at_length. lia.
    + exists t', b'. rewrite E', U1, S', S1. split; [f_equal; f_equal; lia|reflexivity].
Qed.

(** ** Counts returned by the write loop *)

Lemma writeBytes_count_le (bytes : list byte) (b : buffer) (n crp : Z) (b' : buffer) :
  writeBytes bytes b = Returns (n, crp) b' -> n <= Zlength' bytes.
Proof.
  unfold writeBytes, bind, writePosition, readPosition, Atomics_load.
  intros E.
  assert (0 <= Zlength' bytes) by (unfold Zlength'; lia).
  destruct (Z.rem (Int32_get b 1 + 1) (data_length b) =? Int32_get b 0).
  - injection E as <- _ _. assumption.
  - match type of E with
    | context [Z.min ?a ?s] => pose proof (Z.le_min_l a s); set (n0 := Z.min a s) in *
    end.
    destruct (Z.rem (Int32_get b 1 + n0) (data_length b) =? Int32_get b 0);
      match type of E with
      | context [data_set ?x ?y b] => destruct (data_set x y b); try discriminate
      end;
      unfold set_writePosition, Atomics_store, notifyReaders, Atomics_notify, ret in E;
      injection E as <- _ _; lia.
Qed.

Lemma writeSync_loop_returns (env : interference) (fuel : nat) :
  forall source total b n b',
    0 <= total <= Zlength' source ->
    writeSync_loop env fuel source total b = Returns n b' ->
    n = Zlength' source.
Proof.
  induction fuel as [|fuel IH]; intros source total b n b' Ht E;
    cbn [writeSync_loop] in E;
    destruct (Z.ltb_spec total (Zlength' source)) as [Hlt|Hge];
    try discriminate;
    try (unfold ret in E; injection E as <- _; lia).
  unfold bind in E.
  destruct (writeBytes (subarray_from source total) b) as [[n1 crp] b1| |] eqn:E1;
    try discriminate.
  apply writeBytes_count_le in E1.
  rewrite subarray_from_skipn in E1 by lia.
  unfold Zlength' in E1. rewrite length_skipn in E1.
  destruct (Z.gtb_spec n1 0).
  - apply IH in E; [assumption|]. unfold Zlength' in *. lia.
  - destruct (Atomics_wait env 0 crp b1) as [[] b2| |]; try discriminate.
    now apply IH in E.
Qed.

(** * The claims *)

Ltac by_evaluation :=
  vm_compute;
  repeat match goal with |- _ /\ _ => split end;
  first [ reflexivity | (let H := fresh in intro H; discriminate H) | lia ].

Ltac each_element :=
  repeat first [ apply Forall_nil | apply Forall_cons ].

Ltac concrete_stream_ok :=
  unfold stream_ok; repeat split; by_evaluation.

(** C8. [reset()] zeroes the three control words and nothing else: afterwards
    readPosition = writePosition = state = 0, and the data region, the size of
    the shared region and the capacity are what they were. *)
Theorem reset_restores_control_words (b : buffer) :
  (48 <= length b)%nat ->
  exists b',
    reset b = Returns tt b' /\
    rp b' = 0 /\ wp b' = 0 /\ state b' = 0 /\
    data b' = data b /\ length b' = length b /\ capacity b' = capacity b.
Proof.
  intros Hlen.
  unfold reset, reset_from, bind, Atomics_store, ret.
  set (b1 := Int32_set b 0 0).
  set (b2 := Int32_set b1 1 0).
  set (b3 := Int32_set b2 2 0).
  destruct (stream_words_after_store b 0 0 ltac:(lia) ltac:(lia))
    as (R1 & W1 & S1 & D1 & C1 & L1). fold b1 in R1, W1, S1, D1, C1, L1.
  destruct (stream_words_after_store b1 1 0 ltac:(lia) ltac:(lia))
    as (R2 & W2 & S2 & D2 & C2 & L2). fold b2 in R2, W2, S2, D2, C2, L2.
  destruct (stream_words_after_store b2 2 0 ltac:(lia) ltac:(lia))
    as (R3 & W3 & S3 & D3 & C3 & L3). fold b3 in R3, W3, S3, D3, C3, L3.
  cbn [Nat.eqb] in *. change (to_int32 0) with 0 in *.
  exists b3. conjs; congruence.
Qed.

Lemma reset_restores_control_words_witness :
  (48 <= length (stream_with [1; 2; 3]%Z))%nat /\
  exists b',
    reset (stream_with [1; 2; 3]) = Returns tt b' /\
    rp b' = 0 /\ wp b' = 0 /\ state b' = 0 /\
    data b' = data (stream_with [1; 2; 3]) /\
    length b' = length (stream_with [1; 2; 3]) /\
    capacity b' = capacity (stream_with [1; 2; 3]).
Proof.
  split.
  - by_evaluation.
  - apply reset_restores_control_words. by_evaluation.
Defined.

Lemma read_call_at_end_of_stream (v : variant) (env : interference) (fuel : nat)
    (target : list byte) (offset limit : Z) (b : buffer) :
  state b > 1 ->
  read_call v env fuel target offset limit b = Returns (-1, target) b.
Proof.
  intros H.
  destruct v; unfold read_call, read, readSync, bind;
    rewrite endOfStream_run;
    destruct (Z.gtb_spec (state b) 1); try lia; reflexivity.
Qed.

(** C4. Once the end-of-stream bit is latched (state > 1), [read] and
    [readSync] return -1 at once: no wait is entered whatever the counterpart
    would do, and the region (both cursors, the state word, the data) and the
    target are left exactly as they were. *)
Theorem end_of_stream_is_terminal (v : variant) (env : interference) (fuel : nat)
    (target : list byte) (offset limit : Z) (b : buffer) :
  state b > 1 ->
  read_call v env fuel target offset limit b = Returns (-1, target) b.
Proof.
  intros Hlatched.
  destruct v; cbn [read_call]; [|rewrite read_eq];
    unfold readSync, bind; rewrite endOfStream_run;
    destruct (Z.gtb_spec (state b) 1) as [_|Hopen];
    [reflexivity|lia|reflexivity|lia].
Qed.

Lemma end_of_stream_is_terminal_witness :
  state (after (readSync idle 4 (bytes_of [0; 0; 0; 0]) 0 4)
           (closed_stream_with [7; 8])) > 1 /\
  read_call Blocking idle 0 (bytes_of [0; 0]) 0 2
    (after (readSync idle 4 (bytes_of [0; 0; 0; 0]) 0 4)
       (closed_stream_with [7; 8])) =
  Returns (-1, bytes_of [0; 0])
    (after (readSync idle 4 (bytes_of [0; 0; 0; 0]) 0 4)
       (closed_stream_with [7; 8])).
Proof.
  split.
  - by_evaluation.
  - apply end_of_stream_is_terminal. by_evaluation.
Defined.

(** C9. [write] and [writeSync], and [read] and [readSync], are the same
    state machine: for every region, every input, every behaviour of the
    counterpart during waits and every bound on the number of iterations they
    end in the same outcome (same returned value, same final region, same
    final target); only the wait primitive differs. *)
Theorem sync_async_agree (env : interference) (fuel : nat) (b : buffer)
    (source target : list byte) (offset limit : Z) :
  write env fuel source b = writeSync env fuel source b /\
  read env fuel target offset limit b = readSync env fuel target offset limit b.
Proof.
  split; [apply write_eq|apply read_eq].
Qed.

(** C7. A [write] or [writeSync] call that returns normally returns
    [source.length]; a short count is never returned, whatever the counterpart
    did while the call was waiting. *)
Theorem write_returns_requested_length (v : variant) (env : interference)
    (fuel : nat) (source : list byte) (b : buffer) (n : Z) (b' : buffer) :
  write_call v env fuel source b = Returns n b' ->
  n = Zlength' source.
Proof.
  intros E. destruct v; unfold write_call in E.
  - apply (writeSync_loop_returns env fuel source 0 b n b'); [|exact E].
    unfold Zlength'. lia.
  - rewrite write_eq in E.
    apply (writeSync_loop_returns env fuel source 0 b n b'); [|exact E].
    unfold Zlength'. lia.
Qed.

Lemma write_returns_requested_length_witness :
  write_call Suspending idle 4 (bytes_of [1; 2; 3]) (stream_with [9]) =
    Returns 3 (stream_with [9; 1; 2; 3]) /\
  3 = Zlength' (bytes_of [1; 2; 3]).
Proof.
  assert (E: write_call Suspending idle 4 (bytes_of [1; 2; 3]) (stream_with [9]) =
             Returns 3 (stream_with [9; 1; 2; 3])) by (vm_compute; reflexivity).
  split.
  - exact E.
  - exact (write_returns_requested_length _ _ _ _ _ _ _ E).
Defined.

(** ** Construction *)

Lemma constructor_rejects (n : Z) : n < 36 -> constructor n = None.
Proof.
  intros Hn. unfold constructor, new_SharedArrayBuffer.
  change indexBytes with 12.
  destruct (Z.ltb_spec (n + 12) 0); [reflexivity|].
  unfold attach, new_Int32Array. change indexBytes with 12.
  change (negb (0 mod 4 =? 0)) with false. cbv iota.
  unfold Zlength'. rewrite repeat_length.
  destruct (Z.gtb_spec (0 + 12 * 4) (Z.of_nat (Z.to_nat (n + 12))));
    [reflexivity|lia].
Qed.

Lemma constructor_succeeds (n : Z) :
  36 <= n ->
  constructor n =
  Some {| s_buffer := repeat Byte.x00 (12 + Z.to_nat n);
          s_index := {| byteOffset := 0; viewLength := 12; bytesPerElement := 4 |};
          s_data := {| byteOffset := 12; viewLength := n; bytesPerElement := 1 |} |}.
Proof.
  intros Hn. unfold constructor, new_SharedArrayBuffer.
  change indexBytes with 12.
  destruct (Z.ltb_spec (n + 12) 0); [lia|].
  unfold attach, new_Int32Array, new_Uint8Array. change indexBytes with 12.
  change (negb (0 mod 4 =? 0)) with false. cbv iota.
  unfold Zlength'. rewrite repeat_length.
  destruct (Z.gtb_spec (0 + 12 * 4) (Z.of_nat (Z.to_nat (n + 12)))); [lia|].
  destruct (Z.gtb_spec 12 (Z.of_nat (Z.to_nat (n + 12)))); [lia|].
  replace (Z.to_nat (n + 12)) with (12 + Z.to_nat n)%nat by lia.
  do 3 f_equal. lia.
Qed.

(** A stream built by the constructor starts well-formed, empty and open. *)
Lemma fresh_stream_ok (n : Z) :
  36 <= n <= 2 ^ 31 ->
  stream_ok (fresh n) /\ capacity (fresh n) = n /\
  rp (fresh n) = 0 /\ wp (fresh n) = 0 /\ state (fresh n) = 0 /\
  contents (fresh n) = [].
Proof.
  intros Hn. unfold fresh. rewrite constructor_succeeds by lia.
  cbn [s_buffer].
  assert (Hc: capacity (repeat Byte.x00 (12 + Z.to_nat n)) = n).
  { rewrite capacity_length; rewrite repeat_length; lia. }
  assert (R: rp (repeat Byte.x00 (12 + Z.to_nat n)) = 0) by reflexivity.
  assert (W: wp (repeat Byte.x00 (12 + Z.to_nat n)) = 0) by reflexivity.
  assert (S: state (repeat Byte.x00 (12 + Z.to_nat n)) = 0) by reflexivity.
  unfold stream_ok, contents, used. rewrite Hc, R, W, S, repeat_length.
  rewrite Z.sub_diag, Z.mod_0_l by lia.
  conjs; try reflexivity; lia.
Qed.

(** C10. [new SyncAsyncStream(n)] throws for every [n < 36] and succeeds for
    every [n >= 36]: the index view is created with 12 elements (48 bytes) over
    a region of [n + 12] bytes.  When it succeeds the data view starts at byte
    12 and has [n] bytes, the three control words are read from the first 12
    bytes only, and the stream starts empty and open. *)
Theorem constructor_requires_36_bytes (n : Z) :
  (n < 36 -> constructor n = None) /\
  (36 <= n ->
   exists s,
     constructor n = Some s /\
     Zlength' (s_buffer s) = n + 12 /\
     s_index s = {| byteOffset := 0; viewLength := 12; bytesPerElement := 4 |} /\
     s_data s = {| byteOffset := 12; viewLength := n; bytesPerElement := 1 |} /\
     data (s_buffer s) = repeat Byte.x00 (Z.to_nat n) /\
     rp (s_buffer s) = 0 /\ wp (s_buffer s) = 0 /\ state (s_buffer s) = 0) /\
  (forall hdr d d' : list byte,
     length hdr = 12%nat ->
     rp (hdr ++ d) = rp (hdr ++ d') /\ wp (hdr ++ d) = wp (hdr ++ d') /\
     state (hdr ++ d) = state (hdr ++ d') /\ data (hdr ++ d) = d).
Proof.
  split; [|split].
  - apply constructor_rejects.
  - intros Hn. eexists. split; [apply constructor_succeeds; assumption|].
    cbn [s_buffer s_index s_data]. unfold Zlength'. rewrite repeat_length.
    conjs; try reflexivity; lia.
  - intros hdr d d' H.
    do 12 (destruct hdr as [|? hdr]; [discriminate|]).
    destruct hdr; [|discriminate].
    conjs; reflexivity.
Qed.

Lemma constructor_requires_36_bytes_witness :
  constructor 35 = None /\
  (exists s, constructor 36 = Some s /\ Zlength' (s_buffer s) = 48) /\
  data (bytes_of [0; 0; 0; 0; 5; 0; 0; 0; 1; 0; 0; 0] ++ bytes_of [7; 7]) =
    bytes_of [7; 7].
Proof.
  split; [|split].
  - apply (proj1 (constructor_requires_36_bytes 35)). lia.
  - destruct (proj1 (proj2 (constructor_requires_36_bytes 36)) ltac:(lia))
      as (s & E & L & _).
    exists s. split; [exact E|exact L].
  - apply (proj2 (proj2 (constructor_requires_36_bytes 0))
             (bytes_of [0; 0; 0; 0; 5; 0; 0; 0; 1; 0; 0; 0]) (bytes_of [7; 7]) []).
    reflexivity.
Defined.

(** C6. On a well-formed stream and a nonempty input, [#writeBytes] reports
    zero bytes written exactly when the buffer is full at its snapshot,
    [(writePosition + 1) mod capacity = readPosition]; otherwise it copies at
    least one byte, also after the shrink by one. *)
Theorem writeBytes_zero_iff_full (b : buffer) (bytes : list byte) :
  stream_ok b -> bytes <> [] ->
  exists n b',
    writeBytes bytes b = Returns (n, rp b) b' /\
    0 <= n <= Zlength' bytes /\
    (n = 0 <-> (wp b + 1) mod capacity b = rp b) /\
    ((wp b + 1) mod capacity b <> rp b ->
     1 <= n /\
     data b' = set_at (data b) (Z.to_nat (wp b)) (firstn (Z.to_nat n) bytes)).
Proof.
  intros Hok Hne.
  destruct (Z.eq_dec ((wp b + 1) mod capacity b) (rp b)) as [Hfull|Hfree].
  - exists 0, b. rewrite writeBytes_full by assumption.
    unfold Zlength'. conjs; try reflexivity; try lia; try tauto.
  - destruct (writeBytes_spec b bytes Hok Hfree)
      as (n & b' & E & R & S & L & Hn & Hfit & Hw' & Hneq & D & Hrest).
    destruct (Hrest Hne) as (Hn1 & Hwp & Hu).
    exists n, b'. conjs; try assumption; try lia.
    intros _. split; assumption.
Qed.

Lemma writeBytes_zero_iff_full_witness :
  stream_ok (stream_with [1; 2; 3]) /\ bytes_of [4; 5] <> [] /\
  exists n b',
    writeBytes (bytes_of [4; 5]) (stream_with [1; 2; 3]) =
      Returns (n, rp (stream_with [1; 2; 3])) b' /\
    0 <= n <= Zlength' (bytes_of [4; 5]) /\
    (n = 0 <->
     (wp (stream_with [1; 2; 3]) + 1) mod capacity (stream_with [1; 2; 3]) =
     rp (stream_with [1; 2; 3])) /\
    ((wp (stream_with [1; 2; 3]) + 1) mod capacity (stream_with [1; 2; 3]) <>
     rp (stream_with [1; 2; 3]) ->
     1 <= n /\
     data b' = set_at (data (stream_with [1; 2; 3]))
                 (Z.to_nat (wp (stream_with [1; 2; 3])))
                 (firstn (Z.to_nat n) (bytes_of [4; 5]))).
Proof.
  assert (Hok: stream_ok (stream_with [1; 2; 3])) by concrete_stream_ok.
  assert (Hne: bytes_of [4; 5] <> []) by discriminate.
  split; [exact Hok|]. split; [exact Hne|].
  exact (writeBytes_zero_iff_full _ _ Hok Hne).
Defined.

(** C2. A copy attempt never moves the write cursor onto the read cursor: on
    a well-formed stream, after [#writeBytes] (whatever the input) the write
    position is in range and differs from the read position snapshotted by
    the call, so at most [capacity - 1] bytes are buffered; for a nonempty
    input the unread bytes are kept and the copied ones appended. *)
Theorem writeBytes_never_reaches_reader (b : buffer) (bytes : list byte) :
  stream_ok b ->
  exists n b',
    writeBytes bytes b = Returns (n, rp b) b' /\
    rp b' = rp b /\ capacity b' = capacity b /\
    0 <= wp b' < capacity b /\ wp b' <> rp b /\
    used b' <= capacity b - 1 /\
    (bytes <> [] ->
     used b' = used b + n /\
     contents b' = contents b ++ firstn (Z.to_nat n) bytes).
Proof.
  intros Hok.
  pose proof (capacity_min b Hok) as Hc.
  pose proof (used_range b Hok) as Hu.
  destruct (Z.eq_dec ((wp b + 1) mod capacity b) (rp b)) as [Hfull|Hfree].
  - exists 0, b. rewrite writeBytes_full by assumption.
    pose proof Hok as (Hlen & Hcap & Hr & Hw & Hs).
    assert (wp b <> rp b).
    { intros E. rewrite mod_wrap in Hfull by lia. revert Hfull. split_ifs; lia. }
    conjs; try reflexivity; try lia; try assumption.
    intros _. simpl firstn. rewrite app_nil_r. split; [lia|reflexivity].
  - destruct (writeBytes_spec b bytes Hok Hfree)
      as (n & b' & E & R & S & L & Hn & Hfit & Hw' & Hneq & D & Hrest).
    assert (C: capacity b' = capacity b).
    { destruct Hok as (Hlen & _). rewrite !capacity_length; lia. }
    exists n, b'. conjs; try assumption; try lia.
    + unfold used. rewrite C.
      pose proof (Z.mod_pos_bound (wp b' - rp b') (capacity b)). lia.
    + intros Hne.
      destruct (writeBytes_appends b bytes Hok Hne Hfree)
        as (n2 & b2 & E2 & _ & _ & _ & _ & _ & U2 & C2).
      rewrite E in E2. injection E2 as <- <-. split; assumption.
Qed.

Lemma writeBytes_never_reaches_reader_witness :
  stream_ok (stream_with [1; 2; 3]) /\
  exists n b',
    writeBytes (bytes_of [4; 5]) (stream_with [1; 2; 3]) =
      Returns (n, rp (stream_with [1; 2; 3])) b' /\
    rp b' = rp (stream_with [1; 2; 3]) /\
    capacity b' = capacity (stream_with [1; 2; 3]) /\
    0 <= wp b' < capacity (stream_with [1; 2; 3]) /\
    wp b' <> rp (stream_with [1; 2; 3]) /\
    used b' <= capacity (stream_with [1; 2; 3]) - 1 /\
    (bytes_of [4; 5] <> [] ->
     used b' = used (stream_with [1; 2; 3]) + n /\
     contents b' =
       contents (stream_with [1; 2; 3]) ++ firstn (Z.to_nat n) (bytes_of [4; 5])).
Proof.
  assert (Hok: stream_ok (stream_with [1; 2; 3])) by concrete_stream_ok.
  split; [exact Hok|].
  exact (writeBytes_never_reaches_reader _ (bytes_of [4; 5]) Hok).
Defined.

(** ** Whole read calls on an idle channel *)

Lemma read_call_blocking (v : variant) (env : interference) (fuel : nat)
    (target : list byte) (offset limit : Z) (b : buffer) :
  read_call v env fuel target offset limit b =
  readSync env fuel target offset limit b.
Proof. destruct v; [reflexivity|apply read_eq]. Qed.

Lemma write_call_blocking (v : variant) (env : interference) (fuel : nat)
    (source : list byte) (b : buffer) :
  write_call v env fuel source b = writeSync env fuel source b.
Proof. destruct v; [reflexivity|apply write_eq]. Qed.

Lemma readSync_open (env : interference) (fuel : nat) (target : list byte)
    (offset limit : Z) (b : buffer) :
  state b <= 1 ->
  readSync env fuel target offset limit b =
  readSync_loop env fuel target offset limit 0 b.
Proof.
  intros H. unfold readSync, bind. rewrite endOfStream_run.
  destruct (Z.gtb_spec (state b) 1); [lia|reflexivity].
Qed.

Lemma read_call_sound (v : variant) (fuel : nat) (target : list byte)
    (offset limit : Z) (b : buffer) (n : Z) (t' : list byte) (b' : buffer) :
  stream_ok b -> state b <= 1 -> 0 <= offset <= Zlength' target ->
  read_call v idle fuel target offset limit b = Returns (n, t') b' ->
  0 <= n <= used b /\ offset + n <= Zlength' target /\
  t' = set_at target (Z.to_nat offset) (firstn (Z.to_nat n) (contents b)) /\
  firstn (Z.to_nat n) (skipn (Z.to_nat offset) t') =
    firstn (Z.to_nat n) (contents b) /\
  stream_ok b' /\ contents b' = skipn (Z.to_nat n) (contents b) /\
  used b' = used b - n /\ wp b' = wp b /\ length b' = length b /\
  (state b' = state b \/
   (state b <> 0 /\ used b' = 0 /\ state b' = Z.lor (state b) 2)).
Proof.
  intros Hok Hst Hoff E.
  rewrite read_call_blocking, readSync_open in E by assumption.
  destruct (readSync_loop_sound fuel target offset limit 0 b n t' b' Hok)
    as (k & -> & Hk & Hfit & Ht & Hok' & C & U & W & L & S);
    try lia; try assumption.
  rewrite Z.add_0_l, Z.add_0_r in *.
  conjs; try assumption; try lia.
  rewrite Ht.
  pose proof (contents_length b Hok) as HC.
  assert (Hl: length (firstn (Z.to_nat k) (contents b)) = Z.to_nat k).
  { unfold Zlength' in *. rewrite length_firstn. lia. }
  rewrite <- Hl at 1. apply slice_of_overlay.
  unfold Zlength' in *. lia.
Qed.

(** ** More fuel never changes a result *)

Lemma readSync_wait_more_fuel (env : interference) (fuel : nat) :
  forall fuel' b r b',
    (fuel <= fuel')%nat ->
    readSync_wait env fuel b = Returns r b' ->
    readSync_wait env fuel' b = Returns r b'.
Proof.
  induction fuel as [|fuel IH]; intros fuel' b r b' Hle E;
    destruct fuel' as [|fuel']; try lia; try assumption;
    cbn [readSync_wait] in *; unfold bind in *;
    rewrite readPosition_run, writePosition_run in *;
    destruct (rp b =? wp b); try assumption;
    rewrite closed_run in *;
    destruct (negb (state b =? 0)); try assumption; try discriminate.
  destruct (Atomics_wait env 1 (wp b) b) as [[] b1| |]; try discriminate.
  apply IH; [lia|assumption].
Qed.

Lemma readSync_loop_more_fuel (env : interference) (fuel : nat) :
  forall fuel' target offset limit bytesRead b r b',
    (fuel <= fuel')%nat ->
    readSync_loop env fuel target offset limit bytesRead b = Returns r b' ->
    readSync_loop env fuel' target offset limit bytesRead b = Returns r b'.
Proof.
  induction fuel as [|fuel IH];
    intros fuel' target offset limit bytesRead b r b' Hle E;
    destruct fuel' as [|fuel']; try lia; try assumption;
    cbn [readSync_loop] in *;
    destruct (bytesRead <? limit); try assumption; try discriminate.
  unfold bind in *.
  destruct (readSync_wait env fuel b) as [stop b1| |] eqn:Ew; try discriminate.
  rewrite (readSync_wait_more_fuel env fuel fuel' b stop b1) by (lia || assumption).
  destruct stop; [assumption|].
  destruct (readBytes target (offset + bytesRead) b1) as [[n t1] b2| |];
    try discriminate.
  apply IH; [lia|assumption].
Qed.

Lemma readSync_more_fuel (env : interference) (fuel fuel' : nat)
    (target : list byte) (offset limit : Z) (b : buffer)
    (r : Z * list byte) (b' : buffer) :
  (fuel <= fuel')%nat ->
  readSync env fuel target offset limit b = Returns r b' ->
  readSync env fuel' target offset limit b = Returns r b'.
Proof.
  intros Hle. unfold readSync, bind. rewrite endOfStream_run.
  destruct (state b >? 1); [auto|].
  now apply readSync_loop_more_fuel.
Qed.

(** C3. The count returned by a read is not bounded by [limit]: a copy step
    takes min(remaining target space, contiguous span) bytes and never looks
    at [limit].  With five bytes buffered, a ten-byte target and limit 3, both
    [readSync] and [read] return 5. *)
Theorem read_returns_more_than_limit :
  exists b',
    readSync idle 4 (bytes_of [0; 0; 0; 0; 0; 0; 0; 0; 0; 0]) 0 3
      (stream_with [1; 2; 3; 4; 5]) =
      Returns (5, bytes_of [1; 2; 3; 4; 5; 0; 0; 0; 0; 0]) b' /\
    read idle 4 (bytes_of [0; 0; 0; 0; 0; 0; 0; 0; 0; 0]) 0 3
      (stream_with [1; 2; 3; 4; 5]) =
      Returns (5, bytes_of [1; 2; 3; 4; 5; 0; 0; 0; 0; 0]) b' /\
    rp b' = 5 /\ wp b' = 5 /\ 3 < 5.
Proof.
  eexists. split; [vm_compute; reflexivity|].
  split; [vm_compute; reflexivity|].
  split; [vm_compute; reflexivity|].
  split; [vm_compute; reflexivity|lia].
Qed.

(** What does bound the count on an idle channel: the room in the target and
    the number of unread bytes. *)
Lemma read_count_bounds (v : variant) (fuel : nat) (target : list byte)
    (offset limit : Z) (b : buffer) (n : Z) (t' : list byte) (b' : buffer) :
  stream_ok b -> state b <= 1 -> 0 <= offset <= Zlength' target ->
  read_call v idle fuel target offset limit b = Returns (n, t') b' ->
  0 <= n <= Z.min (Zlength' target - offset) (used b).
Proof.
  intros Hok Hst Hoff E.
  destruct (read_call_sound v fuel target offset limit b n t' b' Hok Hst Hoff E)
    as (Hn & Hfit & _). lia.
Qed.

(** ** Close, then drain *)

(** C5 as stated fails when the limit equals the number of buffered bytes:
    on a closed stream holding two bytes, a read with limit 2 returns 2 and
    leaves the end-of-stream bit clear, because the loop exits on the limit
    before the next empty check. *)
Lemma drain_at_limit_K_counterexample :
  ~ (forall (b : buffer) (target : list byte) (offset limit : Z),
       stream_ok b -> state b = 1 ->
       0 <= offset -> offset + limit <= Zlength' target ->
       used b <= limit ->
       exists fuel t' b',
         readSync idle fuel target offset limit b = Returns (used b, t') b' /\
         Z.testbit (state b') 1 = true /\
         forall fuel' target' offset' limit',
           exists b'',
             readSync idle fuel' target' offset' limit' b' =
               Returns (-1, target') b'').
Proof.
  intros H.
  assert (Hok: stream_ok (closed_stream_with [7; 8])) by concrete_stream_ok.
  destruct (H (closed_stream_with [7; 8]) (bytes_of [0; 0]) 0 2 Hok)
    as (fuel & t' & b' & E & Hbit & _).
  { by_evaluation. }
  { lia. }
  { by_evaluation. }
  { by_evaluation. }
  apply (readSync_more_fuel idle fuel (Nat.max 4 fuel)) in E; [|lia].
  assert (E4: readSync idle 4 (bytes_of [0; 0]) 0 2 (closed_stream_with [7; 8]) =
              Returns (2, bytes_of [7; 8])
                (after (readSync idle 4 (bytes_of [0; 0]) 0 2)
                   (closed_stream_with [7; 8])))
    by (vm_compute; reflexivity).
  apply (readSync_more_fuel idle 4 (Nat.max 4 fuel)) in E4; [|lia].
  assert (Hb: b' = after (readSync idle 4 (bytes_of [0; 0]) 0 2)
                    (closed_stream_with [7; 8])) by congruence.
  subst b'. vm_compute in Hbit. discriminate Hbit.
Qed.

(** C5 (amended). On a closed stream that has not yet reached end-of-stream
    and holds K unread bytes, a [read] or [readSync] whose target has room for
    them and whose limit is greater than K returns exactly K, delivers those
    K bytes in order, empties the buffer and latches end-of-stream, after
    which every read returns -1.  On an idle channel a read changes the state
    word only when it found the stream closed and the buffer empty. *)
Theorem close_then_drain (b : buffer) :
  stream_ok b -> state b <= 1 ->
  (forall (v : variant) (env : interference) (fuel : nat) (target : list byte)
          (offset limit : Z),
      state b = 1 -> 0 <= offset -> offset + used b <= Zlength' target ->
      used b < limit -> (Z.to_nat (used b) < fuel)%nat ->
      exists b',
        read_call v env fuel target offset limit b =
          Returns (used b, set_at target (Z.to_nat offset) (contents b)) b' /\
        firstn (Z.to_nat (used b))
          (skipn (Z.to_nat offset)
             (set_at target (Z.to_nat offset) (contents b))) = contents b /\
        state b' = 3 /\ rp b' = wp b' /\ contents b' = [] /\
        forall (v' : variant) (env' : interference) (fuel' : nat)
               (target' : list byte) (offset' limit' : Z),
          read_call v' env' fuel' target' offset' limit' b' =
            Returns (-1, target') b') /\
  (forall (v : variant) (fuel : nat) (target : list byte) (offset limit n : Z)
          (t' : list byte) (b' : buffer),
      0 <= offset <= Zlength' target ->
      read_call v idle fuel target offset limit b = Returns (n, t') b' ->
      state b' <> state b ->
      state b = 1 /\ n = used b /\ rp b' = wp b' /\ state b' = 3).
Proof.
  intros Hok Hst.
  pose proof (used_range b Hok) as Hu.
  pose proof (contents_length b Hok) as HC.
  split.
  - intros v env fuel target offset limit Hcl Hoff Hroom Hlim Hfuel.
    destruct (readSync_loop_drains fuel target offset limit 0 b Hok)
      as (t' & b' & E & S); try lia.
    rewrite Z.add_0_l in E.
    assert (Ecall: read_call v idle fuel target offset limit b =
                   Returns (used b, t') b').
    { rewrite read_call_blocking, readSync_open by assumption. exact E. }
    destruct (read_call_sound v fuel target offset limit b _ _ _ Hok Hst
                ltac:(lia) Ecall)
      as (_ & _ & Ht & Hslice & Hok' & C & U & _ & _ & _).
    assert (Hall: firstn (Z.to_nat (used b)) (contents b) = contents b).
    { apply firstn_all2. unfold Zlength' in HC. lia. }
    rewrite Hall in Ht, Hslice. subst t'.
    exists b'. conjs.
    + rewrite read_call_blocking, readSync_open by assumption.
      apply readSync_loop_never_parked. exact E.
    + exact Hslice.
    + rewrite S, Hcl. reflexivity.
    + apply empty_iff; [assumption|lia].
    + rewrite C. apply skipn_all2. unfold Zlength' in HC. lia.
    + intros. apply read_call_at_end_of_stream. rewrite S, Hcl. reflexivity.
  - intros v fuel target offset limit n t' b' Hoff E Hchg.
    destruct (read_call_sound v fuel target offset limit b n t' b' Hok Hst Hoff E)
      as (Hn & _ & _ & _ & Hok' & _ & U & _ & _ & [S|(S0 & U0 & S)]);
      [contradiction|].
    pose proof Hok as (_ & _ & _ & _ & Hs).
    assert (state b = 1) by lia.
    conjs; try lia.
    + apply empty_iff; assumption.
    + rewrite S. replace (state b) with 1 by lia. reflexivity.
Qed.

Lemma close_then_drain_witness :
  stream_ok (closed_stream_with [7; 8]) /\
  state (closed_stream_with [7; 8]) <= 1 /\
  exists b',
    read_call Blocking idle 3 (bytes_of [0; 0; 0]) 0 3 (closed_stream_with [7; 8]) =
      Returns (used (closed_stream_with [7; 8]),
               set_at (bytes_of [0; 0; 0]) (Z.to_nat 0)
                 (contents (closed_stream_with [7; 8]))) b' /\
    state b' = 3.
Proof.
  assert (Hok: stream_ok (closed_stream_with [7; 8])) by concrete_stream_ok.
  assert (Hst: state (closed_stream_with [7; 8]) <= 1) by by_evaluation.
  split; [exact Hok|]. split; [exact Hst|].
  destruct (proj1 (close_then_drain _ Hok Hst) Blocking idle 3%nat
              (bytes_of [0; 0; 0]) 0 3)
    as (b' & E & _ & S & _).
  { by_evaluation. }
  { lia. }
  { by_evaluation. }
  { by_evaluation. }
  { by_evaluation. }
  exists b'. split; [exact E|exact S].
Defined.

(** ** Sequences of calls *)

Lemma sum_nonneg_lengths (calls : list (variant * list byte)) :
  0 <= sum (map (fun c => Zlength' (snd c)) calls).
Proof.
  induction calls as [|c calls IH]; simpl; [lia|]. unfold Zlength' at 1. lia.
Qed.

Lemma write_all_fits (env : interference) (fuel : nat) :
  forall (calls : list (variant * list byte)) (b : buffer),
    stream_ok b ->
    used b + sum (map (fun c => Zlength' (snd c)) calls) <= capacity b - 1 ->
    Forall (fun c => Zlength' (snd c) <= Z.of_nat fuel) calls ->
    exists b',
      write_all env fuel calls b =
        Returns (map (fun c => Zlength' (snd c)) calls) b' /\
      stream_ok b' /\ rp b' = rp b /\ state b' = state b /\
      length b' = length b /\
      used b' = used b + sum (map (fun c => Zlength' (snd c)) calls) /\
      contents b' = contents b ++ concat (map snd calls).
Proof.
  induction calls as [|[v source] calls IH]; intros b Hok Hroom Hfuel.
  - exists b. simpl. unfold ret. rewrite app_nil_r. conjs; auto; lia.
  - inversion Hfuel as [|c cs Hf1 Hf2]; subst. simpl in Hf1, Hroom.
    pose proof (sum_nonneg_lengths calls) as Hs.
    destruct (writeSync_loop_fits env fuel source 0 b Hok)
      as (b1 & E1 & Hok1 & R1 & S1 & L1 & U1 & C1);
      try (unfold Zlength' in *; lia).
    assert (Cap: capacity b1 = capacity b).
    { destruct Hok, Hok1. rewrite !capacity_length; lia. }
    destruct (IH b1 Hok1) as (b' & E' & Hok' & R' & S' & L' & U' & C');
      try assumption; try lia.
    exists b'. cbn [write_all]. unfold bind.
    rewrite write_call_blocking. unfold writeSync. rewrite E1, E'.
    unfold ret. cbn [map snd concat].
    change (sum (Zlength' source ::
                 map (fun c => Zlength' (snd c)) calls))
      with (Zlength' source + sum (map (fun c => Zlength' (snd c)) calls)).
    conjs; try congruence; try lia.
    rewrite C', C1. simpl skipn. now rewrite app_assoc.
Qed.

Lemma delivered_all_cons (rq : read_request) (reads : list read_request)
    (res : Z * list byte) (results : list (Z * list byte)) :
  delivered_all (rq :: reads) (res :: results) =
  delivered rq res ++ delivered_all reads results.
Proof. reflexivity. Qed.

Lemma read_all_sound (fuel : nat) :
  forall (reads : list read_request) (b : buffer)
         (results : list (Z * list byte)) (b' : buffer),
    stream_ok b -> state b = 0 ->
    Forall (fun rq => 0 <= rq_offset rq <= Zlength' (rq_target rq)) reads ->
    read_all idle fuel reads b = Returns results b' ->
    0 <= sum (map fst results) <= used b /\
    delivered_all reads results =
      firstn (Z.to_nat (sum (map fst results))) (contents b) /\
    contents b' = skipn (Z.to_nat (sum (map fst results))) (contents b) /\
    stream_ok b' /\ state b' = 0 /\
    used b' = used b - sum (map fst results).
Proof.
  induction reads as [|rq reads IH]; intros b results b' Hok Hst Hwf E.
  - simpl in E. unfold ret in E. injection E as <- <-.
    pose proof (used_range b Hok). simpl. conjs; auto; lia.
  - inversion Hwf as [|r rs Hw1 Hw2]; subst.
    cbn [read_all] in E. unfold bind in E.
    destruct (read_call (rq_variant rq) idle fuel (rq_target rq) (rq_offset rq)
                (rq_limit rq) b) as [[n t1] b1| |] eqn:E1; try discriminate.
    destruct (read_all idle fuel reads b1) as [rs' b2| |] eqn:E2;
      try discriminate.
    unfold ret in E. injection E as <- <-.
    assert (Hst': state b <= 1) by lia.
    destruct (read_call_sound _ _ _ _ _ _ _ _ _ Hok Hst' Hw1 E1)
      as (Hn & Hfit & Ht & Hslice & Hok1 & C1 & U1 & _ & _ & S1).
    assert (Hst1: state b1 = 0) by lia.
    destruct (IH b1 rs' b2 Hok1 Hst1 Hw2 E2) as (Hs & D & C2 & Hok2 & S2 & U2).
    cbn [map fst sum fold_right]. fold (sum (map fst rs')).
    rewrite delivered_all_cons. unfold delivered at 1. cbn [fst snd].
    conjs; try assumption; try lia.
    + rewrite Hslice, D, C1.
      replace (Z.to_nat (n + sum (map fst rs')))
        with (Z.to_nat n + Z.to_nat (sum (map fst rs')))%nat by lia.
      now rewrite firstn_plus.
    + rewrite C2, C1, skipn_skipn. f_equal. lia.
Qed.

Lemma read_all_fills (fuel : nat) :
  forall (reads : list read_request) (b : buffer),
    stream_ok b -> state b = 0 ->
    Forall exact_fit reads ->
    Forall (fun rq => rq_limit rq <= Z.of_nat fuel) reads ->
    sum (map rq_limit reads) <= used b ->
    exists results b',
      read_all idle fuel reads b = Returns results b' /\
      map fst results = map rq_limit reads.
Proof.
  induction reads as [|rq reads IH]; intros b Hok Hst Hfit Hfuel Hav.
  - exists [], b. split; reflexivity.
  - inversion Hfit as [|r rs (Ho & Hl & Hx) Hfit']; subst.
    inversion Hfuel as [|r rs Hf1 Hf2]; subst.
    cbn [map sum fold_right] in Hav. fold (sum (map rq_limit reads)) in Hav.
    assert (Hs: 0 <= sum (map rq_limit reads)).
    { clear - Hfit'. induction Hfit' as [|r rs (_ & Hl & _) _ IH]; simpl; lia. }
    destruct (readSync_loop_fills fuel (rq_target rq) (rq_offset rq)
                (rq_limit rq) 0 b Hok) as (t1 & b1 & E1); try lia.
    assert (Ecall: read_call (rq_variant rq) idle fuel (rq_target rq)
                     (rq_offset rq) (rq_limit rq) b =
                   Returns (rq_limit rq, t1) b1).
    { rewrite read_call_blocking, readSync_open by lia. exact E1. }
    assert (Hst': state b <= 1) by lia.
    assert (Hwf: 0 <= rq_offset rq <= Zlength' (rq_target rq)) by lia.
    destruct (read_call_sound _ _ _ _ _ _ _ _ _ Hok Hst' Hwf Ecall)
      as (_ & _ & _ & _ & Hok1 & _ & U1 & _ & _ & S1).
    assert (Hst1: state b1 = 0) by lia.
    destruct (IH b1 Hok1 Hst1 Hfit' Hf2 ltac:(lia)) as (rs' & b2 & E2 & M2).
    exists ((rq_limit rq, t1) :: rs'), b2.
    cbn [read_all]. unfold bind. rewrite Ecall, E2. unfold ret.
    split; [reflexivity|]. simpl. now rewrite M2.
Qed.

(** X24. FIFO round trip.  Start from an empty, open, well-formed stream on an
    idle channel and issue any sequence of [write]/[writeSync] calls whose
    sources total N <= capacity - 1 bytes.  Every call returns its source
    length without waiting.  Then, for any sequence of [read]/[readSync]
    calls that return counts totalling N, the bytes delivered into the
    targets, concatenated in call order, are the bytes written, concatenated
    in call order; and reads whose targets have room for exactly their limit,
    with limits totalling N, do return, each with its limit. *)
Theorem fifo_round_trip (b : buffer) (writes : list (variant * list byte))
    (fuel : nat) :
  stream_ok b -> rp b = wp b -> state b = 0 ->
  sum (map (fun c => Zlength' (snd c)) writes) <= capacity b - 1 ->
  Forall (fun c => Zlength' (snd c) <= Z.of_nat fuel) writes ->
  exists b1,
    write_all idle fuel writes b =
      Returns (map (fun c => Zlength' (snd c)) writes) b1 /\
    (forall (fuel' : nat) (reads : list read_request)
            (results : list (Z * list byte)) (b2 : buffer),
        Forall (fun rq => 0 <= rq_offset rq <= Zlength' (rq_target rq)) reads ->
        read_all idle fuel' reads b1 = Returns results b2 ->
        sum (map fst results) = sum (map (fun c => Zlength' (snd c)) writes) ->
        delivered_all reads results = concat (map snd writes)) /\
    (forall (fuel' : nat) (reads : list read_request),
        Forall exact_fit reads ->
        Forall (fun rq => rq_limit rq <= Z.of_nat fuel') reads ->
        sum (map rq_limit reads) = sum (map (fun c => Zlength' (snd c)) writes) ->
        exists results b2,
          read_all idle fuel' reads b1 = Returns results b2 /\
          map fst results = map rq_limit reads /\
          delivered_all reads results = concat (map snd writes) /\
          rp b2 = wp b2).
Proof.
  intros Hok Hemp Hst Hroom Hfuel.
  set (N := sum (map (fun c => Zlength' (snd c)) writes)) in *.
  assert (Hu0: used b = 0) by (apply empty_iff; assumption).
  assert (Hc0: contents b = []).
  { unfold contents. rewrite Hu0. apply ring_empty. }
  destruct (write_all_fits idle fuel writes b Hok)
    as (b1 & E1 & Hok1 & R1 & S1 & L1 & U1 & C1); try assumption.
  { fold N. lia. }
  fold N in U1. rewrite Hc0 in C1. simpl in C1.
  pose proof (contents_length b1 Hok1) as HC1.
  assert (Hst1: state b1 = 0) by congruence.
  assert (Sound: forall fuel' reads results b2,
    Forall (fun rq => 0 <= rq_offset rq <= Zlength' (rq_target rq)) reads ->
    read_all idle fuel' reads b1 = Returns results b2 ->
    sum (map fst results) = N ->
    delivered_all reads results = concat (map snd writes) /\ rp b2 = wp b2).
  { intros fuel' reads results b2 Hwf E Hsum.
    destruct (read_all_sound fuel' reads b1 results b2 Hok1 Hst1 Hwf E)
      as (_ & D & _ & Hok2 & _ & U2).
    split.
    - rewrite D, C1. apply firstn_all2.
      rewrite <- C1. unfold Zlength' in HC1. lia.
    - apply empty_iff; [assumption|lia]. }
  exists b1. split; [exact E1|]. split.
  - intros fuel' reads results b2 Hwf E Hsum. now apply (Sound fuel' reads results b2).
  - intros fuel' reads Hfit Hf Hsum.
    destruct (read_all_fills fuel' reads b1 Hok1 Hst1 Hfit Hf ltac:(lia))
      as (results & b2 & E & Hm).
    assert (Hwf: Forall (fun rq => 0 <= rq_offset rq <= Zlength' (rq_target rq)) reads).
    { eapply Forall_impl; [|exact Hfit]. intros rq (Ho & Hl & Hx). lia. }
    destruct (Sound fuel' reads results b2 Hwf E) as (D & Hemp2).
    { rewrite Hm. exact Hsum. }
    exists results, b2. conjs; assumption.
Qed.

Lemma fifo_round_trip_witness :
  stream_ok (drained_stream 34) /\
  rp (drained_stream 34) = wp (drained_stream 34) /\
  state (drained_stream 34) = 0 /\
  exists b1,
    write_all idle 4
      [(Blocking, bytes_of [1; 2; 3]); (Suspending, bytes_of [4; 5])]
      (drained_stream 34) = Returns [3; 2] b1 /\
    exists results b2,
      read_all idle 4
        [ {| rq_variant := Suspending; rq_target := bytes_of [0];
             rq_offset := 0; rq_limit := 1 |};
          {| rq_variant := Blocking; rq_target := bytes_of [9; 9; 0; 0; 0; 0];
             rq_offset := 2; rq_limit := 4 |} ] b1 = Returns results b2 /\
      map fst results = [1; 4] /\
      delivered_all
        [ {| rq_variant := Suspending; rq_target := bytes_of [0];
             rq_offset := 0; rq_limit := 1 |};
          {| rq_variant := Blocking; rq_target := bytes_of [9; 9; 0; 0; 0; 0];
             rq_offset := 2; rq_limit := 4 |} ] results =
        bytes_of [1; 2; 3; 4; 5].
Proof.
  assert (Hok: stream_ok (drained_stream 34)) by concrete_stream_ok.
  assert (Hemp: rp (drained_stream 34) = wp (drained_stream 34)) by by_evaluation.
  assert (Hst: state (drained_stream 34) = 0) by by_evaluation.
  split; [exact Hok|]. split; [exact Hemp|]. split; [exact Hst|].
  destruct (fifo_round_trip (drained_stream 34)
              [(Blocking, bytes_of [1; 2; 3]); (Suspending, bytes_of [4; 5])]
              4%nat Hok Hemp Hst)
    as (b1 & E1 & _ & Hreads).
  { by_evaluation. }
  { each_element; by_evaluation. }
  exists b1. split; [exact E1|].
  destruct (Hreads 4%nat
              [ {| rq_variant := Suspending; rq_target := bytes_of [0];
                   rq_offset := 0; rq_limit := 1 |};
                {| rq_variant := Blocking; rq_target := bytes_of [9; 9; 0; 0; 0; 0];
                   rq_offset := 2; rq_limit := 4 |} ])
    as (results & b2 & E2 & Hm & D & _).
  - each_element; by_evaluation.
  - each_element; by_evaluation.
  - by_evaluation.
  - exists results, b2. split; [exact E2|]. split; [exact Hm|exact D].
Defined.

(** C1. The round trip, as stated for any chunking, fails on reads that split
    the data.  Five bytes are written to a fresh stream of capacity 36 and
    read back by [read(t, 0, 3)] and [read(t, 3, 2)] on a five-byte target,
    limits totalling 5.  The first call returns 5, not 3: its copy step takes
    the room in the target and never looks at the limit, and it leaves the
    stream empty and open.  The second call then waits for data that never
    comes, so the two reads never complete, for either variant of each call
    and any iteration bound. *)
Theorem fifo_split_reads_stall :
  exists b2,
    (forall v : variant,
        write_all idle 6 [(v, bytes_of [1; 2; 3; 4; 5])] (fresh 36) =
          Returns [5] (stream_with [1; 2; 3; 4; 5])) /\
    5 <= capacity (fresh 36) - 1 /\
    (forall (v : variant) (fuel : nat),
        read_call v idle (S fuel) (bytes_of [0; 0; 0; 0; 0]) 0 3
          (stream_with [1; 2; 3; 4; 5]) =
          Returns (5, bytes_of [1; 2; 3; 4; 5]) b2) /\
    rp b2 = wp b2 /\ state b2 = 0 /\
    (forall (v : variant) (fuel : nat) (target : list byte),
        read_call v idle fuel target 3 2 b2 = Unfinished) /\
    (forall (v1 v2 : variant) (fuel : nat) (target : list byte),
        read_all idle fuel
          [ {| rq_variant := v1; rq_target := bytes_of [0; 0; 0; 0; 0];
               rq_offset := 0; rq_limit := 3 |};
            {| rq_variant := v2; rq_target := target;
               rq_offset := 3; rq_limit := 2 |} ]
          (stream_with [1; 2; 3; 4; 5]) = Unfinished).
Proof.
  assert (E1: readSync idle 1 (bytes_of [0; 0; 0; 0; 0]) 0 3
                (stream_with [1; 2; 3; 4; 5]) =
              Returns (5, bytes_of [1; 2; 3; 4; 5])
                (after (readSync idle 1 (bytes_of [0; 0; 0; 0; 0]) 0 3)
                   (stream_with [1; 2; 3; 4; 5])))
    by (vm_compute; reflexivity).
  assert (He: rp (after (readSync idle 1 (bytes_of [0; 0; 0; 0; 0]) 0 3)
                    (stream_with [1; 2; 3; 4; 5])) =
              wp (after (readSync idle 1 (bytes_of [0; 0; 0; 0; 0]) 0 3)
                    (stream_with [1; 2; 3; 4; 5])))
    by (vm_compute; reflexivity).
  assert (Hs: state (after (readSync idle 1 (bytes_of [0; 0; 0; 0; 0]) 0 3)
                       (stream_with [1; 2; 3; 4; 5])) = 0)
    by (vm_compute; reflexivity).
  assert (H0: state (stream_with [1; 2; 3; 4; 5]) <= 1) by by_evaluation.
  set (b1 := stream_with [1; 2; 3; 4; 5]) in *.
  set (b2 := after (readSync idle 1 (bytes_of [0; 0; 0; 0; 0]) 0 3) b1) in *.
  assert (First: forall (v : variant) (fuel : nat),
             read_call v idle (S fuel) (bytes_of [0; 0; 0; 0; 0]) 0 3 b1 =
               Returns (5, bytes_of [1; 2; 3; 4; 5]) b2).
  { intros v fuel. rewrite read_call_blocking.
    apply (readSync_more_fuel idle 1 (S fuel)); [lia|exact E1]. }
  assert (Second: forall (v : variant) (fuel : nat) (target : list byte),
             read_call v idle fuel target 3 2 b2 = Unfinished).
  { intros v fuel target.
    rewrite read_call_blocking, readSync_open by (rewrite Hs; lia).
    destruct fuel as [|fuel]; cbn [readSync_loop];
      change (0 <? 2) with true; cbv iota; [reflexivity|].
    unfold bind. now rewrite readSync_wait_starves. }
  exists b2.
  split; [intros [|]; vm_compute; reflexivity|].
  split; [vm_compute; intro H; discriminate H|].
  split; [exact First|].
  split; [exact He|].
  split; [exact Hs|].
  split; [exact Second|].
  intros v1 v2 fuel target.
  {
    cbn [read_all rq_variant rq_target rq_offset rq_limit]. unfold bind.
    destruct fuel as [|fuel].
    + rewrite read_call_blocking, readSync_open by assumption.
      cbn [readSync_loop]. change (0 <? 3) with true. reflexivity.
    + rewrite First, Second. reflexivity. }
Qed.

(** * Further properties of the code *)

(** ** [close] *)

Lemma to_int32_congr (x : Z) : to_int32 x mod 2 ^ 32 = x mod 2 ^ 32.
Proof.
  unfold to_int32.
  rewrite Zminus_mod_idemp_l.
  replace (x + 2 ^ 31 - 2 ^ 31) with x by lia. reflexivity.
Qed.

(** Storing back the value a control word holds changes nothing. *)
Lemma Int32_set_get (b : buffer) (i : nat) :
  (12 <= length b)%nat -> (i < 3)%nat -> Int32_set b i (Int32_get b i) = b.
Proof.
  intros Hb Hi. unfold Int32_set, Int32_get.
  set (w := firstn 4 (skipn (4 * i) b)).
  assert (Hw: length w = 4%nat).
  { subst w. rewrite length_firstn, length_skipn. lia. }
  rewrite (le_split_mod (to_int32 (le_combine w)) 4).
  change (Z.of_nat 4 * 8) with 32. rewrite to_int32_congr.
  change 32 with (Z.of_nat 4 * 8). rewrite <- le_split_mod.
  rewrite split_le_combine' by assumption.
  subst w. clear Hw.
  split_header b Hb.
  destruct i as [|[|[|i]]]; [| | |lia]; cbn; rewrite ?set_at_nil; reflexivity.
Qed.

Lemma lor_flag (s f : Z) :
  0 <= s <= 3 -> f = 1 \/ f = 2 ->
  0 <= Z.lor s f <= 3 /\ Z.lor (Z.lor s f) f = Z.lor s f /\
  (Z.lor s 1 > 1 <-> s > 1) /\ Z.lor s f <> 0.
Proof.
  intros Hs Hf.
  assert (Hc: s = 0 \/ s = 1 \/ s = 2 \/ s = 3) by lia.
  destruct Hc as [-> |[-> |[-> | ->]]]; destruct Hf as [-> | ->]; cbn; lia.
Qed.

Lemma close_run (b : buffer) :
  close b = Returns 0 (Int32_set b 2 (Z.lor (state b) 1)).
Proof. reflexivity. Qed.

Lemma close_effect (b : buffer) :
  stream_ok b ->
  exists b',
    close b = Returns 0 b' /\
    stream_ok b' /\ state b' = Z.lor (state b) 1 /\ state b' <> 0 /\
    (state b' > 1 <-> state b > 1) /\
    rp b' = rp b /\ wp b' = wp b /\ data b' = data b /\
    contents b' = contents b /\ used b' = used b /\ length b' = length b.
Proof.
  intros Hok. pose proof Hok as (Hlen & Hcap & Hr & Hw & Hs).
  destruct (lor_flag (state b) 1 Hs ltac:(auto)) as (Hrange & Hidem & Heos & Hnz).
  destruct (stream_words_after_store b 2 (Z.lor (state b) 1) ltac:(lia) ltac:(lia))
    as (R & W & S & D & C & L).
  cbn [Nat.eqb] in R, W, S. rewrite to_int32_small in S by lia.
  set (b' := Int32_set b 2 (Z.lor (state b) 1)) in *.
  exists b'. rewrite close_run. fold b'.
  conjs; try assumption; try reflexivity; try (rewrite S; assumption).
  - unfold stream_ok. rewrite R, W, S, C, L. conjs; lia.
  - unfold contents, used. now rewrite R, W, D, C.
  - unfold used. now rewrite R, W, C.
Qed.

(** X1. [close()] sets the closed bit and nothing else: both cursors, the
    data and the unread contents are kept, a latched end-of-stream stays
    latched and none is created, the stream stays well-formed, and a second
    [close()] leaves the region exactly as the first one did. *)
Theorem close_marks_closed_only (b : buffer) :
  stream_ok b ->
  exists b',
    close b = Returns 0 b' /\
    stream_ok b' /\ state b' = Z.lor (state b) 1 /\ state b' <> 0 /\
    (state b' > 1 <-> state b > 1) /\
    rp b' = rp b /\ wp b' = wp b /\ data b' = data b /\
    contents b' = contents b /\
    close b' = Returns 0 b'.
Proof.
  intros Hok. pose proof Hok as (Hlen & _ & _ & _ & Hs).
  destruct (close_effect b Hok)
    as (b' & E & Hok' & S & Hnz & Heos & R & W & D & C & U & L).
  exists b'. conjs; try assumption.
  destruct (lor_flag (state b) 1 Hs ltac:(auto)) as (_ & Hidem & _).
  rewrite close_run, S, Hidem, <- S. f_equal.
  apply Int32_set_get; lia.
Qed.

Lemma close_marks_closed_only_witness :
  stream_ok (stream_with [1; 2; 3]) /\
  exists b',
    close (stream_with [1; 2; 3]) = Returns 0 b' /\
    state b' = Z.lor (state (stream_with [1; 2; 3])) 1 /\
    contents b' = contents (stream_with [1; 2; 3]) /\
    close b' = Returns 0 b'.
Proof.
  assert (Hok: stream_ok (stream_with [1; 2; 3])) by concrete_stream_ok.
  split; [exact Hok|].
  destruct (close_marks_closed_only _ Hok)
    as (b' & E & _ & S & _ & _ & _ & _ & _ & C & E').
  exists b'. conjs; assumption.
Defined.

(** ** [reset], then reuse *)

Lemma reset_effect (b : buffer) :
  (12 <= length b)%nat ->
  exists b',
    reset b = Returns tt b' /\
    rp b' = 0 /\ wp b' = 0 /\ state b' = 0 /\
    data b' = data b /\ length b' = length b /\ capacity b' = capacity b.
Proof.
  intros Hlen.
  unfold reset, reset_from, bind, Atomics_store, ret.
  destruct (stream_words_after_store b 0 0 ltac:(lia) ltac:(lia))
    as (R1 & W1 & S1 & D1 & C1 & L1).
  set (b1 := Int32_set b 0 0) in *.
  destruct (stream_words_after_store b1 1 0 ltac:(lia) ltac:(lia))
    as (R2 & W2 & S2 & D2 & C2 & L2).
  set (b2 := Int32_set b1 1 0) in *.
  destruct (stream_words_after_store b2 2 0 ltac:(lia) ltac:(lia))
    as (R3 & W3 & S3 & D3 & C3 & L3).
  cbn [Nat.eqb] in *. change (to_int32 0) with 0 in *.
  eexists. split; [reflexivity|]. conjs; congruence.
Qed.

Lemma set_at_whole {A} (l : list A) : forall xs,
  length xs = length l -> set_at l 0 xs = xs.
Proof.
  induction l as [|h t IH]; intros [|x xs] H; try discriminate; [reflexivity|].
  simpl. f_equal. apply IH. simpl in H. lia.
Qed.

Lemma empty_contents (b : buffer) :
  stream_ok b -> rp b = wp b -> used b = 0 /\ contents b = [].
Proof.
  intros Hok H. assert (Hu: used b = 0) by (apply empty_iff; assumption).
  split; [exact Hu|]. unfold contents. rewrite Hu. apply ring_empty.
Qed.

(** X2. Whatever a region went through (closed, at end-of-stream, unread
    bytes left, cursors anywhere), [reset()] turns it into a well-formed,
    empty, open stream of the same capacity: the unread bytes are dropped and
    on an idle channel a write of up to capacity - 1 bytes followed by a read
    of that many returns exactly the bytes written. *)
Theorem reset_gives_a_new_stream (b : buffer) (source : list byte)
    (v v' : variant) (fuel : nat) :
  (48 <= length b)%nat -> capacity b <= 2 ^ 31 ->
  Zlength' source <= capacity b - 1 -> Zlength' source <= Z.of_nat fuel ->
  exists b0 b1 b2,
    reset b = Returns tt b0 /\
    stream_ok b0 /\ capacity b0 = capacity b /\ state b0 = 0 /\
    contents b0 = [] /\
    write_call v idle fuel source b0 = Returns (Zlength' source) b1 /\
    contents b1 = source /\
    read_call v' idle fuel (repeat Byte.x00 (length source)) 0
      (Zlength' source) b1 = Returns (Zlength' source, source) b2 /\
    contents b2 = [] /\ state b2 = 0.
Proof.
  intros Hlen Hcap Hfit Hfuel.
  destruct (reset_effect b ltac:(lia)) as (b0 & E0 & R0 & W0 & S0 & D0 & L0 & C0).
  assert (Hc: 36 <= capacity b) by (rewrite capacity_length; lia).
  assert (Hok0: stream_ok b0).
  { unfold stream_ok. rewrite R0, W0, S0, C0, L0. conjs; lia. }
  destruct (empty_contents b0 Hok0 ltac:(congruence)) as (U0 & Cn0).
  assert (Hsl: 0 <= Zlength' source) by (unfold Zlength'; lia).
  destruct (writeSync_loop_fits idle fuel source 0 b0 Hok0)
    as (b1 & E1 & Hok1 & R1 & S1 & L1 & U1 & C1); try lia.
  rewrite Cn0 in C1. simpl in C1.
  assert (Hst1: state b1 <= 1) by lia.
  set (target := repeat Byte.x00 (length source)).
  assert (Ht: Zlength' target = Zlength' source).
  { subst target. unfold Zlength'. now rewrite repeat_length. }
  destruct (readSync_loop_fills fuel target 0 (Zlength' source) 0 b1 Hok1)
    as (t2 & b2 & E2); try lia.
  assert (Ecall: read_call v' idle fuel target 0 (Zlength' source) b1 =
                 Returns (Zlength' source, t2) b2).
  { rewrite read_call_blocking, readSync_open by assumption. exact E2. }
  assert (Hwf: 0 <= 0 <= Zlength' target) by lia.
  destruct (read_call_sound _ _ _ _ _ _ _ _ _ Hok1 Hst1 Hwf Ecall)
    as (_ & _ & Ht2 & _ & Hok2 & C2 & U2 & _ & _ & S2).
  assert (Hall: firstn (Z.to_nat (Zlength' source)) source = source).
  { apply firstn_all2. unfold Zlength'. lia. }
  rewrite C1, Hall in Ht2. simpl Z.to_nat in Ht2.
  rewrite set_at_whole in Ht2
    by (subst target; now rewrite repeat_length).
  subst t2.
  exists b0, b1, b2. conjs; try assumption; try lia.
  - rewrite write_call_blocking. exact E1.
  - rewrite C2, C1. apply skipn_all2. unfold Zlength'. lia.
Qed.

Lemma reset_gives_a_new_stream_witness :
  (48 <= length (ended_stream [7; 8]%Z))%nat /\
  state (ended_stream [7; 8]) = 3 /\
  exists b0 b1 b2,
    reset (ended_stream [7; 8]) = Returns tt b0 /\
    write_call Blocking idle 3 (bytes_of [4; 5; 6]) b0 = Returns 3 b1 /\
    read_call Suspending idle 3 (repeat Byte.x00 3) 0 3 b1 =
      Returns (3, bytes_of [4; 5; 6]) b2.
Proof.
  split; [by_evaluation|]. split; [by_evaluation|].
  destruct (reset_gives_a_new_stream (ended_stream [7; 8])
              (bytes_of [4; 5; 6]) Blocking Suspending 3%nat)
    as (b0 & b1 & b2 & E0 & _ & _ & _ & _ & E1 & _ & E2 & _).
  { by_evaluation. }
  { by_evaluation. }
  { by_evaluation. }
  { by_evaluation. }
  exists b0, b1, b2. conjs; assumption.
Defined.

(** ** Writes on an idle channel *)

Lemma Atomics_wait_idle (i : nat) (expected : Z) (b : buffer) :
  Atomics_wait idle i expected b = Returns tt b.
Proof. unfold Atomics_wait, idle. now destruct (Int32_get b i =? expected). Qed.

(** The write loop on an idle channel: it never throws, and it returns only
    when the rest of the source fitted, which is then appended. *)
Lemma writeSync_loop_idle (fuel : nat) :
  forall (source : list byte) (total : Z) (b : buffer),
    stream_ok b -> 0 <= total <= Zlength' source ->
    match writeSync_loop idle fuel source total b with
    | Returns n b' =>
        n = Zlength' source /\
        used b + (Zlength' source - total) <= capacity b - 1 /\
        stream_ok b' /\ rp b' = rp b /\ state b' = state b /\
        length b' = length b /\
        contents b' = contents b ++ skipn (Z.to_nat total) source
    | Throws _ _ => False
    | Unfinished => True
    end.
Proof.
  induction fuel as [|fuel IH]; intros source total b Hok Ht;
    pose proof (used_range b Hok) as Hu;
    cbn [writeSync_loop];
    destruct (Z.ltb_spec total (Zlength' source)) as [Hlt|Hge];
    try exact I;
    try (assert (total = Zlength' source) by lia; subst total; unfold ret;
         unfold Zlength'; rewrite Nat2Z.id, skipn_all, app_nil_r;
         conjs; auto; unfold Zlength' in *; lia).
  unfold bind.
  assert (Hbytes: subarray_from source total = skipn (Z.to_nat total) source)
    by (apply subarray_from_skipn; lia).
  rewrite Hbytes.
  destruct (Z.eq_dec ((wp b + 1) mod capacity b) (rp b)) as [Hfull|Hfree].
  - rewrite writeBytes_full by assumption.
    change (0 >? 0) with false. cbv iota. unfold bind.
    rewrite Atomics_wait_idle. apply IH; assumption.
  - assert (Hne: skipn (Z.to_nat total) source <> []).
    { intros E. apply skipn_all_iff in E. unfold Zlength' in *. lia. }
    destruct (writeBytes_appends b _ Hok Hne Hfree)
      as (n & b1 & E & Hn & Hok1 & R1 & S1 & L1 & U1 & C1).
    rewrite E.
    assert (Hlen: Zlength' (skipn (Z.to_nat total) source) = Zlength' source - total).
    { unfold Zlength' in *. rewrite length_skipn. lia. }
    destruct (Z.gtb_spec n 0); [|lia].
    assert (Cap: capacity b1 = capacity b).
    { destruct Hok, Hok1. rewrite !capacity_length; lia. }
    specialize (IH source (total + n) b1 Hok1 ltac:(lia)).
    destruct (writeSync_loop idle fuel source (total + n) b1) as [m b'| |];
      try assumption.
    destruct IH as (Hm & Hfit & Hok' & R' & S' & L' & C').
    conjs; try assumption; try congruence; try lia.
    rewrite C', C1, <- app_assoc. f_equal.
    replace (Z.to_nat (total + n)) with (Z.to_nat n + Z.to_nat total)%nat by lia.
    rewrite <- skipn_skipn. apply firstn_skipn.
Qed.

(** X3. On an idle channel a [write] or [writeSync] never throws, and when it
    returns the source fitted into the free space and was appended whole to
    the unread contents, with the read cursor and the state word untouched;
    so a write larger than the free space never returns, however long it is
    given. *)
Theorem write_returns_only_when_it_fits (v : variant) (fuel : nat)
    (source : list byte) (b : buffer) :
  stream_ok b ->
  (forall e b', write_call v idle fuel source b <> Throws e b') /\
  (forall n b',
      write_call v idle fuel source b = Returns n b' ->
      n = Zlength' source /\
      used b + Zlength' source <= capacity b - 1 /\
      contents b' = contents b ++ source /\
      stream_ok b' /\ rp b' = rp b /\ state b' = state b) /\
  (capacity b - 1 < used b + Zlength' source ->
   write_call v idle fuel source b = Unfinished).
Proof.
  intros Hok.
  assert (Hs: 0 <= 0 <= Zlength' source) by (unfold Zlength'; lia).
  pose proof (writeSync_loop_idle fuel source 0 b Hok Hs) as H.
  rewrite write_call_blocking. unfold writeSync.
  split; [|split].
  - intros e b' E. rewrite E in H. exact H.
  - intros n b' E. rewrite E in H.
    destruct H as (Hn & Hfit & Hok' & R & S & L & C).
    simpl skipn in C. conjs; try assumption; lia.
  - intros Hbig.
    destruct (writeSync_loop idle fuel source 0 b) as [n b'| |];
      [|contradiction|reflexivity].
    destruct H as (_ & Hfit & _). lia.
Qed.

Lemma write_returns_only_when_it_fits_witness :
  stream_ok (stream_with [1; 2; 3]) /\
  write_call Blocking idle 50 (repeat Byte.x01 33) (stream_with [1; 2; 3]) =
    Unfinished /\
  (forall e b',
      write_call Blocking idle 50 (repeat Byte.x01 32) (stream_with [1; 2; 3]) <>
        Throws e b') /\
  exists b',
    write_call Blocking idle 50 (repeat Byte.x01 32) (stream_with [1; 2; 3]) =
      Returns 32 b' /\
    contents b' = contents (stream_with [1; 2; 3]) ++ repeat Byte.x01 32.
Proof.
  assert (Hok: stream_ok (stream_with [1; 2; 3])) by concrete_stream_ok.
  split; [exact Hok|]. split; [|split].
  - apply (proj2 (proj2 (write_returns_only_when_it_fits Blocking 50
                           (repeat Byte.x01 33) _ Hok))).
    by_evaluation.
  - exact (proj1 (write_returns_only_when_it_fits Blocking 50
                    (repeat Byte.x01 32) _ Hok)).
  - assert (E: write_call Blocking idle 50 (repeat Byte.x01 32)
                 (stream_with [1; 2; 3]) =
               Returns 32
                 (after (writeSync idle 50 (repeat Byte.x01 32))
                    (stream_with [1; 2; 3])))
      by (vm_compute; reflexivity).
    eexists. split; [exact E|].
    apply (proj1 (proj2 (write_returns_only_when_it_fits Blocking 50
                           (repeat Byte.x01 32) _ Hok)) _ _ E).
Defined.

(** ** Reads on an idle channel *)

(** X4. Whatever count a [read] or [readSync] returns on an idle channel, it
    has moved exactly that many bytes from the front of the unread contents
    into [target[offset ..]], in order; the rest of the contents stays
    buffered, the rest of the target is untouched, the stream stays
    well-formed and the write cursor is not moved.  The count is bounded by
    the room in the target and by the number of unread bytes. *)
Theorem read_delivers_a_prefix (v : variant) (fuel : nat) (target : list byte)
    (offset limit : Z) (b : buffer) (n : Z) (t' : list byte) (b' : buffer) :
  stream_ok b -> state b <= 1 -> 0 <= offset <= Zlength' target ->
  read_call v idle fuel target offset limit b = Returns (n, t') b' ->
  0 <= n <= Z.min (Zlength' target - offset) (used b) /\
  t' = set_at target (Z.to_nat offset) (firstn (Z.to_nat n) (contents b)) /\
  firstn (Z.to_nat n) (skipn (Z.to_nat offset) t') =
    firstn (Z.to_nat n) (contents b) /\
  contents b' = skipn (Z.to_nat n) (contents b) /\
  stream_ok b' /\ wp b' = wp b /\ capacity b' = capacity b.
Proof.
  intros Hok Hst Hoff E.
  destruct (read_call_sound v fuel target offset limit b n t' b' Hok Hst Hoff E)
    as (Hn & Hfit & Ht & Hslice & Hok' & C & U & W & L & S).
  conjs; try assumption; try lia.
  destruct Hok, Hok'. rewrite !capacity_length; lia.
Qed.

Lemma read_delivers_a_prefix_witness :
  stream_ok (stream_with [1; 2; 3; 4; 5]) /\
  read_call Blocking idle 4 (bytes_of [9; 9; 9; 9]) 1 2
    (stream_with [1; 2; 3; 4; 5]) =
    Returns (3, bytes_of [9; 1; 2; 3])
      (after (readSync idle 4 (bytes_of [9; 9; 9; 9]) 1 2)
         (stream_with [1; 2; 3; 4; 5])) /\
  contents (after (readSync idle 4 (bytes_of [9; 9; 9; 9]) 1 2)
              (stream_with [1; 2; 3; 4; 5])) =
    skipn (Z.to_nat 3) (contents (stream_with [1; 2; 3; 4; 5])).
Proof.
  assert (Hok: stream_ok (stream_with [1; 2; 3; 4; 5])) by concrete_stream_ok.
  assert (E: read_call Blocking idle 4 (bytes_of [9; 9; 9; 9]) 1 2
               (stream_with [1; 2; 3; 4; 5]) =
             Returns (3, bytes_of [9; 1; 2; 3])
               (after (readSync idle 4 (bytes_of [9; 9; 9; 9]) 1 2)
                  (stream_with [1; 2; 3; 4; 5])))
    by (vm_compute; reflexivity).
  assert (Hst: state (stream_with [1; 2; 3; 4; 5]) <= 1) by by_evaluation.
  assert (Hoff: 0 <= 1 <= Zlength' (bytes_of [9; 9; 9; 9])) by by_evaluation.
  split; [exact Hok|]. split; [exact E|].
  destruct (read_delivers_a_prefix _ _ _ _ _ _ _ _ _ Hok Hst Hoff E)
    as (_ & _ & _ & C & _).
  exact C.
Defined.

(** The read loop parks for ever on an open idle channel when the limit lies
    beyond the buffered bytes. *)
Lemma readSync_loop_starves (fuel : nat) :
  forall target offset limit bytesRead b,
    stream_ok b -> state b = 0 -> 0 <= offset -> 0 <= bytesRead ->
    offset + bytesRead <= Zlength' target ->
    bytesRead + used b < limit ->
    readSync_loop idle fuel target offset limit bytesRead b = Unfinished.
Proof.
  induction fuel as [|fuel IH];
    intros target offset limit bytesRead b Hok Hst Hoff Hbr Hfit Hlim;
    pose proof (used_range b Hok) as Hu;
    cbn [readSync_loop];
    destruct (Z.ltb_spec bytesRead limit) as [Hlt|Hge]; try lia;
    [reflexivity|].
  unfold bind.
  destruct (Z.eq_dec (rp b) (wp b)) as [Hemp|Hdata].
  - now rewrite readSync_wait_starves.
  - rewrite readSync_wait_ready by assumption.
    destruct (readBytes_takes b target (offset + bytesRead) Hok Hdata ltac:(lia))
      as (n1 & b1 & E1 & Hn1 & Hroom & _ & Hok1 & W1 & S1 & L1 & U1 & C1).
    rewrite E1.
    apply IH; try assumption; try lia.
    unfold Zlength' in *. rewrite set_at_length. lia.
Qed.

(** The read loop spins for ever when the target runs out of room before
    either the limit or the buffered bytes do. *)
Lemma readSync_loop_spins (fuel : nat) :
  forall target offset limit bytesRead b,
    stream_ok b -> 0 <= offset -> 0 <= bytesRead ->
    offset + bytesRead <= Zlength' target ->
    Zlength' target - offset < limit ->
    Zlength' target - offset - bytesRead < used b ->
    readSync_loop idle fuel target offset limit bytesRead b = Unfinished.
Proof.
  induction fuel as [|fuel IH];
    intros target offset limit bytesRead b Hok Hoff Hbr Hfit Hlim Hmore;
    cbn [readSync_loop];
    destruct (Z.ltb_spec bytesRead limit) as [Hlt|Hge]; try lia;
    [reflexivity|].
  unfold bind.
  assert (Hdata: rp b <> wp b).
  { rewrite <- empty_iff by assumption. lia. }
  rewrite readSync_wait_ready by assumption.
  destruct (readBytes_takes b target (offset + bytesRead) Hok Hdata ltac:(lia))
    as (n1 & b1 & E1 & Hn1 & Hroom & _ & Hok1 & W1 & S1 & L1 & U1 & C1).
  rewrite E1.
  assert (Hl: Zlength' (set_at target (Z.to_nat (offset + bytesRead))
                          (firstn (Z.to_nat n1) (contents b))) = Zlength' target).
  { unfold Zlength'. now rewrite set_at_length. }
  apply IH; try assumption; rewrite ?Hl; lia.
Qed.

(** X5. On an idle channel a [read] or [readSync] with a positive limit never
    returns (and never throws) in two situations: the stream is open and the
    limit is larger than the number of buffered bytes, or the target has less
    room than both the limit and the buffered bytes - then the call keeps
    copying zero bytes, also on a closed stream. *)
Theorem read_never_returns (v : variant) (fuel : nat) (target : list byte)
    (offset limit : Z) (b : buffer) :
  stream_ok b -> state b <= 1 -> 0 <= offset <= Zlength' target ->
  (state b = 0 /\ used b < limit) \/
  (Zlength' target - offset < limit /\ Zlength' target - offset < used b) ->
  read_call v idle fuel target offset limit b = Unfinished.
Proof.
  intros Hok Hst Hoff Hcase.
  rewrite read_call_blocking, readSync_open by assumption.
  destruct Hcase as [(Hopen & Hlim)|(Hlim & Hmore)].
  - apply readSync_loop_starves; try assumption; lia.
  - apply readSync_loop_spins; try assumption; lia.
Qed.

Lemma read_never_returns_witness :
  stream_ok (closed_stream_with [1; 2; 3]) /\
  read_call Blocking idle 1000 (bytes_of [0; 0]) 0 3
    (closed_stream_with [1; 2; 3]) = Unfinished /\
  stream_ok (stream_with [1; 2; 3]) /\
  read_call Suspending idle 1000 (bytes_of [0; 0; 0; 0]) 0 4
    (stream_with [1; 2; 3]) = Unfinished.
Proof.
  assert (Hok: stream_ok (closed_stream_with [1; 2; 3])) by concrete_stream_ok.
  assert (Hok': stream_ok (stream_with [1; 2; 3])) by concrete_stream_ok.
  split; [exact Hok|]. split; [|split; [exact Hok'|]].
  - apply (read_never_returns Blocking 1000 (bytes_of [0; 0]) 0 3 _ Hok).
    + by_evaluation.
    + by_evaluation.
    + right. by_evaluation.
  - apply (read_never_returns Suspending 1000 (bytes_of [0; 0; 0; 0]) 0 4 _ Hok').
    + by_evaluation.
    + by_evaluation.
    + left. by_evaluation.
Defined.

(** The read loop reaches its limit when both the room in the target and the
    buffered bytes cover it. *)
Lemma readSync_loop_reaches_limit (fuel : nat) :
  forall target offset limit bytesRead b,
    stream_ok b -> 0 <= offset -> 0 <= bytesRead ->
    offset + bytesRead <= Zlength' target ->
    limit - bytesRead <= used b ->
    limit - bytesRead <= Zlength' target - offset - bytesRead ->
    limit - bytesRead <= Z.of_nat fuel ->
    exists n t' b',
      readSync_loop idle fuel target offset limit bytesRead b =
        Returns (n, t') b' /\ limit <= n.
Proof.
  induction fuel as [|fuel IH];
    intros target offset limit bytesRead b Hok Hoff Hbr Hfit Hav Hroom Hfuel;
    cbn [readSync_loop];
    destruct (Z.ltb_spec bytesRead limit) as [Hlt|Hge]; try lia;
    try (unfold ret; eauto).
  assert (Hdata: rp b <> wp b).
  { rewrite <- empty_iff by assumption. lia. }
  unfold bind. rewrite readSync_wait_ready by assumption.
  destruct (readBytes_takes b target (offset + bytesRead) Hok Hdata ltac:(lia))
    as (n1 & b1 & E1 & Hn1 & Hr1 & Hpos & Hok1 & W1 & S1 & L1 & U1 & C1).
  rewrite E1.
  assert (Hl: Zlength' (set_at target (Z.to_nat (offset + bytesRead))
                          (firstn (Z.to_nat n1) (contents b))) = Zlength' target).
  { unfold Zlength'. now rewrite set_at_length. }
  pose proof (used_range b1 Hok1).
  apply IH; try assumption; rewrite ?Hl; lia.
Qed.

(** X6. On an idle channel a [read] or [readSync] whose limit is covered both
    by the room in the target and by the buffered bytes returns without
    waiting, and the count it returns is at least the limit (and, by the
    copy step, possibly more): a read is never short while enough bytes are
    buffered. *)
Theorem read_returns_at_least_limit (v : variant) (fuel : nat)
    (target : list byte) (offset limit : Z) (b : buffer) :
  stream_ok b -> state b <= 1 -> 0 <= offset <= Zlength' target ->
  offset + limit <= Zlength' target -> limit <= used b ->
  limit <= Z.of_nat fuel ->
  exists n t' b',
    read_call v idle fuel target offset limit b = Returns (n, t') b' /\
    limit <= n /\ n <= Z.min (Zlength' target - offset) (used b).
Proof.
  intros Hok Hst Hoff Hroom Hav Hfuel.
  destruct (readSync_loop_reaches_limit fuel target offset limit 0 b Hok)
    as (n & t' & b' & E & Hn); try lia.
  assert (Ecall: read_call v idle fuel target offset limit b = Returns (n, t') b').
  { rewrite read_call_blocking, readSync_open by assumption. exact E. }
  destruct (read_call_sound v fuel target offset limit b n t' b' Hok Hst Hoff Ecall)
    as (Hn' & Hfit & _).
  exists n, t', b'. conjs; try assumption; lia.
Qed.

Lemma read_returns_at_least_limit_witness :
  stream_ok (stream_with [1; 2; 3; 4; 5]) /\
  exists n t' b',
    read_call Blocking idle 3 (bytes_of [0; 0; 0; 0]) 0 3
      (stream_with [1; 2; 3; 4; 5]) = Returns (n, t') b' /\
    3 <= n /\ n <= Z.min (Zlength' (bytes_of [0; 0; 0; 0]) - 0)
                     (used (stream_with [1; 2; 3; 4; 5])).
Proof.
  assert (Hok: stream_ok (stream_with [1; 2; 3; 4; 5])) by concrete_stream_ok.
  split; [exact Hok|].
  apply (read_returns_at_least_limit Blocking 3 (bytes_of [0; 0; 0; 0]) 0 3 _ Hok).
  - by_evaluation.
  - by_evaluation.
  - by_evaluation.
  - by_evaluation.
  - by_evaluation.
Defined.

(** X7. With bytes buffered and a positive limit, a [read] or [readSync]
    whose offset is negative or beyond the end of the target throws a
    RangeError from the first copy step, before the read cursor is moved:
    the region is left exactly as it was. *)
Theorem read_rejects_offset_outside_target (v : variant) (env : interference)
    (fuel : nat) (target : list byte) (offset limit : Z) (b : buffer) :
  rp b <> wp b -> state b <= 1 -> 0 < limit ->
  offset < 0 \/ Zlength' target < offset ->
  read_call v env (S fuel) target offset limit b = Throws RangeError b.
Proof.
  intros Hdata Hst Hlim Hoff.
  rewrite read_call_blocking, readSync_open by assumption.
  cbn [readSync_loop].
  destruct (Z.ltb_spec 0 limit) as [_|Hge]; [|lia].
  unfold bind. rewrite readSync_wait_ready by assumption.
  unfold readBytes, bind. rewrite writePosition_run, readPosition_run.
  unfold target_set.
  match goal with
  | |- context [subarray ?d ?x ?y] => set (src := subarray d x y)
  end.
  assert (Hs: 0 <= Zlength' src) by (unfold Zlength'; lia).
  rewrite Z.add_0_r.
  destruct Hoff as [Hneg|Hbig].
  - destruct (Z.ltb_spec offset 0); [reflexivity|lia].
  - destruct (Z.ltb_spec offset 0); [reflexivity|].
    destruct (Z.gtb_spec (offset + Zlength' src) (Zlength' target));
      [reflexivity|lia].
Qed.

Lemma read_rejects_offset_outside_target_witness :
  rp (stream_with [1; 2; 3]) <> wp (stream_with [1; 2; 3]) /\
  read_call Blocking idle 1 (bytes_of [0; 0]) 3 1 (stream_with [1; 2; 3]) =
    Throws RangeError (stream_with [1; 2; 3]).
Proof.
  assert (Hd: rp (stream_with [1; 2; 3]) <> wp (stream_with [1; 2; 3]))
    by by_evaluation.
  split; [exact Hd|].
  apply (read_rejects_offset_outside_target Blocking idle 0 (bytes_of [0; 0]) 3 1
           _ Hd).
  - by_evaluation.
  - lia.
  - right. by_evaluation.
Defined.

(** ** Attaching to a region *)

(** X8. [new SyncAsyncStream(buffer)] throws for a region shorter than 48
    bytes and otherwise attaches without touching it: the region is kept
    byte for byte (the state of the stream is inherited), the data view
    starts at byte 12 and runs to the end.  In particular the counterpart
    can always attach to the region of a stream built from a size, whatever
    was done to it since, and gets the same two views. *)
Theorem attach_inherits_the_region (b : buffer) :
  ((length b < 48)%nat -> attach b = None) /\
  ((48 <= length b)%nat ->
   attach b =
   Some {| s_buffer := b;
           s_index := {| byteOffset := 0; viewLength := 12; bytesPerElement := 4 |};
           s_data := {| byteOffset := 12; viewLength := capacity b;
                        bytesPerElement := 1 |} |}) /\
  (forall (n : Z) (s : stream),
      constructor n = Some s -> length b = length (s_buffer s) ->
      attach b =
      Some {| s_buffer := b; s_index := s_index s; s_data := s_data s |}).
Proof.
  assert (Short: (length b < 48)%nat -> attach b = None).
  { intros H. unfold attach, new_Int32Array. change indexBytes with 12.
    change (negb (0 mod 4 =? 0)) with false. cbv iota. unfold Zlength'.
    destruct (Z.gtb_spec (0 + 12 * 4) (Z.of_nat (length b))); [reflexivity|lia]. }
  assert (Long: (48 <= length b)%nat ->
    attach b =
    Some {| s_buffer := b;
            s_index := {| byteOffset := 0; viewLength := 12; bytesPerElement := 4 |};
            s_data := {| byteOffset := 12; viewLength := capacity b;
                         bytesPerElement := 1 |} |}).
  { intros H. unfold attach, new_Int32Array, new_Uint8Array.
    change indexBytes with 12.
    change (negb (0 mod 4 =? 0)) with false. cbv iota. unfold Zlength'.
    destruct (Z.gtb_spec (0 + 12 * 4) (Z.of_nat (length b))); [lia|].
    destruct (Z.gtb_spec 12 (Z.of_nat (length b))); [lia|].
    rewrite capacity_length by lia. reflexivity. }
  split; [exact Short|]. split; [exact Long|].
  intros n s E L.
  destruct (Z_lt_le_dec n 36) as [Hn|Hn].
  - rewrite constructor_rejects in E by assumption. discriminate E.
  - rewrite constructor_succeeds in E by assumption.
    injection E as <-. cbn [s_buffer s_index s_data length] in *.
    rewrite repeat_length in L.
    rewrite Long by lia. rewrite capacity_length by lia.
    do 3 f_equal. lia.
Qed.

Lemma attach_inherits_the_region_witness :
  (48 <= length (stream_with [1; 2; 3]%Z))%nat /\
  (exists s, attach (stream_with [1; 2; 3]) = Some s /\
             s_buffer s = stream_with [1; 2; 3]) /\
  attach (repeat Byte.x00 47) = None.
Proof.
  assert (H: (48 <= length (stream_with [1; 2; 3]%Z))%nat) by by_evaluation.
  split; [exact H|]. split.
  - eexists. split.
    + apply (proj1 (proj2 (attach_inherits_the_region (stream_with [1; 2; 3])))).
      exact H.
    + reflexivity.
  - apply (proj1 (attach_inherits_the_region (repeat Byte.x00 47))).
    by_evaluation.
Defined.

(** ** The worker's device shims *)

Lemma heap_store_in_range (buffer : list byte) (i : Z) (v : byte) :
  0 <= i < Zlength' buffer ->
  Worker.heap_store buffer i v = set_at buffer (Z.to_nat i) [v].
Proof.
  intros H. unfold Worker.heap_store.
  destruct (Z.leb_spec 0 i); [|lia].
  destruct (Z.ltb_spec i (Zlength' buffer)); [reflexivity|lia].
Qed.

Lemma skipn_nth_cons {A} (d : A) (k : nat) : forall l : list A,
  (k < length l)%nat -> skipn k l = nth k l d :: skipn (S k) l.
Proof.
  induction k as [|k IH]; intros [|x l] H; simpl in H; try lia; [reflexivity|].
  simpl. apply IH. lia.
Qed.

Lemma copy_to_heap_in_range (steps : nat) :
  forall (i : Z) (buffer target : list byte) (offset : Z),
    0 <= offset -> 0 <= i ->
    i + Z.of_nat steps <= Zlength' target ->
    offset + i + Z.of_nat steps <= Zlength' buffer ->
    Worker.copy_to_heap steps i buffer target offset =
    set_at buffer (Z.to_nat (offset + i))
      (firstn steps (skipn (Z.to_nat i) target)).
Proof.
  induction steps as [|steps IH]; intros i buffer target offset Ho Hi Ht Hb.
  - simpl. now rewrite set_at_nil.
  - cbn [Worker.copy_to_heap].
    rewrite heap_store_in_range by lia.
    rewrite IH; try lia.
    2:{ unfold Zlength' in *. rewrite set_at_length. lia. }
    assert (Hsk: skipn (Z.to_nat i) target =
                 nth (Z.to_nat i) target Byte.x00 :: skipn (Z.to_nat (i + 1)) target).
    { replace (Z.to_nat (i + 1)) with (S (Z.to_nat i)) by lia.
      apply skipn_nth_cons. unfold Zlength' in *. lia. }
    rewrite Hsk. cbn [firstn].
    replace (Z.to_nat (offset + (i + 1)))
      with (Z.to_nat (offset + i) + length [nth (Z.to_nat i) target Byte.x00])%nat
      by (simpl; lia).
    rewrite set_at_app. reflexivity.
Qed.

(** X9. The worker's input device, on an idle channel: when its [read]
    callback returns, the count lies between 0 and [length] - never the -1
    sentinel and never more than asked for, because the stream is read into
    a scratch array of exactly [length] bytes - and, for a range that lies
    inside the heap, exactly the first [count] unread bytes of the stream
    have been placed at [buffer[offset ..]] and removed from the stream. *)
Theorem input_device_read_is_bounded (fuel : nat) (heap : list byte)
    (offset len n : Z) (heap' : list byte) (b b' : buffer) :
  stream_ok b -> 0 <= offset -> offset + len <= Zlength' heap ->
  Worker.input_read idle fuel heap offset len b = Returns (n, heap') b' ->
  0 <= n <= Z.min len (used b) /\
  heap' = set_at heap (Z.to_nat offset) (firstn (Z.to_nat n) (contents b)) /\
  contents b' = skipn (Z.to_nat n) (contents b) /\
  stream_ok b'.
Proof.
  intros Hok Hoff Hheap E.
  pose proof (used_range b Hok) as Hu.
  unfold Worker.input_read in E.
  destruct (Z.ltb_spec len 0) as [Hneg|Hlen]; [discriminate E|].
  unfold bind in E.
  set (target := repeat Byte.x00 (Z.to_nat len)) in *.
  assert (Ht: Zlength' target = len).
  { subst target. unfold Zlength'. rewrite repeat_length. lia. }
  destruct (Z_le_gt_dec (state b) 1) as [Hst|Heos].
  - destruct (readSync idle fuel target 0 len b) as [[m t'] b1| |] eqn:Er;
      try discriminate E.
    assert (Hwf: 0 <= 0 <= Zlength' target) by lia.
    destruct (read_call_sound Blocking fuel target 0 len b m t' b1 Hok Hst Hwf Er)
      as (Hm & Hfit & Ht' & Hslice & Hok1 & C & U & _).
    destruct (Z.ltb_spec m 0); [lia|].
    unfold ret in E. injection E as <- <- <-.
    assert (Hl': Zlength' t' = len).
    { rewrite Ht'. unfold Zlength' in *. rewrite set_at_length. exact Ht. }
    rewrite copy_to_heap_in_range by lia.
    simpl Z.to_nat in Hslice. rewrite skipn_O in *.
    rewrite Hslice, Z.add_0_r.
    conjs; try assumption; try lia; reflexivity.
  - pose proof (read_call_at_end_of_stream Blocking idle fuel target 0 len b
                  ltac:(lia)) as Hend.
    cbn [read_call] in Hend. rewrite Hend in E.
    change (-1 <? 0) with true in E. cbv iota in E.
    unfold ret in E. injection E as <- <- <-.
    simpl. rewrite set_at_nil. conjs; try assumption; try lia; reflexivity.
Qed.

Lemma input_device_read_is_bounded_witness :
  stream_ok (stream_with [1; 2; 3; 4; 5]) /\
  Worker.input_read idle 4 (bytes_of [9; 9; 9; 9; 9; 9]) 2 3
    (stream_with [1; 2; 3; 4; 5]) =
    Returns (3, bytes_of [9; 9; 1; 2; 3; 9])
      (after (Worker.input_read idle 4 (bytes_of [9; 9; 9; 9; 9; 9]) 2 3)
         (stream_with [1; 2; 3; 4; 5])) /\
  0 <= 3 <= Z.min 3 (used (stream_with [1; 2; 3; 4; 5])).
Proof.
  assert (Hok: stream_ok (stream_with [1; 2; 3; 4; 5])) by concrete_stream_ok.
  assert (E: Worker.input_read idle 4 (bytes_of [9; 9; 9; 9; 9; 9]) 2 3
               (stream_with [1; 2; 3; 4; 5]) =
             Returns (3, bytes_of [9; 9; 1; 2; 3; 9])
               (after (Worker.input_read idle 4 (bytes_of [9; 9; 9; 9; 9; 9]) 2 3)
                  (stream_with [1; 2; 3; 4; 5])))
    by (vm_compute; reflexivity).
  assert (Ho: 0 <= 2) by lia.
  assert (Hh: 2 + 3 <= Zlength' (bytes_of [9; 9; 9; 9; 9; 9])) by by_evaluation.
  split; [exact Hok|]. split; [exact E|].
  exact (proj1 (input_device_read_is_bounded _ _ _ _ _ _ _ _ Hok Ho Hh E)).
Defined.

Lemma input_read_after_readSync (env : interference) (fuel : nat)
    (heap : list byte) (offset len m : Z) (t' : list byte) (b b1 : buffer) :
  0 <= len ->
  readSync env fuel (repeat Byte.x00 (Z.to_nat len)) 0 len b = Returns (m, t') b1 ->
  Worker.input_read env fuel heap offset len b =
  Returns (Z.max m 0, Worker.copy_to_heap (Z.to_nat m) 0 heap t' offset) b1.
Proof.
  intros Hlen E. unfold Worker.input_read.
  destruct (Z.ltb_spec len 0); [lia|].
  unfold bind. rewrite E.
  destruct (Z.ltb_spec m 0); unfold ret; do 2 f_equal; lia.
Qed.

Lemma heap_store_length (buffer : list byte) (i : Z) (v : byte) :
  length (Worker.heap_store buffer i v) = length buffer.
Proof.
  unfold Worker.heap_store. destruct (_ && _); [apply set_at_length|reflexivity].
Qed.

Lemma copy_to_heap_length (steps : nat) :
  forall (i : Z) (buffer target : list byte) (offset : Z),
    length (Worker.copy_to_heap steps i buffer target offset) = length buffer.
Proof.
  induction steps as [|steps IH]; intros i buffer target offset;
    cbn [Worker.copy_to_heap]; [reflexivity|].
  rewrite IH. apply heap_store_length.
Qed.

(** What a returning [read] callback has put on the heap, for a range that
    lies inside it. *)
Lemma input_read_places_prefix (fuel : nat) (heap : list byte)
    (offset len n : Z) (heap' : list byte) (b b' : buffer) :
  stream_ok b -> 0 <= offset -> offset + len <= Zlength' heap ->
  Worker.input_read idle fuel heap offset len b = Returns (n, heap') b' ->
  heap' = set_at heap (Z.to_nat offset) (firstn (Z.to_nat n) (contents b)).
Proof.
  intros Hok Hoff Hheap E.
  pose proof (used_range b Hok) as Hu.
  unfold Worker.input_read in E.
  destruct (Z.ltb_spec len 0) as [Hneg|Hlen]; [discriminate E|].
  unfold bind in E.
  set (target := repeat Byte.x00 (Z.to_nat len)) in *.
  assert (Ht: Zlength' target = len).
  { subst target. unfold Zlength'. rewrite repeat_length. lia. }
  destruct (Z_le_gt_dec (state b) 1) as [Hst|Heos].
  - destruct (readSync idle fuel target 0 len b) as [[m t'] b1| |] eqn:Er;
      try discriminate E.
    assert (Hwf: 0 <= 0 <= Zlength' target) by lia.
    destruct (read_call_sound Blocking fuel target 0 len b m t' b1 Hok Hst Hwf Er)
      as (Hm & Hfit & Ht' & Hslice & _).
    destruct (Z.ltb_spec m 0); [lia|].
    unfold ret in E. injection E as <- <- <-.
    assert (Hl': Zlength' t' = len).
    { rewrite Ht'. unfold Zlength' in *. rewrite set_at_length. exact Ht. }
    rewrite copy_to_heap_in_range by lia.
    simpl Z.to_nat in Hslice. rewrite skipn_O in *.
    rewrite Hslice, Z.add_0_r. reflexivity.
  - pose proof (read_call_at_end_of_stream Blocking idle fuel target 0 len b
                  ltac:(lia)) as Hend.
    cbn [read_call] in Hend. rewrite Hend in E.
    change (-1 <? 0) with true in E. cbv iota in E.
    unfold ret in E. injection E as <- <- <-.
    simpl. rewrite set_at_nil. reflexivity.
Qed.

(** X10. Once the producer has closed the stream, the worker's input device
    reads like a file on an idle channel: every [read] callback returns at
    once with exactly n = min(length, bytes left); the heap keeps its length
    and, for a range that lies inside it, holds exactly the n oldest unread
    bytes at [buffer[offset ..]], in order, with every other byte untouched;
    those bytes are removed from the stream, so that every read after the
    last byte returns 0, whether or not end-of-stream has been latched yet;
    the stream stays in that regime. *)
Theorem input_device_reads_like_a_file (fuel : nat) (heap : list byte)
    (offset len : Z) (b : buffer) :
  winding_down b -> 0 <= len -> used b < Z.of_nat fuel ->
  exists heap' b',
    Worker.input_read idle fuel heap offset len b =
      Returns (Z.min len (used b), heap') b' /\
    length heap' = length heap /\
    (0 <= offset -> offset + len <= Zlength' heap ->
     heap' = set_at heap (Z.to_nat offset)
               (firstn (Z.to_nat (Z.min len (used b))) (contents b))) /\
    winding_down b' /\
    contents b' = skipn (Z.to_nat (Z.min len (used b))) (contents b) /\
    used b' = used b - Z.min len (used b).
Proof.
  intros (Hok & Hcl & Hdrained) Hlen Hfuel.
  pose proof (used_range b Hok) as Hu.
  pose proof Hok as (_ & _ & _ & _ & Hs).
  set (target := repeat Byte.x00 (Z.to_nat len)).
  assert (Ht: Zlength' target = len).
  { subst target. unfold Zlength'. rewrite repeat_length. lia. }
  assert (Hwf: 0 <= 0 <= Zlength' target) by lia.
  assert (Core: exists heap' b',
            Worker.input_read idle fuel heap offset len b =
              Returns (Z.min len (used b), heap') b' /\
            length heap' = length heap /\
            winding_down b' /\
            contents b' = skipn (Z.to_nat (Z.min len (used b))) (contents b) /\
            used b' = used b - Z.min len (used b)).
  { destruct (Z_le_gt_dec (state b) 1) as [Hst|Heos].
    - assert (Returned: forall m t' b1,
          readSync idle fuel target 0 len b = Returns (m, t') b1 ->
          m = Z.min len (used b) ->
          exists heap' b',
            Worker.input_read idle fuel heap offset len b =
              Returns (Z.min len (used b), heap') b' /\
            length heap' = length heap /\
            winding_down b' /\
            contents b' = skipn (Z.to_nat (Z.min len (used b))) (contents b) /\
            used b' = used b - Z.min len (used b)).
      { intros m t' b1 Er Hm.
        destruct (read_call_sound Blocking fuel target 0 len b m t' b1 Hok Hst Hwf Er)
          as (Hm' & _ & _ & _ & Hok1 & C & U & _ & _ & S).
        rewrite (input_read_after_readSync idle fuel heap offset len m t' b b1 Hlen Er).
        rewrite Z.max_l by lia. subst m.
        eexists. exists b1. split; [reflexivity|].
        split; [apply copy_to_heap_length|].
        split; [|split; assumption].
        unfold winding_down. split; [assumption|].
        destruct S as [S|(_ & U0 & S)].
        - rewrite S. split; [assumption|]. intros; lia.
        - assert (Hone: state b = 1) by lia.
          rewrite S, Hone. split; [discriminate|]. intros _. exact U0. }
      destruct (Z_le_gt_dec len (used b)) as [Hfill|Hdrain].
      + destruct (readSync_loop_fills fuel target 0 len 0 b Hok)
          as (t' & b1 & E1); try lia.
        apply (Returned len t' b1); [|lia].
        rewrite readSync_open by assumption. exact E1.
      + destruct (readSync_loop_drains fuel target 0 len 0 b Hok)
          as (t' & b1 & E1 & _); try lia.
        apply (Returned (used b) t' b1); [|lia].
        rewrite readSync_open by assumption. exact E1.
    - pose proof (read_call_at_end_of_stream Blocking idle fuel target 0 len b
                    ltac:(lia)) as Hend.
      cbn [read_call] in Hend.
      rewrite (input_read_after_readSync idle fuel heap offset len _ _ b b Hlen Hend).
      specialize (Hdrained Heos).
      rewrite Hdrained, Z.min_r by lia.
      eexists. exists b. split; [reflexivity|].
      split; [apply copy_to_heap_length|].
      split; [|split; [reflexivity|lia]].
      unfold winding_down. split; [assumption|]. split; [assumption|].
      intros _. exact Hdrained. }
  destruct Core as (heap' & b' & E & Hl & Hw & C & U).
  exists heap', b'. conjs; try assumption.
  intros Hoff Hheap.
  exact (input_read_places_prefix fuel heap offset len _ heap' b b'
           Hok Hoff Hheap E).
Qed.

Lemma input_device_reads_like_a_file_witness :
  winding_down (closed_stream_with [1; 2; 3]) /\
  exists heap' b',
    Worker.input_read idle 4 (bytes_of [9; 9; 9; 9]) 1 2
      (closed_stream_with [1; 2; 3]) =
      Returns (Z.min 2 (used (closed_stream_with [1; 2; 3])), heap') b' /\
    heap' = bytes_of [9; 1; 2; 9] /\
    winding_down b'.
Proof.
  assert (Hw: winding_down (closed_stream_with [1; 2; 3])).
  { unfold winding_down. split; [concrete_stream_ok|].
    split; [by_evaluation|]. intros H. vm_compute in H. discriminate H. }
  split; [exact Hw|].
  destruct (input_device_reads_like_a_file 4 (bytes_of [9; 9; 9; 9]) 1 2 _ Hw)
    as (heap' & b' & E & _ & Hheap & Hw' & _).
  { lia. }
  { by_evaluation. }
  exists heap', b'. split; [exact E|]. split; [|exact Hw'].
  rewrite Hheap.
  - vm_compute. reflexivity.
  - lia.
  - by_evaluation.
Defined.

(** X11. The worker's output device, on an idle channel: when its [write]
    callback returns, the count is the length of the heap slice
    [buffer.slice(offset, offset + length)] - [length] itself when the range
    lies inside the heap - and exactly that slice has been appended to the
    unread contents of the stream; the stream stays well-formed. *)
Theorem output_device_write_appends_the_slice (fuel : nat) (heap : list byte)
    (offset len n : Z) (b b' : buffer) :
  stream_ok b ->
  Worker.output_write idle fuel heap offset len b = Returns n b' ->
  n = Zlength' (subarray heap offset (offset + len)) /\
  contents b' = contents b ++ subarray heap offset (offset + len) /\
  stream_ok b' /\
  (0 <= offset -> 0 <= len -> offset + len <= Zlength' heap ->
   n = len /\
   subarray heap offset (offset + len) =
     firstn (Z.to_nat len) (skipn (Z.to_nat offset) heap)).
Proof.
  intros Hok E. unfold Worker.output_write, writeSync in E.
  set (slice := subarray heap offset (offset + len)) in *.
  assert (Hs: 0 <= 0 <= Zlength' slice) by (unfold Zlength'; lia).
  pose proof (writeSync_loop_idle fuel slice 0 b Hok Hs) as H.
  rewrite E in H. destruct H as (Hn & _ & Hok' & _ & _ & _ & C).
  simpl skipn in C.
  conjs; try assumption.
  intros Ho Hl Hfit.
  assert (Hsl: slice = firstn (Z.to_nat len) (skipn (Z.to_nat offset) heap)).
  { subst slice. apply subarray_range; assumption. }
  split; [|exact Hsl].
  rewrite Hn, Hsl. unfold Zlength' in *.
  rewrite length_firstn, length_skipn. lia.
Qed.

Lemma output_device_write_appends_the_slice_witness :
  stream_ok (stream_with [1; 2]) /\
  Worker.output_write idle 4 (bytes_of [5; 6; 7; 8]) 1 2 (stream_with [1; 2]) =
    Returns 2 (stream_with [1; 2; 6; 7]) /\
  contents (stream_with [1; 2; 6; 7]) =
    contents (stream_with [1; 2]) ++ subarray (bytes_of [5; 6; 7; 8]) 1 (1 + 2).
Proof.
  assert (Hok: stream_ok (stream_with [1; 2])) by concrete_stream_ok.
  assert (E: Worker.output_write idle 4 (bytes_of [5; 6; 7; 8]) 1 2
               (stream_with [1; 2]) = Returns 2 (stream_with [1; 2; 6; 7]))
    by (vm_compute; reflexivity).
  split; [exact Hok|]. split; [exact E|].
  exact (proj1 (proj2 (output_device_write_appends_the_slice _ _ _ _ _ _ _ Hok E))).
Defined.

(** ** The stream registry of the [FFmpeg] class *)

Lemma map_get_set_same (m : stream_map) (k : Z) (v : buffer) :
  map_get (map_set m k v) k = Some v.
Proof.
  unfold map_get.
  induction m as [|[k' v'] m IH]; simpl.
  - now rewrite Z.eqb_refl.
  - destruct (Z.eqb_spec k' k) as [->|Hne]; simpl.
    + now rewrite Z.eqb_refl.
    + destruct (Z.eqb_spec k' k); [contradiction|]. exact IH.
Qed.

Lemma map_get_set_other (m : stream_map) (k k' : Z) (v : buffer) :
  k' <> k -> map_get (map_set m k v) k' = map_get m k'.
Proof.
  intros Hne. unfold map_get.
  induction m as [|[k0 v0] m IH]; simpl.
  - destruct (Z.eqb_spec k k'); [congruence|reflexivity].
  - destruct (Z.eqb_spec k0 k) as [->|Hk]; simpl.
    + destruct (Z.eqb_spec k k'); [congruence|reflexivity].
    + destruct (Z.eqb_spec k0 k'); [reflexivity|exact IH].
Qed.

Lemma map_set_same_value (m : stream_map) (k : Z) (v : buffer) :
  map_get m k = Some v -> map_set m k v = m.
Proof.
  unfold map_get.
  induction m as [|[k0 v0] m IH]; simpl; [discriminate|].
  destruct (Z.eqb_spec k0 k) as [->|Hk]; simpl.
  - intros E. injection E as ->. reflexivity.
  - intros E. now rewrite IH.
Qed.

Lemma map_set_keys (m : stream_map) (k : Z) (v w : buffer) :
  map_get m k = Some w -> map fst (map_set m k v) = map fst m.
Proof.
  unfold map_get.
  induction m as [|[k0 v0] m IH]; simpl; [discriminate|].
  destruct (Z.eqb_spec k0 k) as [->|Hk]; simpl.
  - reflexivity.
  - intros E. now rewrite IH.
Qed.

Lemma map_get_map_values (f : buffer -> buffer) (m : stream_map) (k : Z) :
  map_get (map (fun p => (fst p, f (snd p))) m) k = option_map f (map_get m k).
Proof.
  unfold map_get.
  induction m as [|[k0 v0] m IH]; simpl; [reflexivity|].
  destruct (k0 =? k); [reflexivity|exact IH].
Qed.

Import FFmpeg.

(** X12. [writeToInputStream]: for a descriptor that is not registered it
    throws ERROR_STREAM_FAILURE and changes nothing.  When it completes on an
    idle channel it has acted on the stream registered under that descriptor
    only: a [null] source returns 0 and closes that stream with its unread
    bytes kept, a byte source returns its length and is appended whole; every
    other input stream, the output streams and the listeners are as before. *)
Theorem writeToInputStream_acts_on_one_stream (fuel : nat) (stream : Z)
    (source : option (list byte)) (s : ffmpeg) :
  (map_get (inputStreams s) stream = None ->
   writeToInputStream idle fuel stream source s = Raised ERROR_STREAM_FAILURE s) /\
  (forall (b : buffer) (r : Z) (s' : ffmpeg),
      map_get (inputStreams s) stream = Some b -> stream_ok b ->
      writeToInputStream idle fuel stream source s = Done r s' ->
      exists b',
        map_get (inputStreams s') stream = Some b' /\ stream_ok b' /\
        (forall k, k <> stream ->
                   map_get (inputStreams s') k = map_get (inputStreams s) k) /\
        map fst (inputStreams s') = map fst (inputStreams s) /\
        outputStreams s' = outputStreams s /\
        logEventCallbacks s' = logEventCallbacks s /\
        progressEventCallbacks s' = progressEventCallbacks s /\
        match source with
        | Some src =>
            r = Zlength' src /\ contents b' = contents b ++ src /\
            state b' = state b
        | None =>
            r = 0 /\ contents b' = contents b /\ state b' = Z.lor (state b) 1
        end).
Proof.
  split.
  - intros Hnone. unfold writeToInputStream. now rewrite Hnone.
  - intros b r s' Hget Hok E. unfold writeToInputStream in E. rewrite Hget in E.
    destruct source as [src|].
    + assert (Hs: 0 <= 0 <= Zlength' src) by (unfold Zlength'; lia).
      pose proof (writeSync_loop_idle fuel src 0 b Hok Hs) as H.
      rewrite write_eq in E. unfold writeSync in E.
      destruct (writeSync_loop idle fuel src 0 b) as [n b'| |];
        try discriminate E.
      injection E as <- <-.
      destruct H as (Hn & _ & Hok' & _ & S & _ & C). simpl skipn in C.
      exists b'. cbn [inputStreams outputStreams logEventCallbacks
                      progressEventCallbacks with_inputs].
      conjs; try reflexivity; try assumption.
      * apply map_get_set_same.
      * intros k Hk. now apply map_get_set_other.
      * now apply map_set_keys with (w := b).
    + injection E as <- <-.
      destruct (close_effect b Hok)
        as (b' & Ec & Hok' & S & _ & _ & _ & _ & _ & C & _).
      unfold after. rewrite Ec.
      exists b'. cbn [inputStreams outputStreams logEventCallbacks
                      progressEventCallbacks with_inputs].
      conjs; try reflexivity; try assumption.
      * apply map_get_set_same.
      * intros k Hk. now apply map_get_set_other.
      * now apply map_set_keys with (w := b).
Qed.

Lemma writeToInputStream_acts_on_one_stream_witness :
  writeToInputStream idle 4 7 (Some (bytes_of [1; 2]))
    {| logEventCallbacks := []; progressEventCallbacks := [];
       inputStreams := [(3, stream_with [9])]; outputStreams := [] |} =
    Raised ERROR_STREAM_FAILURE
      {| logEventCallbacks := []; progressEventCallbacks := [];
         inputStreams := [(3, stream_with [9])]; outputStreams := [] |} /\
  stream_ok (stream_with [9]) /\
  exists b',
    map_get
      (inputStreams
         {| logEventCallbacks := []; progressEventCallbacks := [];
            inputStreams := [(3, stream_with [9; 1; 2])];
            outputStreams := [] |}) 3 = Some b' /\
    contents b' = contents (stream_with [9]) ++ bytes_of [1; 2].
Proof.
  assert (Hok: stream_ok (stream_with [9])) by concrete_stream_ok.
  split; [|split; [exact Hok|]].
  - apply (proj1 (writeToInputStream_acts_on_one_stream 4 7
                    (Some (bytes_of [1; 2])) _)).
    reflexivity.
  - assert (E: writeToInputStream idle 4 3 (Some (bytes_of [1; 2]))
                 {| logEventCallbacks := []; progressEventCallbacks := [];
                    inputStreams := [(3, stream_with [9])];
                    outputStreams := [] |} =
               Done 2
                 {| logEventCallbacks := []; progressEventCallbacks := [];
                    inputStreams := [(3, stream_with [9; 1; 2])];
                    outputStreams := [] |})
      by (vm_compute; reflexivity).
    assert (G: map_get
                 (inputStreams
                    {| logEventCallbacks := []; progressEventCallbacks := [];
                       inputStreams := [(3, stream_with [9])];
                       outputStreams := [] |}) 3 = Some (stream_with [9]))
      by reflexivity.
    destruct (proj2 (writeToInputStream_acts_on_one_stream 4 3
                       (Some (bytes_of [1; 2])) _) _ _ _ G Hok E)
      as (b' & G' & _ & _ & _ & _ & _ & _ & _ & C & _).
    exists b'. split; [exact G'|exact C].
Defined.

Lemma with_outputs_same (s : ffmpeg) : with_outputs (outputStreams s) s = s.
Proof. now destruct s. Qed.

(** X13. [readFromOutputStream]: for a descriptor that is not registered it
    throws ERROR_STREAM_FAILURE and changes nothing; on a stream that has
    reached end-of-stream it returns -1 and leaves the whole object, target
    included, unchanged; otherwise, when it completes on an idle channel, the
    count it returns is the number of bytes moved from the front of that
    stream's unread contents into [target[offset ..]], and the other output
    streams and the input streams are as before. *)
Theorem readFromOutputStream_acts_on_one_stream (fuel : nat) (stream : Z)
    (target : list byte) (offset limit : Z) (s : ffmpeg) :
  (map_get (outputStreams s) stream = None ->
   readFromOutputStream idle fuel stream target offset limit s =
     Raised ERROR_STREAM_FAILURE s) /\
  (forall b : buffer,
      map_get (outputStreams s) stream = Some b -> state b > 1 ->
      readFromOutputStream idle fuel stream target offset limit s =
        Done (-1, target) s) /\
  (forall (b : buffer) (n : Z) (t' : list byte) (s' : ffmpeg),
      map_get (outputStreams s) stream = Some b ->
      stream_ok b -> state b <= 1 -> 0 <= offset <= Zlength' target ->
      readFromOutputStream idle fuel stream target offset limit s =
        Done (n, t') s' ->
      exists b',
        map_get (outputStreams s') stream = Some b' /\ stream_ok b' /\
        0 <= n <= Z.min (Zlength' target - offset) (used b) /\
        t' = set_at target (Z.to_nat offset) (firstn (Z.to_nat n) (contents b)) /\
        contents b' = skipn (Z.to_nat n) (contents b) /\
        (forall k, k <> stream ->
                   map_get (outputStreams s') k = map_get (outputStreams s) k) /\
        inputStreams s' = inputStreams s).
Proof.
  split; [|split].
  - intros Hnone. unfold readFromOutputStream. now rewrite Hnone.
  - intros b Hget Heos. unfold readFromOutputStream. rewrite Hget.
    pose proof (read_call_at_end_of_stream Suspending idle fuel target offset
                  limit b Heos) as E.
    cbn [read_call] in E. rewrite E.
    rewrite map_set_same_value by assumption.
    now rewrite with_outputs_same.
  - intros b n t' s' Hget Hok Hst Hoff E.
    unfold readFromOutputStream in E. rewrite Hget in E.
    destruct (read idle fuel target offset limit b) as [[m t1] b'| |] eqn:Er;
      try discriminate E.
    injection E as <- <- <-.
    destruct (read_call_sound Suspending fuel target offset limit b m t1 b'
                Hok Hst Hoff Er)
      as (Hm & Hfit & Ht & _ & Hok' & C & _).
    exists b'. cbn [inputStreams outputStreams with_outputs].
    conjs; try reflexivity; try assumption; try lia.
    + apply map_get_set_same.
    + intros k Hk. now apply map_get_set_other.
Qed.

Lemma readFromOutputStream_acts_on_one_stream_witness :
  state (ended_stream [7; 8]) > 1 /\
  readFromOutputStream idle 4 5 (bytes_of [0; 0]) 0 2
    {| logEventCallbacks := []; progressEventCallbacks := [];
       inputStreams := []; outputStreams := [(5, ended_stream [7; 8])] |} =
    Done (-1, bytes_of [0; 0])
      {| logEventCallbacks := []; progressEventCallbacks := [];
         inputStreams := []; outputStreams := [(5, ended_stream [7; 8])] |} /\
  readFromOutputStream idle 4 6 (bytes_of [0; 0]) 0 2
    {| logEventCallbacks := []; progressEventCallbacks := [];
       inputStreams := []; outputStreams := [(5, ended_stream [7; 8])] |} =
    Raised ERROR_STREAM_FAILURE
      {| logEventCallbacks := []; progressEventCallbacks := [];
         inputStreams := []; outputStreams := [(5, ended_stream [7; 8])] |}.
Proof.
  assert (Heos: state (ended_stream [7; 8]) > 1) by by_evaluation.
  split; [exact Heos|]. split.
  - apply (proj1 (proj2 (readFromOutputStream_acts_on_one_stream 4 5
                           (bytes_of [0; 0]) 0 2 _)) (ended_stream [7; 8])).
    + reflexivity.
    + exact Heos.
  - apply (proj1 (readFromOutputStream_acts_on_one_stream 4 6
                    (bytes_of [0; 0]) 0 2 _)).
    reflexivity.
Defined.

(** X14. [addInputStream(size)] throws a RangeError and registers nothing
    for every size below 36 bytes.  For a size from 36 up (the default 4096
    included) it registers, under the descriptor the worker answered, a
    well-formed, empty, open stream of that capacity - replacing whatever was
    registered there, leaving the other descriptors alone - and a following
    [writeToInputStream] of up to size - 1 bytes to that descriptor completes
    with the full length on an idle channel. *)
Theorem addInputStream_registers_a_usable_stream (size fd : Z) (s : ffmpeg) :
  (size < 36 ->
   addInputStream size fd s = Raised (StreamError RangeError) s) /\
  (36 <= size <= 2 ^ 31 ->
   exists s',
     addInputStream size fd s = Done fd s' /\
     map_get (inputStreams s') fd = Some (fresh size) /\
     stream_ok (fresh size) /\ capacity (fresh size) = size /\
     contents (fresh size) = [] /\ state (fresh size) = 0 /\
     (forall k, k <> fd ->
                map_get (inputStreams s') k = map_get (inputStreams s) k) /\
     outputStreams s' = outputStreams s /\
     forall (source : list byte) (fuel : nat),
       Zlength' source <= size - 1 -> Zlength' source <= Z.of_nat fuel ->
       exists s'' b',
         writeToInputStream idle fuel fd (Some source) s' =
           Done (Zlength' source) s'' /\
         map_get (inputStreams s'') fd = Some b' /\ contents b' = source).
Proof.
  split.
  - intros Hn. unfold addInputStream. now rewrite constructor_rejects.
  - intros Hn.
    destruct (fresh_stream_ok size Hn) as (Hok & Hc & R & W & S & C).
    unfold addInputStream.
    assert (Ef: constructor size =
                Some {| s_buffer := fresh size;
                        s_index := {| byteOffset := 0; viewLength := 12;
                                      bytesPerElement := 4 |};
                        s_data := {| byteOffset := 12; viewLength := size;
                                     bytesPerElement := 1 |} |}).
    { unfold fresh. rewrite constructor_succeeds by lia. reflexivity. }
    rewrite Ef. cbn [s_buffer].
    eexists. split; [reflexivity|].
    cbn [inputStreams outputStreams with_inputs].
    conjs; try assumption; try reflexivity.
    + apply map_get_set_same.
    + intros k Hk. now apply map_get_set_other.
    + intros source fuel Hfit Hfuel.
      assert (Hu: used (fresh size) = 0).
      { apply empty_iff; [assumption|congruence]. }
      assert (Hs: 0 <= Zlength' source) by (unfold Zlength'; lia).
      destruct (writeSync_loop_fits idle fuel source 0 (fresh size) Hok)
        as (b1 & E1 & Hok1 & _ & _ & _ & _ & C1); try lia.
      unfold writeToInputStream. cbn [inputStreams with_inputs].
      rewrite map_get_set_same, write_eq. unfold writeSync. rewrite E1.
      eexists. exists b1. split; [reflexivity|].
      cbn [inputStreams with_inputs].
      split; [apply map_get_set_same|].
      rewrite C1, C. reflexivity.
Qed.

Lemma addInputStream_registers_a_usable_stream_witness :
  addInputStream 35 3
    {| logEventCallbacks := []; progressEventCallbacks := [];
       inputStreams := []; outputStreams := [] |} =
    Raised (StreamError RangeError)
      {| logEventCallbacks := []; progressEventCallbacks := [];
         inputStreams := []; outputStreams := [] |} /\
  exists s',
    addInputStream 4096 3
      {| logEventCallbacks := []; progressEventCallbacks := [];
         inputStreams := []; outputStreams := [] |} = Done 3 s' /\
    map_get (inputStreams s') 3 = Some (fresh 4096).
Proof.
  split.
  - apply (proj1 (addInputStream_registers_a_usable_stream 35 3 _)). lia.
  - destruct (proj2 (addInputStream_registers_a_usable_stream 4096 3
                       {| logEventCallbacks := []; progressEventCallbacks := [];
                          inputStreams := []; outputStreams := [] |}))
      as (s' & E & G & _).
    { lia. }
    exists s'. split; [exact E|exact G].
Defined.

Lemma map_keys_map_values (f : buffer -> buffer) (m : stream_map) :
  map fst (map (fun p => (fst p, f (snd p))) m) = map fst m.
Proof. rewrite map_map. reflexivity. Qed.

(** X15. [resetStreams()] resets every registered stream, input and output
    alike, and nothing else: the descriptors stay registered in the same
    order, the listeners are kept, and every region of at least 48 bytes
    (capacity up to 2^31) comes out as a well-formed, empty, open stream of
    the same capacity - unread bytes are dropped, closed and end-of-stream
    are cleared. *)
Theorem resetStreams_empties_every_stream (s : ffmpeg) :
  map fst (inputStreams (resetStreams s)) = map fst (inputStreams s) /\
  map fst (outputStreams (resetStreams s)) = map fst (outputStreams s) /\
  logEventCallbacks (resetStreams s) = logEventCallbacks s /\
  progressEventCallbacks (resetStreams s) = progressEventCallbacks s /\
  forall (fd : Z) (b : buffer),
    (48 <= length b)%nat -> capacity b <= 2 ^ 31 ->
    (map_get (inputStreams s) fd = Some b ->
     exists b',
       map_get (inputStreams (resetStreams s)) fd = Some b' /\
       stream_ok b' /\ state b' = 0 /\ contents b' = [] /\
       capacity b' = capacity b /\ data b' = data b) /\
    (map_get (outputStreams s) fd = Some b ->
     exists b',
       map_get (outputStreams (resetStreams s)) fd = Some b' /\
       stream_ok b' /\ state b' = 0 /\ contents b' = [] /\
       capacity b' = capacity b /\ data b' = data b).
Proof.
  unfold resetStreams.
  cbn [inputStreams outputStreams logEventCallbacks progressEventCallbacks].
  rewrite !map_keys_map_values.
  conjs; try reflexivity.
  intros fd b Hlen Hcap.
  assert (Fresh: exists b',
             after reset b = b' /\ stream_ok b' /\ state b' = 0 /\
             contents b' = [] /\ capacity b' = capacity b /\ data b' = data b).
  { destruct (reset_effect b ltac:(lia)) as (b0 & E0 & R0 & W0 & S0 & D0 & L0 & C0).
    assert (Hc: 36 <= capacity b) by (rewrite capacity_length; lia).
    assert (Hok0: stream_ok b0).
    { unfold stream_ok. rewrite R0, W0, S0, C0, L0. conjs; lia. }
    destruct (empty_contents b0 Hok0 ltac:(congruence)) as (_ & Cn0).
    exists b0. unfold after. rewrite E0. conjs; auto. }
  destruct Fresh as (b' & Eb & Hok & S & C & Cap & D).
  split; intros Hget; exists b'; rewrite map_get_map_values, Hget;
    cbn [option_map]; rewrite Eb; conjs; auto.
Qed.

Lemma resetStreams_empties_every_stream_witness :
  (48 <= length (ended_stream [7; 8]%Z))%nat /\
  capacity (ended_stream [7; 8]) <= 2 ^ 31 /\
  exists b',
    map_get
      (outputStreams
         (resetStreams
            {| logEventCallbacks := []; progressEventCallbacks := [];
               inputStreams := [(3, stream_with [1; 2; 3])];
               outputStreams := [(4, ended_stream [7; 8])] |})) 4 = Some b' /\
    stream_ok b' /\ state b' = 0 /\ contents b' = [].
Proof.
  assert (Hl: (48 <= length (ended_stream [7; 8]%Z))%nat) by by_evaluation.
  assert (Hc: capacity (ended_stream [7; 8]) <= 2 ^ 31) by by_evaluation.
  split; [exact Hl|]. split; [exact Hc|].
  destruct (resetStreams_empties_every_stream
              {| logEventCallbacks := []; progressEventCallbacks := [];
                 inputStreams := [(3, stream_with [1; 2; 3])];
                 outputStreams := [(4, ended_stream [7; 8])] |})
    as (_ & _ & _ & _ & H).
  destruct (proj2 (H 4 (ended_stream [7; 8]) Hl Hc) eq_refl)
    as (b' & G & Hok & S & C & _).
  exists b'. conjs; assumption.
Defined.

(** ** Listeners *)

Lemma filter_other_app (cb : callback) (l : list callback) :
  ~ In cb l ->
  filter (fun f => negb (f =? cb)%nat) (l ++ [cb]) = l.
Proof.
  intros Hnot. rewrite filter_app. simpl. rewrite Nat.eqb_refl. simpl.
  rewrite app_nil_r.
  induction l as [|x l IH]; [reflexivity|].
  simpl. destruct (Nat.eqb_spec x cb) as [->|Hne].
  - exfalso. apply Hnot. now left.
  - simpl. f_equal. apply IH. intros H. apply Hnot. now right.
Qed.

(** X16. [off(event, callback)] removes every registration of the callback
    for that event, however many times [on] was called with it, keeps the
    other callbacks of the event in their order, and touches neither the
    other event's list nor the streams; applied right after
    [on(event, callback)] for a callback that was not registered before, it
    gives back the object as it was. *)
Theorem off_removes_every_registration (ev : event) (cb : callback) (s : ffmpeg) :
  ~ In cb (callbacks_of ev (off ev cb s)) /\
  (forall f, f <> cb ->
     count_occ Nat.eq_dec (callbacks_of ev (off ev cb s)) f =
     count_occ Nat.eq_dec (callbacks_of ev s) f) /\
  (forall ev', ev' <> ev ->
     callbacks_of ev' (off ev cb s) = callbacks_of ev' s) /\
  inputStreams (off ev cb s) = inputStreams s /\
  outputStreams (off ev cb s) = outputStreams s /\
  off ev cb (on ev cb (on ev cb s)) = off ev cb s /\
  (~ In cb (callbacks_of ev s) -> off ev cb (on ev cb s) = s).
Proof.
  assert (NotIn: forall l,
             ~ In cb (filter (fun f => negb (f =? cb)%nat) l)).
  { intros l H. apply filter_In in H. destruct H as (_ & H).
    rewrite Nat.eqb_refl in H. discriminate H. }
  assert (Count: forall l f, f <> cb ->
             count_occ Nat.eq_dec (filter (fun g => negb (g =? cb)%nat) l) f =
             count_occ Nat.eq_dec l f).
  { intros l f Hf. induction l as [|x l IH]; [reflexivity|].
    simpl. destruct (Nat.eqb_spec x cb) as [->|Hx]; simpl.
    - destruct (Nat.eq_dec cb f); [congruence|exact IH].
    - destruct (Nat.eq_dec x f); [now rewrite IH|exact IH]. }
  assert (Twice: forall l,
             filter (fun f => negb (f =? cb)%nat) ((l ++ [cb]) ++ [cb]) =
             filter (fun f => negb (f =? cb)%nat) l).
  { intros l. rewrite !filter_app. simpl. rewrite Nat.eqb_refl. simpl.
    now rewrite !app_nil_r. }
  destruct ev; cbn [off on callbacks_of with_log with_progress
                    logEventCallbacks progressEventCallbacks
                    inputStreams outputStreams].
  - split; [apply NotIn|]. split; [intros f Hf; now apply Count|].
    split; [intros [|] Hev; [contradiction|reflexivity]|].
    split; [reflexivity|]. split; [reflexivity|].
    split; [now rewrite Twice|].
    intros Hnot. rewrite filter_other_app by assumption. now destruct s.
  - split; [apply NotIn|]. split; [intros f Hf; now apply Count|].
    split; [intros [|] Hev; [reflexivity|contradiction]|].
    split; [reflexivity|]. split; [reflexivity|].
    split; [now rewrite Twice|].
    intros Hnot. rewrite filter_other_app by assumption. now destruct s.
Qed.

Lemma off_removes_every_registration_witness :
  ~ In 7%nat
      (callbacks_of log
         {| logEventCallbacks := [1%nat; 2%nat];
            progressEventCallbacks := [7%nat];
            inputStreams := []; outputStreams := [] |}) /\
  off log 7%nat
    (on log 7%nat
       {| logEventCallbacks := [1%nat; 2%nat];
          progressEventCallbacks := [7%nat];
          inputStreams := []; outputStreams := [] |}) =
    {| logEventCallbacks := [1%nat; 2%nat];
       progressEventCallbacks := [7%nat];
       inputStreams := []; outputStreams := [] |}.
Proof.
  assert (H: ~ In 7%nat
               (callbacks_of log
                  {| logEventCallbacks := [1%nat; 2%nat];
                     progressEventCallbacks := [7%nat];
                     inputStreams := []; outputStreams := [] |})).
  { simpl. intros [E|[E|[]]]; discriminate E. }
  split; [exact H|].
  exact (proj2 (proj2 (proj2 (proj2 (proj2 (proj2
           (off_removes_every_registration log 7%nat _)))))) H).
Defined.

(** ** The byte-at-a-time version *)

Lemma bytewise_readSync_loop_count (env : interference) (fuel : nat) :
  forall target offset limit bytesRead b n t' b',
    ByteWise.readSync_loop env fuel target offset limit bytesRead b =
      Returns (n, t') b' ->
    bytesRead <= n <= Z.max limit bytesRead /\ length t' = length target.
Proof.
  induction fuel as [|fuel IH];
    intros target offset limit bytesRead b n t' b' E;
    cbn [ByteWise.readSync_loop] in E;
    destruct (Z.ltb_spec bytesRead limit) as [Hlt|Hge];
    try discriminate E;
    try (unfold ret in E; injection E as <- <- <-; split; [lia|reflexivity]).
  unfold bind in E.
  destruct (ByteWise.readSync_wait env fuel b) as [[|] b1| |];
    try discriminate E.
  - unfold ret in E. injection E as <- <- <-. split; [lia|reflexivity].
  - rewrite readPosition_run in E.
    unfold set_readPosition, Atomics_store, notifyWriters, Atomics_notify, ret in E.
    apply IH in E. destruct E as (Hn & Hl). split; [lia|].
    rewrite Hl. unfold ByteWise.target_store.
    destruct (_ && _); [apply set_at_length|reflexivity].
Qed.

(** X17. In the byte-at-a-time version of the class a [readSync] never
    returns more than [limit]: whatever the region holds and whatever the
    counterpart does, a returned count is -1 or lies between 0 and [limit],
    and the target keeps its length. *)
Theorem bytewise_read_respects_limit (env : interference) (fuel : nat)
    (target : list byte) (offset limit : Z) (b : buffer)
    (n : Z) (t' : list byte) (b' : buffer) :
  ByteWise.readSync env fuel target offset limit b = Returns (n, t') b' ->
  (n = -1 \/ 0 <= n <= Z.max limit 0) /\ length t' = length target.
Proof.
  intros E. unfold ByteWise.readSync, bind in E.
  rewrite endOfStream_run in E.
  destruct (state b >? 1).
  - unfold ret in E. injection E as <- <- <-. split; [now left|reflexivity].
  - apply bytewise_readSync_loop_count in E. destruct E as (Hn & Hl).
    split; [right; lia|exact Hl].
Qed.

Lemma bytewise_read_respects_limit_witness :
  ByteWise.readSync idle 6 (bytes_of [0; 0; 0; 0; 0; 0; 0; 0; 0; 0]) 0 3
    (stream_with [1; 2; 3; 4; 5]) =
    Returns (3, bytes_of [1; 2; 3; 0; 0; 0; 0; 0; 0; 0])
      (after (ByteWise.readSync idle 6
                (bytes_of [0; 0; 0; 0; 0; 0; 0; 0; 0; 0]) 0 3)
         (stream_with [1; 2; 3; 4; 5])) /\
  (3 = -1 \/ 0 <= 3 <= Z.max 3 0).
Proof.
  assert (E: ByteWise.readSync idle 6
               (bytes_of [0; 0; 0; 0; 0; 0; 0; 0; 0; 0]) 0 3
               (stream_with [1; 2; 3; 4; 5]) =
             Returns (3, bytes_of [1; 2; 3; 0; 0; 0; 0; 0; 0; 0])
               (after (ByteWise.readSync idle 6
                         (bytes_of [0; 0; 0; 0; 0; 0; 0; 0; 0; 0]) 0 3)
                  (stream_with [1; 2; 3; 4; 5])))
    by (vm_compute; reflexivity).
  split; [exact E|].
  exact (proj1 (bytewise_read_respects_limit _ _ _ _ _ _ _ _ _ E)).
Defined.

Lemma writeByte_spec (v : byte) (b : buffer) :
  stream_ok b ->
  ((wp b + 1) mod capacity b = rp b ->
   ByteWise.writeByte v b = Returns (false, rp b) b) /\
  ((wp b + 1) mod capacity b <> rp b ->
   exists b',
     ByteWise.writeByte v b = Returns (true, rp b) b' /\
     stream_ok b' /\ rp b' = rp b /\ state b' = state b /\
     length b' = length b /\ used b' = used b + 1 /\
     contents b' = contents b ++ [v]).
Proof.
  intros Hok.
  pose proof (used_range b Hok) as Hub.
  pose proof (wp_from_used b Hok) as Hwu.
  pose proof (capacity_min b Hok) as Hc.
  pose proof Hok as (Hlen & Hcap & Hr & Hw & Hs).
  unfold ByteWise.writeByte, bind.
  rewrite writePosition_run, readPosition_run.
  change (data_length b) with (capacity b).
  rewrite rem_is_mod by lia.
  split; intros Hfull.
  - destruct (Z.eqb_spec ((wp b + 1) mod capacity b) (rp b));
      [reflexivity|contradiction].
  - destruct (Z.eqb_spec ((wp b + 1) mod capacity b) (rp b));
      [contradiction|].
    rewrite writePosition_run.
    unfold ByteWise.data_store. change (data_length b) with (capacity b).
    destruct (Z.leb_spec 0 (wp b)); [|lia].
    destruct (Z.ltb_spec (wp b) (capacity b)); [|lia].
    cbv [andb]. change (Z.to_nat indexBytes) with 12%nat.
    destruct (stream_words_after_data_set b (Z.to_nat (wp b)) [v] ltac:(lia))
      as (R1 & W1 & S1 & D1 & C1 & L1).
    set (b1 := set_at b (12 + Z.to_nat (wp b)) [v]) in *.
    unfold set_writePosition, Atomics_store, notifyReaders, Atomics_notify, ret.
    assert (Hnext: 0 <= (wp b + 1) mod capacity b < capacity b)
      by (apply Z.mod_pos_bound; lia).
    destruct (stream_words_after_store b1 1 ((wp b + 1) mod capacity b)
                ltac:(lia) ltac:(lia)) as (R2 & W2 & S2 & D2 & C2 & L2).
    cbn [Nat.eqb] in R2, W2, S2. rewrite to_int32_small in W2 by lia.
    set (b' := Int32_set b1 1 ((wp b + 1) mod capacity b)) in *.
    assert (Hnf: used b <> capacity b - 1).
    { rewrite <- full_iff by assumption. assumption. }
    assert (U: used b' = used b + 1).
    { unfold used at 1. rewrite R2, W2, C2, R1, C1.
      rewrite Zminus_mod_idemp_l.
      replace (wp b + 1 - rp b) with (wp b - rp b + 1) by lia.
      rewrite <- Zplus_mod_idemp_l. fold (used b). apply Z.mod_small; lia. }
    exists b'. split; [reflexivity|].
    conjs; try congruence.
    + unfold stream_ok. rewrite R2, W2, S2, C2, L2, R1, S1, C1, L1.
      conjs; lia.
    + unfold contents. rewrite U, D2, D1, R2, R1.
      change 1 with (Zlength' [v]).
      apply ring_overlay; fold (data_length b); fold (capacity b);
        change (Zlength' [v]) with 1; try lia; assumption.
Qed.

Lemma bytewise_writeSync_loop_fits (env : interference) (fuel : nat) :
  forall (source : list byte) (total : Z) (b : buffer),
    stream_ok b -> 0 <= total <= Zlength' source ->
    used b + (Zlength' source - total) <= capacity b - 1 ->
    Zlength' source - total <= Z.of_nat fuel ->
    exists b',
      ByteWise.writeSync_loop env fuel source total b =
        Returns (Zlength' source) b' /\
      stream_ok b' /\ rp b' = rp b /\ state b' = state b /\
      length b' = length b /\
      contents b' = contents b ++ skipn (Z.to_nat total) source.
Proof.
  induction fuel as [|fuel IH]; intros source total b Hok Ht Hroom Hfuel;
    cbn [ByteWise.writeSync_loop];
    destruct (Z.ltb_spec total (Zlength' source)) as [Hlt|Hge]; try lia;
    try (assert (total = Zlength' source) by lia; subst total; exists b;
         unfold ret, Zlength'; rewrite Nat2Z.id, skipn_all, app_nil_r;
         conjs; auto).
  unfold bind.
  assert (Hnf: (wp b + 1) mod capacity b <> rp b).
  { rewrite full_iff by assumption. lia. }
  destruct (proj2 (writeByte_spec (nth (Z.to_nat total) source Byte.x00) b Hok) Hnf)
    as (b1 & E1 & Hok1 & R1 & S1 & L1 & U1 & C1).
  rewrite E1.
  assert (Cap: capacity b1 = capacity b).
  { destruct Hok, Hok1. rewrite !capacity_length; lia. }
  destruct (IH source (total + 1) b1 Hok1) as (b' & E' & Hok' & R' & S' & L' & C');
    try lia.
  exists b'. rewrite E'. conjs; try congruence.
  rewrite C', C1, <- app_assoc. f_equal.
  replace (Z.to_nat (total + 1)) with (S (Z.to_nat total)) by lia.
  symmetry. apply skipn_nth_cons. unfold Zlength' in *. lia.
Qed.

(** X18. In the byte-at-a-time version a [writeSync] on a closed stream
    resets it first: whatever was still unread is dropped, closed and
    end-of-stream are cleared, and (for a source of up to capacity - 1 bytes)
    the call returns the source length with the stream holding exactly the
    source.  On an open stream the source is appended to what is buffered. *)
Theorem bytewise_write_after_close_starts_over (env : interference) (fuel : nat)
    (source : list byte) (b : buffer) :
  (48 <= length b)%nat -> capacity b <= 2 ^ 31 ->
  Zlength' source <= Z.of_nat fuel ->
  (state b <> 0 -> Zlength' source <= capacity b - 1 ->
   exists b',
     ByteWise.writeSync env fuel source b = Returns (Zlength' source) b' /\
     stream_ok b' /\ state b' = 0 /\ rp b' = 0 /\ contents b' = source) /\
  (state b = 0 -> stream_ok b ->
   used b + Zlength' source <= capacity b - 1 ->
   exists b',
     ByteWise.writeSync env fuel source b = Returns (Zlength' source) b' /\
     stream_ok b' /\ state b' = 0 /\ rp b' = rp b /\
     contents b' = contents b ++ source).
Proof.
  intros Hlen Hcap Hfuel.
  assert (Hs: 0 <= Zlength' source) by (unfold Zlength'; lia).
  unfold ByteWise.writeSync, bind. rewrite closed_run.
  split.
  - intros Hcl Hfit.
    destruct (Z.eqb_spec (state b) 0) as [|_]; [contradiction|]. cbn [negb].
    destruct (reset_effect b ltac:(lia)) as (b0 & E0 & R0 & W0 & S0 & D0 & L0 & C0).
    rewrite E0.
    assert (Hc: 36 <= capacity b) by (rewrite capacity_length; lia).
    assert (Hok0: stream_ok b0).
    { unfold stream_ok. rewrite R0, W0, S0, C0, L0. conjs; lia. }
    destruct (empty_contents b0 Hok0 ltac:(congruence)) as (U0 & Cn0).
    destruct (bytewise_writeSync_loop_fits env fuel source 0 b0 Hok0)
      as (b' & E' & Hok' & R' & S' & L' & C'); try lia.
    exists b'. rewrite E'. rewrite Cn0 in C'. simpl in C'.
    conjs; try assumption; congruence.
  - intros Hopen Hok Hfit.
    destruct (Z.eqb_spec (state b) 0) as [_|]; [|contradiction]. cbn [negb].
    unfold ret.
    destruct (bytewise_writeSync_loop_fits env fuel source 0 b Hok)
      as (b' & E' & Hok' & R' & S' & L' & C'); try lia.
    exists b'. rewrite E'. simpl in C'.
    conjs; try assumption; congruence.
Qed.

Lemma bytewise_write_after_close_starts_over_witness :
  (48 <= length (closed_stream_with [7; 8; 9]%Z))%nat /\
  state (closed_stream_with [7; 8; 9]) <> 0 /\
  exists b',
    ByteWise.writeSync idle 2 (bytes_of [1; 2]) (closed_stream_with [7; 8; 9]) =
      Returns (Zlength' (bytes_of [1; 2])) b' /\
    state b' = 0 /\ contents b' = bytes_of [1; 2].
Proof.
  assert (Hl: (48 <= length (closed_stream_with [7; 8; 9]%Z))%nat) by by_evaluation.
  assert (Hc: state (closed_stream_with [7; 8; 9]) <> 0) by by_evaluation.
  split; [exact Hl|]. split; [exact Hc|].
  destruct (bytewise_write_after_close_starts_over idle 2 (bytes_of [1; 2])
              (closed_stream_with [7; 8; 9]) Hl)
    as (H & _).
  { by_evaluation. }
  { by_evaluation. }
  destruct (H Hc) as (b' & E & _ & S & _ & C).
  { by_evaluation. }
  exists b'. conjs; assumption.
Defined.

Lemma ring_head (d : list byte) (r u : Z) :
  0 <= r < Zlength' d -> 1 <= u ->
  ring d r u = nth (Z.to_nat r) d Byte.x00 :: skipn 1 (ring d r u).
Proof.
  intros Hr Hu. unfold ring.
  destruct (Z.to_nat u) as [|m] eqn:E; [lia|].
  cbn [seq map skipn]. f_equal.
  rewrite Z.add_0_r, Z.mod_small by lia. reflexivity.
Qed.

Lemma bytewise_readSync_wait_ready (env : interference) (fuel : nat) (b : buffer) :
  rp b <> wp b -> ByteWise.readSync_wait env fuel b = Returns false b.
Proof.
  intros Hne.
  destruct fuel; cbn [ByteWise.readSync_wait]; unfold bind;
    rewrite readPosition_run, writePosition_run;
    destruct (Z.eqb_spec (rp b) (wp b)); try contradiction; reflexivity.
Qed.

Lemma bytewise_readSync_loop_delivers (env : interference) (fuel : nat) :
  forall (target : list byte) (offset limit bytesRead : Z) (b : buffer),
    stream_ok b -> 0 <= bytesRead <= limit ->
    limit - bytesRead <= used b -> limit - bytesRead <= Z.of_nat fuel ->
    0 <= offset -> offset + limit <= Zlength' target ->
    exists b',
      ByteWise.readSync_loop env fuel target offset limit bytesRead b =
        Returns (limit,
                 set_at target (Z.to_nat (offset + bytesRead))
                   (firstn (Z.to_nat (limit - bytesRead)) (contents b))) b' /\
      stream_ok b' /\ wp b' = wp b /\ state b' = state b /\
      length b' = length b /\
      contents b' = skipn (Z.to_nat (limit - bytesRead)) (contents b).
Proof.
  induction fuel as [|fuel IH];
    intros target offset limit bytesRead b Hok Hb Hu Hfuel Hoff Hfit;
    cbn [ByteWise.readSync_loop];
    destruct (Z.ltb_spec bytesRead limit) as [Hlt|Hge]; try lia;
    try (assert (bytesRead = limit) by lia; subst bytesRead; exists b;
         rewrite Z.sub_diag; cbn [Z.to_nat firstn skipn];
         rewrite set_at_nil; unfold ret; conjs; auto).
  pose proof (used_range b Hok) as Hub.
  pose proof (capacity_min b Hok) as Hc.
  pose proof Hok as (Hlen & Hcap & Hr & Hw & Hs).
  assert (Hne: rp b <> wp b).
  { rewrite <- empty_iff by assumption. lia. }
  unfold bind. rewrite bytewise_readSync_wait_ready by assumption.
  rewrite readPosition_run.
  unfold set_readPosition, Atomics_store, notifyWriters, Atomics_notify, ret.
  change (data_length b) with (capacity b).
  rewrite rem_is_mod by lia.
  assert (Hnext: 0 <= (rp b + 1) mod capacity b < capacity b)
    by (apply Z.mod_pos_bound; lia).
  destruct (stream_words_after_store b 0 ((rp b + 1) mod capacity b)
              ltac:(lia) ltac:(lia)) as (R1 & W1 & S1 & D1 & C1 & L1).
  cbn [Nat.eqb] in R1, W1, S1. rewrite to_int32_small in R1 by lia.
  set (b1 := Int32_set b 0 ((rp b + 1) mod capacity b)) in *.
  assert (U1: used b1 = used b - 1).
  { unfold used at 1. rewrite R1, W1, C1.
    rewrite Zminus_mod_idemp_r.
    replace (wp b - (rp b + 1)) with (wp b - rp b - 1) by lia.
    rewrite <- Zminus_mod_idemp_l. fold (used b). apply Z.mod_small; lia. }
  assert (Cn1: contents b1 = skipn 1 (contents b)).
  { unfold contents. rewrite U1, D1, R1.
    apply (ring_skip (data b) (rp b) (used b) 1); fold (data_length b);
      fold (capacity b); lia. }
  assert (Hd: contents b = ByteWise.data_get (rp b) b :: contents b1).
  { rewrite Cn1. unfold ByteWise.data_get. change (data_length b) with (capacity b).
    destruct (Z.leb_spec 0 (rp b)); [|lia].
    destruct (Z.ltb_spec (rp b) (capacity b)); [|lia].
    cbv [andb]. apply ring_head; [exact Hr|lia]. }
  assert (Hok1: stream_ok b1).
  { unfold stream_ok. rewrite R1, W1, S1, C1, L1. conjs; lia. }
  destruct (IH (ByteWise.target_store target (offset + bytesRead)
                  (ByteWise.data_get (rp b) b))
               offset limit (bytesRead + 1) b1 Hok1)
    as (b' & E' & Hok' & W' & S' & L' & C'); try lia.
  { unfold ByteWise.target_store.
    destruct (_ && _); [|assumption].
    unfold Zlength' in *. rewrite set_at_length. assumption. }
  exists b'. rewrite E'.
  replace (Z.to_nat (limit - bytesRead))
    with (S (Z.to_nat (limit - (bytesRead + 1)))) by lia.
  conjs; try congruence.
  - unfold ByteWise.target_store.
    destruct (Z.leb_spec 0 (offset + bytesRead)); [|lia].
    destruct (Z.ltb_spec (offset + bytesRead) (Zlength' target)); [|lia].
    cbv [andb]. rewrite Hd. cbn [firstn].
    replace (Z.to_nat (offset + (bytesRead + 1)))
      with (Z.to_nat (offset + bytesRead) +
            length [ByteWise.data_get (rp b) b])%nat by (cbn [length]; lia).
    rewrite (set_at_app target). reflexivity.
  - rewrite C', Cn1. rewrite skipn_skipn. f_equal. lia.
Qed.

(** X19. In the byte-at-a-time version a [readSync] for which enough is
    buffered returns exactly [limit], without waiting: the oldest [limit]
    unread bytes are stored in the target from [offset] on, in order, and
    the rest stays buffered. *)
Theorem bytewise_read_delivers_exactly_limit (env : interference) (fuel : nat)
    (target : list byte) (offset limit : Z) (b : buffer) :
  stream_ok b -> state b <= 1 ->
  0 <= limit <= used b -> limit <= Z.of_nat fuel ->
  0 <= offset -> offset + limit <= Zlength' target ->
  exists b',
    ByteWise.readSync env fuel target offset limit b =
      Returns (limit,
               set_at target (Z.to_nat offset)
                 (firstn (Z.to_nat limit) (contents b))) b' /\
    stream_ok b' /\ wp b' = wp b /\ state b' = state b /\
    contents b' = skipn (Z.to_nat limit) (contents b).
Proof.
  intros Hok Hst Hlim Hfuel Hoff Hfit.
  unfold ByteWise.readSync, bind. rewrite endOfStream_run.
  destruct (Z.gtb_spec (state b) 1) as [|_]; [lia|].
  destruct (bytewise_readSync_loop_delivers env fuel target offset limit 0 b Hok)
    as (b' & E' & Hok' & W' & S' & L' & C'); try lia.
  rewrite Z.add_0_r, Z.sub_0_r in E'. rewrite Z.sub_0_r in C'.
  exists b'. conjs; assumption.
Qed.

Lemma bytewise_read_delivers_exactly_limit_witness :
  stream_ok (stream_with [1; 2; 3; 4; 5]) /\
  exists b',
    ByteWise.readSync idle 3 (bytes_of [0; 0; 0; 0; 0; 0; 0; 0; 0; 0]) 2 3
      (stream_with [1; 2; 3; 4; 5]) =
      Returns (3, bytes_of [0; 0; 1; 2; 3; 0; 0; 0; 0; 0]) b' /\
    contents b' = bytes_of [4; 5].
Proof.
  assert (Hok: stream_ok (stream_with [1; 2; 3; 4; 5])) by concrete_stream_ok.
  split; [exact Hok|].
  destruct (bytewise_read_delivers_exactly_limit idle 3
              (bytes_of [0; 0; 0; 0; 0; 0; 0; 0; 0; 0]) 2 3
              (stream_with [1; 2; 3; 4; 5]) Hok)
    as (b' & E & _ & _ & _ & C).
  { by_evaluation. }
  { by_evaluation. }
  { by_evaluation. }
  { lia. }
  { by_evaluation. }
  exists b'. split; [exact E|exact C].
Defined.

(** ** Closing the output devices *)

Lemma drain_closed (v : variant) (env : interference) (fuel : nat)
    (target : list byte) (offset limit : Z) (b : buffer) :
  stream_ok b -> state b = 1 ->
  0 <= offset -> offset + used b <= Zlength' target ->
  used b < limit -> used b < Z.of_nat fuel ->
  exists b',
    read_call v env fuel target offset limit b =
      Returns (used b, set_at target (Z.to_nat offset) (contents b)) b' /\
    state b' = 3 /\ contents b' = [].
Proof.
  intros Hok Hcl Hoff Hroom Hlim Hfuel.
  pose proof (used_range b Hok) as Hu.
  pose proof (contents_length b Hok) as HC.
  destruct (readSync_loop_drains fuel target offset limit 0 b Hok)
    as (t' & b' & E & S); try lia.
  rewrite Z.add_0_l in E.
  assert (Ecall: read_call v idle fuel target offset limit b =
                 Returns (used b, t') b').
  { rewrite read_call_blocking, readSync_open by lia. exact E. }
  destruct (read_call_sound v fuel target offset limit b _ _ _ Hok
              ltac:(lia) ltac:(lia) Ecall)
    as (_ & _ & Ht & _ & _ & C & _).
  assert (Hall: firstn (Z.to_nat (used b)) (contents b) = contents b).
  { apply firstn_all2. unfold Zlength' in HC. lia. }
  rewrite Hall in Ht. subst t'.
  exists b'. conjs.
  - rewrite read_call_blocking, readSync_open by lia.
    apply readSync_loop_never_parked. exact E.
  - rewrite S, Hcl. reflexivity.
  - rewrite C. apply skipn_all2. unfold Zlength' in HC. lia.
Qed.

(** X20. [closeOutputStreams()] of the worker ends every output stream for
    its reader: the descriptors stay registered, and an open stream that held
    K unread bytes is closed with those bytes kept, so that a [read] or
    [readSync] with room for them and a limit above K returns the K bytes in
    order and latches end-of-stream, after which every read returns -1. *)
Theorem closeOutputStreams_ends_every_stream (outputStreams : stream_map) :
  map fst (Worker.closeOutputStreams outputStreams) = map fst outputStreams /\
  forall (fd : Z) (b : buffer),
    map_get outputStreams fd = Some b -> stream_ok b -> state b = 0 ->
    exists b1,
      map_get (Worker.closeOutputStreams outputStreams) fd = Some b1 /\
      state b1 = 1 /\ contents b1 = contents b /\
      forall (v : variant) (env : interference) (fuel : nat)
             (target : list byte) (offset limit : Z),
        0 <= offset -> offset + used b <= Zlength' target ->
        used b < limit -> used b < Z.of_nat fuel ->
        exists b2,
          read_call v env fuel target offset limit b1 =
            Returns (used b, set_at target (Z.to_nat offset) (contents b)) b2 /\
          state b2 = 3 /\
          forall (v' : variant) (env' : interference) (fuel' : nat)
                 (target' : list byte) (offset' limit' : Z),
            read_call v' env' fuel' target' offset' limit' b2 =
              Returns (-1, target') b2.
Proof.
  unfold Worker.closeOutputStreams. rewrite map_keys_map_values.
  split; [reflexivity|].
  intros fd b Hget Hok Hopen.
  destruct (close_effect b Hok)
    as (b1 & E1 & Hok1 & S1 & _ & _ & _ & _ & _ & C1 & U1 & _).
  exists b1. rewrite map_get_map_values, Hget. cbn [option_map].
  unfold after. rewrite E1.
  assert (Hcl: state b1 = 1) by (rewrite S1, Hopen; reflexivity).
  conjs; try assumption; try reflexivity.
  intros v env fuel target offset limit Hoff Hroom Hlim Hfuel.
  destruct (drain_closed v env fuel target offset limit b1 Hok1 Hcl)
    as (b2 & E2 & S2 & _); try lia.
  exists b2. rewrite E2, U1, C1. conjs; try assumption; try reflexivity.
  intros. apply read_call_at_end_of_stream. lia.
Qed.

Lemma closeOutputStreams_ends_every_stream_witness :
  map_get [(4, stream_with [7; 8]); (5, fresh 36)] 4 = Some (stream_with [7; 8]) /\
  exists b1 b2,
    map_get (Worker.closeOutputStreams [(4, stream_with [7; 8]); (5, fresh 36)]) 4 =
      Some b1 /\
    readSync idle 3 (bytes_of [0; 0; 0; 0]) 1 3 b1 =
      Returns (used (stream_with [7; 8]),
               set_at (bytes_of [0; 0; 0; 0]) (Z.to_nat 1)
                 (contents (stream_with [7; 8]))) b2 /\
    state b2 = 3.
Proof.
  assert (Hget: map_get [(4, stream_with [7; 8]); (5, fresh 36)] 4 =
                Some (stream_with [7; 8])) by reflexivity.
  assert (Hok: stream_ok (stream_with [7; 8])) by concrete_stream_ok.
  assert (Hopen: state (stream_with [7; 8]) = 0) by by_evaluation.
  split; [exact Hget|].
  destruct (proj2 (closeOutputStreams_ends_every_stream
                     [(4, stream_with [7; 8]); (5, fresh 36)])
              4 (stream_with [7; 8]) Hget Hok Hopen)
    as (b1 & G1 & _ & _ & Hread).
  destruct (Hread Blocking idle 3%nat (bytes_of [0; 0; 0; 0]) 1 3)
    as (b2 & E2 & S2 & _).
  { lia. }
  { by_evaluation. }
  { by_evaluation. }
  { by_evaluation. }
  exists b1, b2. conjs; assumption.
Defined.

(** ** Across the two sides of a stream *)

(** X21. Nothing stops a [write] or [writeSync] on a stream that has reached
    end-of-stream: a source that fits is accepted and buffered like any
    other, the state stays as it is, and every later read still returns -1
    with the target untouched, so the bytes stay undelivered until the
    stream is reset. *)
Theorem write_after_end_of_stream_is_never_read (v : variant)
    (env : interference) (fuel : nat) (source : list byte) (b : buffer) :
  stream_ok b -> state b > 1 ->
  used b + Zlength' source <= capacity b - 1 ->
  Zlength' source <= Z.of_nat fuel ->
  exists b',
    write_call v env fuel source b = Returns (Zlength' source) b' /\
    contents b' = contents b ++ source /\ state b' = state b /\
    forall (v' : variant) (env' : interference) (fuel' : nat)
           (target : list byte) (offset limit : Z),
      read_call v' env' fuel' target offset limit b' = Returns (-1, target) b'.
Proof.
  intros Hok Heos Hfit Hfuel.
  assert (Hs: 0 <= Zlength' source) by (unfold Zlength'; lia).
  destruct (writeSync_loop_fits env fuel source 0 b Hok)
    as (b' & E & Hok' & R & S & L & U & C); try lia.
  exists b'. rewrite write_call_blocking. unfold writeSync.
  conjs; try assumption.
  intros. apply read_call_at_end_of_stream. lia.
Qed.

Lemma write_after_end_of_stream_is_never_read_witness :
  stream_ok (ended_stream [7; 8]) /\
  exists b',
    write_call Blocking idle 2 (bytes_of [1; 2]) (ended_stream [7; 8]) =
      Returns (Zlength' (bytes_of [1; 2])) b' /\
    contents b' = contents (ended_stream [7; 8]) ++ bytes_of [1; 2] /\
    readSync idle 3 (bytes_of [0; 0]) 0 2 b' = Returns (-1, bytes_of [0; 0]) b'.
Proof.
  assert (Hok: stream_ok (ended_stream [7; 8])) by concrete_stream_ok.
  split; [exact Hok|].
  destruct (write_after_end_of_stream_is_never_read Blocking idle 2
              (bytes_of [1; 2]) (ended_stream [7; 8]) Hok)
    as (b' & E & C & _ & Hread).
  { by_evaluation. }
  { by_evaluation. }
  { by_evaluation. }
  exists b'. conjs; try assumption.
  exact (Hread Blocking idle 3%nat (bytes_of [0; 0]) 0 2).
Defined.

(** A reader that finds the stream empty and open parks once and goes on
    with the region as the writer left it. *)
Lemma readSync_wait_parks (env : interference) (fuel : nat) (b : buffer) :
  rp b = wp b -> state b = 0 -> rp (env b) <> wp (env b) ->
  readSync_wait env (S fuel) b = Returns false (env b).
Proof.
  intros Hemp Hopen Hdata.
  cbn [readSync_wait]. run_wait_head.
  destruct (Z.eqb_spec (rp b) (wp b)) as [_|]; [|contradiction].
  rewrite closed_run.
  destruct (Z.eqb_spec (state b) 0) as [_|]; [|contradiction]. cbn [negb].
  unfold Atomics_wait. change (Int32_get b 1) with (wp b).
  rewrite Z.eqb_refl.
  apply readSync_wait_ready. assumption.
Qed.

Lemma readSync_loop_parks (env : interference) (fuel : nat)
    (target : list byte) (offset limit bytesRead : Z) (b : buffer) :
  rp b = wp b -> state b = 0 -> bytesRead < limit -> rp (env b) <> wp (env b) ->
  readSync_loop env (S (S fuel)) target offset limit bytesRead b =
  readSync_loop env (S (S fuel)) target offset limit bytesRead (env b).
Proof.
  intros Hemp Hopen Hlt Hdata.
  set (fuel1 := S fuel).
  cbn [readSync_loop].
  destruct (Z.ltb_spec bytesRead limit) as [_|]; [|lia].
  unfold bind. subst fuel1.
  rewrite readSync_wait_parks by assumption.
  rewrite (readSync_wait_ready env (S fuel) (env b)) by assumption.
  reflexivity.
Qed.

(** X22. A [read] or [readSync] on an empty, open stream does not come back
    empty-handed: it waits, and when the writer has meanwhile buffered at
    least [limit] bytes it returns a count between [limit] and what is
    buffered, having delivered that many of the writer's bytes in order and
    left the rest for the next read. *)
Theorem read_waits_for_the_writer (v : variant) (env : interference)
    (fuel : nat) (target : list byte) (offset limit : Z) (b : buffer) :
  stream_ok b -> state b = 0 -> used b = 0 ->
  stream_ok (env b) -> state (env b) <= 1 ->
  0 < limit <= used (env b) ->
  0 <= offset -> offset + limit <= Zlength' target ->
  limit < Z.of_nat fuel ->
  exists n b',
    read_call v env fuel target offset limit b =
      Returns (n, set_at target (Z.to_nat offset)
                    (firstn (Z.to_nat n) (contents (env b)))) b' /\
    limit <= n <= used (env b) /\ offset + n <= Zlength' target /\
    contents b' = skipn (Z.to_nat n) (contents (env b)).
Proof.
  intros Hok Hopen Hemp Hok1 Hst1 Hlim Hoff Hroom Hfuel.
  destruct fuel as [|[|fuel]]; try lia.
  assert (He: rp b = wp b) by (apply empty_iff; assumption).
  assert (Hd: rp (env b) <> wp (env b)).
  { rewrite <- empty_iff by assumption. lia. }
  destruct (readSync_loop_reaches_limit (S (S fuel)) target offset limit 0
              (env b) Hok1)
    as (n & t' & b' & E & Hn); try lia.
  assert (Ecall: read_call v idle (S (S fuel)) target offset limit (env b) =
                 Returns (n, t') b').
  { rewrite read_call_blocking, readSync_open by assumption. exact E. }
  destruct (read_call_sound v (S (S fuel)) target offset limit (env b) n t' b'
              Hok1 Hst1 ltac:(lia) Ecall)
    as (Hn' & Hfit & Ht & _ & _ & C & _).
  exists n, b'.
  rewrite read_call_blocking, readSync_open by lia.
  rewrite readSync_loop_parks by (assumption || lia).
  rewrite (readSync_loop_never_parked env _ _ _ _ _ _ _ _ E), Ht.
  conjs; try reflexivity; try assumption; lia.
Qed.

Lemma read_waits_for_the_writer_witness :
  stream_ok (fresh 36) /\
  exists n b',
    read_call Blocking (after (writeSync idle 4 (bytes_of [1; 2; 3]))) 3
      (bytes_of [0; 0; 0; 0]) 1 2 (fresh 36) =
      Returns (n, set_at (bytes_of [0; 0; 0; 0]) (Z.to_nat 1)
                    (firstn (Z.to_nat n) (contents (stream_with [1; 2; 3])))) b' /\
    2 <= n <= 3.
Proof.
  assert (Hok: stream_ok (fresh 36)) by concrete_stream_ok.
  assert (Hok1: stream_ok (after (writeSync idle 4 (bytes_of [1; 2; 3])) (fresh 36)))
    by concrete_stream_ok.
  split; [exact Hok|].
  destruct (read_waits_for_the_writer Blocking
              (after (writeSync idle 4 (bytes_of [1; 2; 3]))) 3
              (bytes_of [0; 0; 0; 0]) 1 2 (fresh 36) Hok)
    as (n & b' & E & Hn & _ & _).
  { by_evaluation. }
  { by_evaluation. }
  { exact Hok1. }
  { by_evaluation. }
  { by_evaluation. }
  { lia. }
  { by_evaluation. }
  { lia. }
  assert (Hu: used (after (writeSync idle 4 (bytes_of [1; 2; 3])) (fresh 36)) = 3)
    by by_evaluation.
  exists n, b'. split; [exact E|]. rewrite Hu in Hn. exact Hn.
Defined.

(** X23. A [write] or [writeSync] that finds the stream full does not drop
    anything: it waits on the read cursor, and when the reader has meanwhile
    made room for the whole source it returns the source length with the
    source appended to what the reader left. *)
Theorem write_waits_for_the_reader (v : variant) (env : interference)
    (fuel : nat) (source : list byte) (b : buffer) :
  stream_ok b -> used b = capacity b - 1 -> source <> [] ->
  stream_ok (env b) ->
  used (env b) + Zlength' source <= capacity (env b) - 1 ->
  Zlength' source < Z.of_nat fuel ->
  exists b',
    write_call v env fuel source b = Returns (Zlength' source) b' /\
    contents b' = contents (env b) ++ source /\
    rp b' = rp (env b) /\ state b' = state (env b).
Proof.
  intros Hok Hfull Hne Hok1 Hfit Hfuel.
  assert (Hs: 0 < Zlength' source).
  { destruct source; [contradiction|]. unfold Zlength'. simpl length. lia. }
  destruct fuel as [|fuel]; [lia|].
  destruct (writeSync_loop_fits env fuel source 0 (env b) Hok1)
    as (b' & E & _ & R & S & _ & _ & C); try lia.
  exists b'. rewrite write_call_blocking. unfold writeSync.
  cbn [writeSync_loop].
  destruct (Z.ltb_spec 0 (Zlength' source)) as [_|]; [|lia].
  unfold bind.
  rewrite writeBytes_full by (try apply full_iff; assumption).
  cbn [Z.gtb Z.compare].
  unfold Atomics_wait. change (Int32_get b 0) with (rp b). rewrite Z.eqb_refl.
  rewrite E. simpl skipn in C. conjs; try reflexivity; assumption.
Qed.

Lemma write_waits_for_the_reader_witness :
  stream_ok (after (writeSync idle 36 (repeat Byte.x01 35)) (fresh 36)) /\
  exists b',
    write_call Blocking
      (after (readSync idle 11 (repeat Byte.x00 10) 0 10)) 4
      (bytes_of [7; 8; 9])
      (after (writeSync idle 36 (repeat Byte.x01 35)) (fresh 36)) =
      Returns (Zlength' (bytes_of [7; 8; 9])) b' /\
    contents b' = repeat Byte.x01 25 ++ bytes_of [7; 8; 9].
Proof.
  assert (Hok: stream_ok (after (writeSync idle 36 (repeat Byte.x01 35)) (fresh 36)))
    by concrete_stream_ok.
  assert (Hok1: stream_ok
                  (after (readSync idle 11 (repeat Byte.x00 10) 0 10)
                     (after (writeSync idle 36 (repeat Byte.x01 35)) (fresh 36))))
    by concrete_stream_ok.
  assert (Hc: contents
                (after (readSync idle 11 (repeat Byte.x00 10) 0 10)
                   (after (writeSync idle 36 (repeat Byte.x01 35)) (fresh 36))) =
              repeat Byte.x01 25) by (vm_compute; reflexivity).
  split; [exact Hok|].
  destruct (write_waits_for_the_reader Blocking
              (after (readSync idle 11 (repeat Byte.x00 10) 0 10)) 4
              (bytes_of [7; 8; 9])
              (after (writeSync idle 36 (repeat Byte.x01 35)) (fresh 36)) Hok)
    as (b' & E & C & _).
  { by_evaluation. }
  { intro H; discriminate H. }
  { exact Hok1. }
  { by_evaluation. }
  { by_evaluation. }
  exists b'. split; [exact E|]. rewrite C, Hc. reflexivity.
Defined.
